(** * FF3 screen reader: the two Ghidra decompilation scripts

    A shallow embedding of [docs/scripts/decompile_magic.py] and
    [docs/scripts/decompile_pathfinding.py].

    Both scripts run inside Ghidra's Jython 2.7 interpreter.  Every call
    into Ghidra, the file system or the [json] module is an interaction
    with a host whose answers the scripts do not control; the embedding
    represents a script as a tree of such interactions ([prog]) and
    interprets it against an arbitrary host ([runtime]), recording what an
    observer would see: each host call with its outcome, each console line,
    and each call and return of the scripts' own functions.

    Conventions of the embedding:
    - Python [str] and [unicode] values are [string]s (bytes; the scripts
      only search and replace ASCII patterns);
    - Python integers are [Z] (Jython's [int]/[long] do not wrap);
    - a Java reference handed to the script is an opaque [obj]; it is not
      [None] unless the script tests it against [None];
    - exceptions are the ones [except Exception] catches; any host call
      may raise one, [print] and [os.path.exists] do not;
    - a Python 2 dict iterates in no fixed order: the dict is the list of
      its items in iteration order, and the results about the literal
      table hold for every permutation of it. *)

From Stdlib Require Import ZArith List String Ascii Bool Lia.
From Stdlib Require Import Permutation Sorted.
Import ListNotations.
Open Scope string_scope.
Open Scope Z_scope.

Set Implicit Arguments.

(** ** Python string operations used by the scripts *)

Module PyStr.

(** [s * n] for a string [s]. *)
Fixpoint repeat (s : string) (n : nat) : string :=
  match n with
  | O => EmptyString
  | S k => s ++ repeat s k
  end.

(** [sub in s]. *)
Fixpoint contains (sub s : string) : bool :=
  if String.prefix sub s then true
  else match s with
       | EmptyString => false
       | String _ s' => contains sub s'
       end.

(** [s.split(sep)[0]]: the text before the first occurrence of [sep]
    (all of [s] when [sep] does not occur).  [sep] is not empty. *)
Fixpoint split_head (sep s : string) : string :=
  if String.prefix sep s then EmptyString
  else match s with
       | EmptyString => EmptyString
       | String c s' => String c (split_head sep s')
       end.

(** [s.replace(old, new)] for a non-empty [old]: occurrences are replaced
    left to right and do not overlap.  [skip] counts the characters of a
    matched occurrence that are still to be dropped. *)
Fixpoint replace_from (skip : nat) (old new s : string) : string :=
  match s with
  | EmptyString => EmptyString
  | String c s' =>
      match skip with
      | S k => replace_from k old new s'
      | O => if String.prefix old s
             then new ++ replace_from (String.length old - 1) old new s'
             else String c (replace_from O old new s')
      end
  end.

Definition replace (old new s : string) : string := replace_from O old new s.

(** [s.lower()] on ASCII letters. *)
Definition lower_ascii (c : ascii) : ascii :=
  let n := nat_of_ascii c in
  if ((65 <=? n) && (n <=? 90))%nat then ascii_of_nat (n + 32) else c.

Fixpoint lower (s : string) : string :=
  match s with
  | EmptyString => EmptyString
  | String c s' => String (lower_ascii c) (lower s')
  end.

(** Digits of a non-negative number, most significant first. *)
Definition digit_char (d : Z) : ascii :=
  if d <? 10 then ascii_of_nat (48 + Z.to_nat d)
  else ascii_of_nat (55 + Z.to_nat d).

Fixpoint digits (fuel : nat) (base n : Z) (acc : string) : string :=
  match fuel with
  | O => acc
  | S f =>
      let acc' := String (digit_char (n mod base)) acc in
      if n / base =? 0 then acc' else digits f base (n / base) acc'
  end.

Definition numeral (base n : Z) : string :=
  if n <? 0
  then "-" ++ digits (S (Z.to_nat (Z.log2 (- n)))) base (- n) EmptyString
  else digits (S (Z.to_nat (Z.log2 n))) base n EmptyString.

(** ["{:X}".format(n)]. *)
Definition format_X (n : Z) : string := numeral 16 n.

(** [str(n)] for an integer. *)
Definition str_int (n : Z) : string := numeral 10 n.

(** [str(b)] for a boolean. *)
Definition str_bool (b : bool) : string := if b then "True" else "False".

(** [str(x)] where [x] is [None] or a string. *)
Definition str_opt (x : option string) : string :=
  match x with
  | None => "None"
  | Some s => s
  end.

(** [sep.join(l)]. *)
Definition join (sep : string) (l : list string) : string := String.concat sep l.

(** Truth value of a string. *)
Definition truthy (s : string) : bool :=
  match s with
  | EmptyString => false
  | _ => true
  end.

(** Comparison of two strings: byte-wise, a proper prefix sorts first. *)
Definition le (a b : string) : bool :=
  match String.compare a b with
  | Gt => false
  | _ => true
  end.

End PyStr.

(** ** Values that cross the boundary with the host *)

(** A reference to a Java object (a program, an address, a function, an
    open file ...).  The scripts only pass such references around. *)
Inductive obj : Type := Obj (id : nat).

(** What [json.load] returns.  Numbers with a fraction or an exponent are
    outside the model. *)
#[local] Unset Elimination Schemes.
Inductive json : Type :=
| JNull
| JBool (b : bool)
| JInt (n : Z)
| JStr (s : string)
| JList (l : list json)
| JDict (d : list (string * json)).
#[local] Set Elimination Schemes.

(** Errors the interpreter itself raises on an ill-shaped JSON value. *)
Inductive pyerror : Type :=
| NotAContainer (v : json)              (* [k in v] *)
| NotSubscriptable (v : json)           (* [v[k]] *)
| MissingKey (key : string)             (* [d[k]], no such key *)
| NotIterable (v : json)                (* [for x in v] *)
| NoAttribute (v : json) (attr : string) (* [v.attr] *)
| BadOperand (v : json).                (* [n + v] *)

(** An exception caught by [except Exception]: either raised inside a
    host call, with the text [str(e)] gives, or by the interpreter. *)
Inductive exn : Type :=
| HostError (msg : string)
| PyError (e : pyerror).

(** Result of an operation that may raise. *)
Inductive outcome (A : Type) : Type :=
| Ok (a : A)
| Err (e : exn).
Arguments Ok {A} a.
Arguments Err {A} e.

(** The behaviour of the iterator [dtm.getAllDataTypes()] under the loop
    [while it.hasNext(): it.next()]: it yields [yielded] elements and then
    either reports the end or raises [fault].  (An iterator that never
    ends is outside the model.) *)
Record iterator : Type := { yielded : nat; fault : option exn }.

Module PyVal.

Definition type_name (v : json) : string :=
  match v with
  | JNull => "NoneType"
  | JBool _ => "bool"
  | JInt _ => "int"
  | JStr _ => "unicode"
  | JList _ => "list"
  | JDict _ => "dict"
  end.

(** [str(e)] for an interpreter error, in CPython 2.7's wording. *)
Definition pyerror_message (e : pyerror) : string :=
  match e with
  | NotAContainer v => "argument of type '" ++ type_name v ++ "' is not iterable"
  | NotSubscriptable (JList _) => "list indices must be integers, not str"
  | NotSubscriptable (JStr _) => "string indices must be integers"
  | NotSubscriptable v => "'" ++ type_name v ++ "' object has no attribute '__getitem__'"
  | MissingKey key => "'" ++ key ++ "'"
  | NotIterable v => "'" ++ type_name v ++ "' object is not iterable"
  | NoAttribute v attr =>
      "'" ++ type_name v ++ "' object has no attribute '" ++ attr ++ "'"
  | BadOperand v =>
      "unsupported operand type(s) for +: 'long' and '" ++ type_name v ++ "'"
  end.

(** [str(e)] for a caught exception. *)
Definition str_exn (e : exn) : string :=
  match e with
  | HostError msg => msg
  | PyError e => pyerror_message e
  end.

(** Truth value of a JSON value. *)
Definition truthy (v : json) : bool :=
  match v with
  | JNull => false
  | JBool b => b
  | JInt n => negb (n =? 0)
  | JStr s => PyStr.truthy s
  | JList l => match l with [] => false | _ => true end
  | JDict d => match d with [] => false | _ => true end
  end.

(** Lookup in a dict held as an association list. *)
Fixpoint lookup (key : string) (d : list (string * json)) : option json :=
  match d with
  | [] => None
  | (k, v) :: d' => if String.eqb key k then Some v else lookup key d'
  end.

(** [key in v] for a string [key]. *)
Definition contains (key : string) (v : json) : outcome bool :=
  match v with
  | JDict d => Ok (match lookup key d with Some _ => true | None => false end)
  | JList l =>
      Ok (existsb (fun x => match x with JStr s => String.eqb s key | _ => false end) l)
  | JStr s => Ok (PyStr.contains key s)
  | _ => Err (PyError (NotAContainer v))
  end.

(** [v[key]] for a string [key]. *)
Definition getitem (v : json) (key : string) : outcome json :=
  match v with
  | JDict d => match lookup key d with
               | Some x => Ok x
               | None => Err (PyError (MissingKey key))
               end
  | _ => Err (PyError (NotSubscriptable v))
  end.

Fixpoint chars (s : string) : list json :=
  match s with
  | EmptyString => []
  | String c s' => JStr (String c EmptyString) :: chars s'
  end.

(** The elements [for x in v] goes through. *)
Definition iterate (v : json) : outcome (list json) :=
  match v with
  | JList l => Ok l
  | JDict d => Ok (map (fun kv => JStr (fst kv)) d)
  | JStr s => Ok (chars s)
  | _ => Err (PyError (NotIterable v))
  end.

(** [v.get(key)]: only a dict has the method. *)
Definition get (v : json) (key : string) : outcome json :=
  match v with
  | JDict d => Ok (match lookup key d with Some x => x | None => JNull end)
  | _ => Err (PyError (NoAttribute v "get"))
  end.

(** [v == s] for a string [s]. *)
Definition eq_str (v : json) (s : string) : bool :=
  match v with
  | JStr n => String.eqb n s
  | _ => false
  end.

(** [v.replace(old, new)]: only a string has the method. *)
Definition replace (v : json) (old new : string) : outcome string :=
  match v with
  | JStr s => Ok (PyStr.replace old new s)
  | _ => Err (PyError (NoAttribute v "replace"))
  end.

(** [n + v] for an integer [n]. *)
Definition add (n : Z) (v : json) : outcome Z :=
  match v with
  | JInt m => Ok (n + m)
  | JBool b => Ok (n + (if b then 1 else 0))
  | _ => Err (PyError (BadOperand v))
  end.

End PyVal.

(** ** The host interface *)

(** The calls the scripts make into Ghidra, the file system and the
    standard library, indexed by the type of what they return.  A result
    is an [option] where the script tests it against [None]. *)
Inductive call : Type -> Type :=
(* GhidraScript *)
| getCurrentProgram : call (option obj)
| getFunctionAt (addr : obj) : call (option obj)
| createFunction (addr : obj) (name : string) : call (option obj)
(* Program *)
| getName (program : obj) : call string
| getImageBase (program : obj) : call obj
| getOffset (addr : obj) : call Z
| getDataTypeManager (program : obj) : call obj
| getSymbolTable (program : obj) : call obj
| getAddressFactory (program : obj) : call obj
| getDefaultAddressSpace (factory : obj) : call obj
| getAddress (space : obj) (offset : Z) : call obj
(* SymbolTable.createLabel(addr, name, SourceType.IMPORTED) *)
| createLabel (symbols addr : obj) (name : string) : call unit
(* C parser *)
| CParser_new (dtm : obj) : call obj
| CParser_parse (parser : obj) (source : string) : call (option obj)
| getAllDataTypes (dtm : obj) : call iterator
| import_from (module name : string) : call unit
| MessageLog_new : call obj
| ConsoleTaskMonitor_new : call obj
| parseHeaderFiles (dtm : obj) (files includes : list string) (log monitor : obj) : call unit
| hasMessages (log : obj) : call bool
| toString (log : obj) : call string
(* decompiler *)
| DecompInterface_new : call obj
| openProgram (decompiler program : obj) : call bool
| decompileFunction (decompiler func : obj) (timeout : Z) (monitor : obj) : call obj
| decompileCompleted (results : obj) : call bool
| getDecompiledFunction (results : obj) : call (option obj)
| getC (decompiled : obj) : call string
| getErrorMessage (results : obj) : call (option string)
| dispose (decompiler : obj) : call unit
(* files *)
| open_ (path mode : string) : call obj
| codecs_open (path mode encoding : string) : call obj
| file_read (f : obj) : call string
| file_write (f : obj) (data : string) : call unit
| file_close (f : obj) : call unit
| json_load (f : obj) : call json.

(** The functions the scripts define and call. *)
Inductive pycall : Type :=
| parse_il2cpp_header_ (program : obj)
| apply_il2cpp_symbols_ (program : obj)
| decompile_function_at_address_ (decompiler program : obj) (rva : Z) (name : string).

(** What such a function hands back: a value, or an exception that leaves it. *)
Inductive pyret : Type :=
| Ret_bool (b : bool)
| Ret_int (n : Z)
| Ret_pair (code error : option string)
| Ret_raise (e : exn).

(** What an observer of a run sees. *)
Inductive event : Type :=
| Called {X : Type} (c : call X) (r : outcome X)   (* a host call and its outcome *)
| Exists_ (path : string) (b : bool)               (* [os.path.exists] *)
| Console (line : string)                          (* [print] *)
| Traceback (e : exn)                              (* [traceback.print_exc()] *)
| Enter (f : pycall)
| Leave (f : pycall) (r : pyret).

(** The module-level dict [TARGET_FUNCTIONS_RVA], as the list of its
    items in the order the interpreter iterates over them. *)
Definition dict : Type := list (Z * string).

(** ** Programs *)

(** A script as a tree: what it does next and how it goes on from the
    answer.  [Update] stands for any statement that adds, removes or
    changes an entry of [TARGET_FUNCTIONS_RVA]. *)
Inductive prog (A : Type) : Type :=
| Ret (a : A)
| Raise (e : exn)
| Host {X : Type} (c : call X) (k : outcome X -> prog A)
| PathExists (path : string) (k : bool -> prog A)
| Log (e : event) (k : prog A)
| Items (k : dict -> prog A)
| Update (f : dict -> dict) (k : prog A).
Arguments Ret {A} a.
Arguments Raise {A} e.
Arguments Host {A X} c k.
Arguments PathExists {A} path k.
Arguments Log {A} e k.
Arguments Items {A} k.
Arguments Update {A} f k.

Fixpoint bind {A B : Type} (p : prog A) (k : A -> prog B) : prog B :=
  match p with
  | Ret a => k a
  | Raise e => Raise e
  | Host c h => Host c (fun r => bind (h r) k)
  | PathExists path h => PathExists path (fun b => bind (h b) k)
  | Log e q => Log e (bind q k)
  | Items h => Items (fun d => bind (h d) k)
  | Update f q => Update f (bind q k)
  end.

(** [try: p except Exception as e: handler e]. *)
Fixpoint try_ {A : Type} (p : prog A) (handler : exn -> prog A) : prog A :=
  match p with
  | Ret a => Ret a
  | Raise e => handler e
  | Host c h => Host c (fun r => try_ (h r) handler)
  | PathExists path h => PathExists path (fun b => try_ (h b) handler)
  | Log e q => Log e (try_ q handler)
  | Items h => Items (fun d => try_ (h d) handler)
  | Update f q => Update f (try_ q handler)
  end.

Declare Scope prog_scope.
Delimit Scope prog_scope with prog.
Notation "x <- p ;; q" := (bind p (fun x => q))
  (at level 61, p at next level, right associativity) : prog_scope.
Notation "p ;; q" := (bind p (fun _ => q))
  (at level 61, right associativity) : prog_scope.
Open Scope prog_scope.

(** A host call: its result, or the exception it raised. *)
Definition host {X : Type} (c : call X) : prog X :=
  Host c (fun r => match r with Ok x => Ret x | Err e => Raise e end).

(** A value computed by the interpreter, or the error it raises. *)
Definition eval {X : Type} (r : outcome X) : prog X :=
  match r with Ok x => Ret x | Err e => Raise e end.

Definition path_exists (path : string) : prog bool := PathExists path Ret.
Definition print (line : string) : prog unit := Log (Console line) (Ret tt).
Definition print_exc (e : exn) : prog unit := Log (Traceback e) (Ret tt).
Definition items : prog dict := Items Ret.

(** The body of a function [f]: the observer sees the call, and the return
    or the exception that leaves it. *)
Definition def {A : Type} (f : pycall) (ret : A -> pyret) (body : prog A) : prog A :=
  Log (Enter f)
    (try_ (a <- body ;; Log (Leave f (ret a)) (Ret a))
          (fun e => Log (Leave f (Ret_raise e)) (Raise e))).

(** [with opened as f: body f].  The file is closed on the way out, also
    when the body raises; an exception raised by the close wins.
    [attempt p] runs [p] and hands back how it ended. *)
Definition attempt {A : Type} (p : prog A) : prog (outcome A) :=
  try_ (a <- p ;; Ret (Ok a)) (fun e => Ret (Err e)).

Definition with_ {A : Type} (opened : prog obj) (body : obj -> prog A) : prog A :=
  f <- opened ;;
  r <- attempt (body f) ;;
  host (file_close f) ;;
  eval r.

(** ** The scripts *)

Inductive script : Type := Magic | Pathfinding.

(** The dict literal bound to [TARGET_FUNCTIONS_RVA], in source order. *)
Definition TARGET_FUNCTIONS_RVA (s : script) : dict :=
  match s with
  | Magic =>
      [ (0x685930, "AbilityContentListController$$SetDescriptionText");
        (0x6856B0, "AbilityContentListController$$SelectContent");
        (0x686950, "AbilityContentListController$$UpdateFocus");
        (0x6854B0, "AbilityContentListController$$SelectContentByIndex");
        (0x685750, "AbilityContentListController$$SetCursor");
        (0x687190, "AbilityContentListController$$UpdateView");
        (0x686D20, "AbilityContentListController$$UpdateOwnsAbilityList");
        (0x685E90, "AbilityContentListController$$SetFocus");
        (0x682800, "AbilityCommandController$$SetFocus_CommandId");
        (0x6836C0, "AbilityCommandController$$UpdateController");
        (0x6836D0, "AbilityCommandController$$UpdateFocus");
        (0x6823B0, "AbilityCommandController$$SetAbilityData");
        (0x681BA0, "AbilityCommandController$$GetCurrentAbilityCommandId");
        (0x6821F0, "AbilityCommandController$$SelectCommandByIndex");
        (0x682B90, "AbilityCommandController$$SetFocus_bool");
        (0x3BBC30, "BattleAbilityInfomationContentController$$UpdateView_OwnedAbility");
        (0x3BB980, "BattleAbilityInfomationContentController$$SetFocus");
        (0x3BBAF0, "BattleAbilityInfomationContentController$$UpdateAbilitySkillLevel");
        (0x3BB7C0, "BattleAbilityInfomationContentController$$Initalize");
        (0x664350, "OwnedAbility$$get_MesIdName");
        (0x664300, "OwnedAbility$$get_MesIdDescription");
        (0x276F50, "OwnedAbility$$get_Ability");
        (0x6643A0, "OwnedAbility$$get_SkillLevel");
        (0xF54780, "Ability$$get_AbilityLv");
        (0xF54790, "Ability$$get_TypeId");
        (0x6BDF30, "AbilityCommandContentData$$get_Id");
        (0x689120, "AbilityWindowController$$SelectContent");
        (0x688450, "AbilityWindowController$$UpdateView") ]
  | Pathfinding =>
      [ (0xC51270, "MapRouteSearcher$$Search");
        (0xC4F3D0, "MapRouteSearcher$$SearchShortestRoute");
        (0xC50450, "MapRouteSearcher$$SearchSimple");
        (0xC511E0, "MapRouteSearcher$$SearchSpriteEntityToCellPosition");
        (0xC510C0, "MapRouteSearcher$$SearchSpriteEntityDirection");
        (0xC4E9E0, "MapRouteSearcher$$EntityWorldPositionToCellPosition");
        (0xC4EB40, "MapRouteSearcher$$MakeRouteMapWithCollision");
        (0xC4ECC0, "MapRouteSearcher$$MakeRouteMapWithoutCollision");
        (0xC4EDC0, "MapRouteSearcher$$SearchAroundCellWithCollision");
        (0xC4F260, "MapRouteSearcher$$SearchAroundCellWithoutCollision");
        (0xC52140, "MapRouteSearcher$$UpdateRouteMapCellStep");
        (0xC4E970, "MapRouteSearcher$$CanIgnore");
        (0x9391D0, "External.Misc$$ShowMapTitle");
        (0x27FED0, "FieldController$$GetMapTitleID");
        (0x3104C0, "MapModel$$GetMapName");
        (0xA87AA0, "Map$$get_MapName");
        (0xA8A1B0, "Map$$get_MapTitle") ]
  end.

Definition OUTPUT_PATH (s : script) : string :=
  match s with
  | Magic => "D:\Games\Dev\Unity\FFPR\ff3\ff3-screen-reader\docs\scripts\decompiled_magic.c"
  | Pathfinding => "D:\Games\Dev\Unity\FFPR\ff3\docs\scripts\decompiled_pathfinding.c"
  end.

Definition SCRIPT_JSON_PATH : string := "D:\Games\Dev\Unity\FFPR\ff3\script.json".
Definition IL2CPP_HEADER_PATH : string := "D:\Games\Dev\Unity\FFPR\ff3\il2cpp_ghidra.h".

(** The functions below are the same text in both scripts. *)

(** [while iterator.hasNext(): iterator.next(); count += 1], from
    [count = 0]. *)
Definition count_data_types (it : iterator) : prog Z :=
  match fault it with
  | None => Ret (Z.of_nat (yielded it))
  | Some e => Raise e
  end.

(** The inner [try] of the primary parser's handler: the alternative
    method through [CParserUtils]. *)
Definition alternative_parse (dtm : obj) : prog bool :=
  try_
    (host (import_from "ghidra.app.util.cparser.C" "CParserUtils") ;;
     host (import_from "java.io" "File") ;;
     host (import_from "ghidra.app.util" "MessageLog") ;;
     log <- host MessageLog_new ;;
     let file_list := [IL2CPP_HEADER_PATH] in
     let include_paths := [] in
     monitor <- host ConsoleTaskMonitor_new ;;
     host (parseHeaderFiles dtm file_list include_paths log monitor) ;;
     has <- host (hasMessages log) ;;
     (if has
      then text <- host (toString log) ;; print ("Parser messages: " ++ text)
      else Ret tt) ;;
     print "Alternative parsing completed" ;;
     Ret true)
    (fun alt_error =>
       print ("Alternative parsing also failed: " ++ PyVal.str_exn alt_error) ;;
       Ret false).

Definition parse_il2cpp_header (program : obj) : prog bool :=
  def (parse_il2cpp_header_ program) Ret_bool
    (found <- path_exists IL2CPP_HEADER_PATH ;;
     if negb found
     then
       print ("WARNING: il2cpp_ghidra.h not found at: " ++ IL2CPP_HEADER_PATH) ;;
       Ret false
     else
       print ("Parsing IL2CPP header: " ++ IL2CPP_HEADER_PATH) ;;
       print "This may take a few minutes for large headers..." ;;
       try_
         (dtm <- host (getDataTypeManager program) ;;
          print "Reading header file..." ;;
          header_content <-
            with_ (host (open_ IL2CPP_HEADER_PATH "r")) (fun f => host (file_read f)) ;;
          print ("Header size: "
                 ++ PyStr.str_int (Z.of_nat (String.length header_content))
                 ++ " bytes") ;;
          print "Starting C parser..." ;;
          parser <- host (CParser_new dtm) ;;
          try_
            (parsed_dtm <- host (CParser_parse parser header_content) ;;
             match parsed_dtm with
             | Some _ =>
                 print "Parsing completed, applying types to program..." ;;
                 iterator <- host (getAllDataTypes dtm) ;;
                 count <- count_data_types iterator ;;
                 print ("Data type manager now has " ++ PyStr.str_int count ++ " types") ;;
                 Ret true
             | None =>
                 print "Parser returned None - types may have been added directly to DTM" ;;
                 Ret true
             end)
            (fun parse_error =>
               let error_str := PyVal.str_exn parse_error in
               print ("C Parser error: " ++ error_str) ;;
               (if PyStr.contains "line" (PyStr.lower error_str)
                then
                  print "This may be a syntax error in the header file." ;;
                  print "Consider editing il2cpp_ghidra.h to fix or comment out the problematic section."
                else Ret tt) ;;
               print "Attempting alternative parsing method..." ;;
               alternative_parse dtm))
         (fun e =>
            print ("Error parsing il2cpp_ghidra.h: " ++ PyVal.str_exn e) ;;
            print_exc e ;;
            Ret false)).

(** [for target_rva, target_name in TARGET_FUNCTIONS_RVA.items(): ...] *)
Fixpoint label_targets (symbol_table address_factory : obj) (image_base : Z)
    (addr name : json) (targets : dict) (applied : Z) : prog Z :=
  match targets with
  | [] => Ret applied
  | (_, target_name) :: rest =>
      matched <-
        (if PyVal.eq_str name target_name then Ret true
         else dotted <- eval (PyVal.replace name "." "$$") ;;
              Ret (String.eqb dotted target_name)) ;;
      applied' <-
        (if matched : bool
         then
           try_
             (space <- host (getDefaultAddressSpace address_factory) ;;
              offset <- eval (PyVal.add image_base addr) ;;
              ghidra_addr <- host (getAddress space offset) ;;
              renamed <- eval (PyVal.replace name "$$" "__") ;;
              let clean_name :=
                PyStr.replace "," "_" (PyStr.replace ">" "_" (PyStr.replace "<" "_" renamed)) in
              host (createLabel symbol_table ghidra_addr clean_name) ;;
              Ret (applied + 1))
             (fun _ => Ret applied)
         else Ret applied) ;;
      label_targets symbol_table address_factory image_base addr name rest applied'
  end.

(** [for method in data["ScriptMethod"]: ...] *)
Fixpoint label_methods (symbol_table address_factory : obj) (image_base : Z)
    (methods : list json) (applied : Z) : prog Z :=
  match methods with
  | [] => Ret applied
  | method :: rest =>
      addr <- eval (PyVal.get method "Address") ;;
      name <- eval (PyVal.get method "Name") ;;
      applied' <-
        (if PyVal.truthy addr && PyVal.truthy name
         then
           targets <- items ;;
           label_targets symbol_table address_factory image_base addr name targets applied
         else Ret applied) ;;
      label_methods symbol_table address_factory image_base rest applied'
  end.

Definition apply_il2cpp_symbols (program : obj) : prog Z :=
  def (apply_il2cpp_symbols_ program) Ret_int
    (found <- path_exists SCRIPT_JSON_PATH ;;
     if negb found
     then
       print ("script.json not found at: " ++ SCRIPT_JSON_PATH) ;;
       Ret 0
     else
       print ("Loading IL2CPP symbols from: " ++ SCRIPT_JSON_PATH) ;;
       try_
         (data <-
            with_ (host (codecs_open SCRIPT_JSON_PATH "r" "utf-8"))
                  (fun f => host (json_load f)) ;;
          symbol_table <- host (getSymbolTable program) ;;
          address_factory <- host (getAddressFactory program) ;;
          base <- host (getImageBase program) ;;
          image_base <- host (getOffset base) ;;
          let applied := 0 in
          present <- eval (PyVal.contains "ScriptMethod" data) ;;
          applied <-
            (if present : bool
             then
               listed <- eval (PyVal.getitem data "ScriptMethod") ;;
               methods <- eval (PyVal.iterate listed) ;;
               label_methods symbol_table address_factory image_base methods applied
             else Ret applied) ;;
          print ("Applied " ++ PyStr.str_int applied ++ " IL2CPP symbols") ;;
          Ret applied)
         (fun e =>
            print ("Error loading script.json: " ++ PyVal.str_exn e) ;;
            Ret 0)).

Definition decompile_function_at_address (decompiler program : obj)
    (rva : Z) (name : string) : prog (option string * option string) :=
  def (decompile_function_at_address_ decompiler program rva name)
      (fun r => Ret_pair (fst r) (snd r))
    (address_factory <- host (getAddressFactory program) ;;
     base <- host (getImageBase program) ;;
     image_base <- host (getOffset base) ;;
     let abs_addr := image_base + rva in
     try_
       (space <- host (getDefaultAddressSpace address_factory) ;;
        ghidra_addr <- host (getAddress space abs_addr) ;;
        func <- host (getFunctionAt ghidra_addr) ;;
        func <-
          match func with
          | Some f => Ret (Some f)
          | None =>
              print ("    Creating function at 0x" ++ PyStr.format_X abs_addr ++ "...") ;;
              host (createFunction ghidra_addr (PyStr.replace "$$" "_" name))
          end ;;
        match func with
        | None =>
            Ret (None, Some ("Could not create function at 0x" ++ PyStr.format_X abs_addr))
        | Some func =>
            monitor <- host ConsoleTaskMonitor_new ;;
            results <- host (decompileFunction decompiler func 120 monitor) ;;
            completed <- host (decompileCompleted results) ;;
            if completed : bool
            then
              decomp_func <- host (getDecompiledFunction results) ;;
              match decomp_func with
              | Some decomp_func =>
                  code <- host (getC decomp_func) ;;
                  Ret (Some code, None)
              | None => Ret (None, Some "Decompilation returned no result")
              end
            else
              error_msg <- host (getErrorMessage results) ;;
              match error_msg with
              | Some msg =>
                  if PyStr.truthy msg
                  then Ret (None, Some ("Decompilation failed: " ++ msg))
                  else Ret (None, Some "Decompilation failed (unknown error)")
              | None => Ret (None, Some "Decompilation failed (unknown error)")
              end
        end)
       (fun e => Ret (None, Some ("Exception: " ++ PyVal.str_exn e)))).

(** [sorted]: a stable sort; [le a b] says that [a]'s key is not greater
    than [b]'s. *)
Fixpoint insert_sorted {E : Type} (le : E -> E -> bool) (x : E) (l : list E) : list E :=
  match l with
  | [] => [x]
  | y :: l' => if le x y then x :: y :: l' else y :: insert_sorted le x l'
  end.

Definition sorted {E : Type} (le : E -> E -> bool) (l : list E) : list E :=
  fold_right (insert_sorted le) [] l.

(** [key=lambda x: x[1]] *)
Definition by_name (a b : Z * string) : bool := PyStr.le (snd a) (snd b).

(** The order of tuples [(rva, name)]. *)
Definition by_item (a b : Z * string) : bool :=
  (fst a <? fst b) || ((fst a =? fst b) && PyStr.le (snd a) (snd b)).

(** [results.append(line)] *)
Definition append (results : list string) (line : string) : list string :=
  results ++ [line].

Definition newline : string := String "010"%char EmptyString.

(** The local variables the loop of [run] updates. *)
Record tally : Type := {
  results : list string;
  success_count : Z;
  fail_count : Z;
  current_class : string
}.

(** The part of the loop body both scripts share: decompile one entry and
    append its block. *)
Definition decompile_entry (decompiler program : obj) (image_base : Z)
    (t : tally) (rva : Z) (name : string) : prog tally :=
  let abs_addr := image_base + rva in
  print EmptyString ;;
  print ("Decompiling: " ++ name) ;;
  print ("  RVA: 0x" ++ PyStr.format_X rva ++ " -> Absolute: 0x" ++ PyStr.format_X abs_addr) ;;
  r <- decompile_function_at_address decompiler program rva name ;;
  let code := fst r in
  let error := snd r in
  let results := append (results t) EmptyString in
  let results := append results ("/" ++ PyStr.repeat "*" 68 ++ "/") in
  let results := append results ("/* " ++ name) in
  let results := append results (" * RVA: 0x" ++ PyStr.format_X rva) in
  let results := append results (" * Address: 0x" ++ PyStr.format_X abs_addr) in
  let results := append results (" " ++ PyStr.repeat "*" 67 ++ "/") in
  let results := append results EmptyString in
  match code with
  | Some (String _ _ as code) =>
      let results := append results code in
      print "  SUCCESS" ;;
      Ret {| results := results; success_count := success_count t + 1;
             fail_count := fail_count t; current_class := current_class t |}
  | _ =>
      let results := append results ("/* DECOMPILATION FAILED: " ++ PyStr.str_opt error ++ " */") in
      print ("  FAILED: " ++ PyStr.str_opt error) ;;
      Ret {| results := results; success_count := success_count t;
             fail_count := fail_count t + 1; current_class := current_class t |}
  end.

(** [name.split("$$")[0] if "$$" in name else "Unknown"] *)
Definition class_of (name : string) : string :=
  if PyStr.contains "$$" name then PyStr.split_head "$$" name else "Unknown".

(** The loop body of [decompile_magic.py]: a banner when the class
    changes, then the shared part. *)
Definition magic_entry (decompiler program : obj) (image_base : Z)
    (t : tally) (entry : Z * string) : prog tally :=
  let rva := fst entry in
  let name := snd entry in
  let class_name := class_of name in
  let t :=
    if String.eqb class_name (current_class t) then t
    else
      let results := append (results t) EmptyString in
      let results := append results ("/" ++ PyStr.repeat "=" 68 ++ "/") in
      let results := append results ("/* " ++ class_name) in
      let results := append results (" " ++ PyStr.repeat "=" 67 ++ "/") in
      {| results := results; success_count := success_count t;
         fail_count := fail_count t; current_class := class_name |} in
  decompile_entry decompiler program image_base t rva name.

(** The loop body of [decompile_pathfinding.py]. *)
Definition pathfinding_entry (decompiler program : obj) (image_base : Z)
    (t : tally) (entry : Z * string) : prog tally :=
  decompile_entry decompiler program image_base t (fst entry) (snd entry).

(** [for x in l: state = body state x] *)
Fixpoint for_each {S E : Type} (body : S -> E -> prog S) (l : list E) (s : S) : prog S :=
  match l with
  | [] => Ret s
  | x :: l' => s' <- body s x ;; for_each body l' s'
  end.

(** The title printed on the console. *)
Definition title (s : script) : string :=
  match s with
  | Magic => "FF3 Magic/Ability Menu Decompiler"
  | Pathfinding => "FF3 Pathfinding & Map Name Decompiler"
  end.

(** The lines [results] starts with. *)
Definition preamble (s : script) (program_name : string) (image_base : Z)
    (types_parsed : bool) : list string :=
  match s with
  | Magic =>
      [ "/*";
        " * FF3 Decompiled Functions - Magic/Ability Menu";
        " * Generated by Ghidra headless analysis";
        " * Program: " ++ program_name;
        " * Image Base: 0x" ++ PyStr.format_X image_base;
        " * IL2CPP types applied: " ++ PyStr.str_bool types_parsed;
        " *";
        " * Purpose: Understanding magic menu data flow for screen reader accessibility";
        " *";
        " * Key classes:";
        " *   - AbilityContentListController: Main spell list controller";
        " *   - AbilityCommandController: Command menu (Use/Remove/Exchange/Memorize)";
        " *   - BattleAbilityInfomationContentController: Individual spell item";
        " *   - OwnedAbility: Spell data wrapper";
        " */";
        EmptyString ]
  | Pathfinding =>
      [ "/*";
        " * FF3 Decompiled Functions - Pathfinding & Map Names";
        " * Generated by Ghidra headless analysis";
        " * Program: " ++ program_name;
        " * Image Base: 0x" ++ PyStr.format_X image_base;
        " * IL2CPP types applied: " ++ PyStr.str_bool types_parsed;
        " */";
        EmptyString ]
  end.

(** The loop's variables before its first round. *)
Definition initial_tally (s : script) (program_name : string) (image_base : Z)
    (types_parsed : bool) : tally :=
  {| results := preamble s program_name image_base types_parsed;
     success_count := 0; fail_count := 0; current_class := EmptyString |}.

(** The [for] loop of [run]. *)
Definition decompile_all (s : script) (decompiler program : obj) (image_base : Z)
    (t : tally) : prog tally :=
  targets <- items ;;
  match s with
  | Magic =>
      for_each (magic_entry decompiler program image_base) (sorted by_name targets) t
  | Pathfinding =>
      for_each (pathfinding_entry decompiler program image_base) (sorted by_item targets) t
  end.

(** The [# Write output] part of [run]. *)
Definition write_output (s : script) (t : tally) : prog unit :=
  print EmptyString ;;
  print (PyStr.repeat "=" 70) ;;
  try_
    (with_ (host (codecs_open (OUTPUT_PATH s) "w" "utf-8"))
           (fun f => host (file_write f (PyStr.join newline (results t)))) ;;
     print "Decompilation complete!" ;;
     print ("  Success: " ++ PyStr.str_int (success_count t)) ;;
     print ("  Failed:  " ++ PyStr.str_int (fail_count t)) ;;
     print ("  Output:  " ++ OUTPUT_PATH s))
    (fun e =>
       print ("ERROR writing output file: " ++ PyVal.str_exn e) ;;
       try_
         (with_ (host (open_ (OUTPUT_PATH s) "w"))
                (fun f => host (file_write f (PyStr.join newline (results t)))) ;;
          print ("Output written (fallback mode): " ++ OUTPUT_PATH s))
         (fun e2 => print ("FALLBACK ALSO FAILED: " ++ PyVal.str_exn e2))).

(** [run()], for either script. *)
Definition run (s : script) : prog unit :=
  print (PyStr.repeat "=" 70) ;;
  print (title s) ;;
  print (PyStr.repeat "=" 70) ;;
  program <- host getCurrentProgram ;;
  match program with
  | None => print "ERROR: No program loaded!"
  | Some program =>
      base <- host (getImageBase program) ;;
      image_base <- host (getOffset base) ;;
      program_name <- host (getName program) ;;
      print ("Program: " ++ program_name) ;;
      print ("Image Base: 0x" ++ PyStr.format_X image_base) ;;
      print ("Output: " ++ OUTPUT_PATH s) ;;
      print EmptyString ;;
      (* Step 1: Parse IL2CPP header for type information *)
      print (PyStr.repeat "-" 70) ;;
      print "STEP 1: Parsing IL2CPP type definitions" ;;
      print (PyStr.repeat "-" 70) ;;
      types_parsed <- parse_il2cpp_header program ;;
      (if types_parsed : bool
       then print "Type parsing completed successfully"
       else print "Type parsing failed or skipped - decompilation will use generic types") ;;
      print EmptyString ;;
      (* Step 2: Apply symbol names from script.json *)
      print (PyStr.repeat "-" 70) ;;
      print "STEP 2: Applying IL2CPP symbol names" ;;
      print (PyStr.repeat "-" 70) ;;
      apply_il2cpp_symbols program ;;
      print EmptyString ;;
      (* Step 3: Decompile target functions *)
      print (PyStr.repeat "-" 70) ;;
      print "STEP 3: Decompiling target functions" ;;
      print (PyStr.repeat "-" 70) ;;
      print "Initializing decompiler..." ;;
      decompiler <- host DecompInterface_new ;;
      host (openProgram decompiler program) ;;
      program_name <- host (getName program) ;;
      let t := initial_tally s program_name image_base types_parsed in
      t <- decompile_all s decompiler program image_base t ;;
      write_output s t ;;
      print (PyStr.repeat "=" 70) ;;
      host (dispose decompiler)
  end.

(** ** Running a program against a host *)

(** A host: a state of its own, how it answers each call (and moves on),
    and which paths exist in it. *)
Record runtime : Type := {
  world : Type;
  respond : forall X : Type, call X -> world -> outcome X * world;
  file_exists : string -> world -> bool
}.

(** How a run ended. *)
Record run_of (rt : runtime) (A : Type) : Type := {
  value : outcome A;
  trace : list event;
  table : dict;
  hosted : world rt
}.

Definition seen {rt : runtime} {A : Type} (e : event) (r : run_of rt A) : run_of rt A :=
  {| value := value r; trace := e :: trace r; table := table r; hosted := hosted r |}.

Fixpoint exec (rt : runtime) {A : Type} (p : prog A) (d : dict) (w : world rt)
  : run_of rt A :=
  match p with
  | Ret a => {| value := Ok a; trace := []; table := d; hosted := w |}
  | Raise e => {| value := Err e; trace := []; table := d; hosted := w |}
  | Host c k =>
      let (r, w') := respond rt c w in
      seen (Called c r) (exec rt (k r) d w')
  | PathExists path k =>
      let b := file_exists rt path w in
      seen (Exists_ path b) (exec rt (k b) d w)
  | Log e k => seen e (exec rt k d w)
  | Items k => exec rt (k d) d w
  | Update f k => exec rt k (f d) w
  end.

(** One step of a run: [None] when the program has ended. *)
Definition step (rt : runtime) {A : Type} (p : prog A) (d : dict) (w : world rt)
  : option (prog A * dict * world rt) :=
  match p with
  | Ret _ | Raise _ => None
  | Host c k => let (r, w') := respond rt c w in Some (k r, d, w')
  | PathExists path k => Some (k (file_exists rt path w), d, w)
  | Log _ k => Some (k, d, w)
  | Items k => Some (k d, d, w)
  | Update f k => Some (k, f d, w)
  end.

(** The dict after [n] steps (or at the end, when the run is shorter). *)
Fixpoint table_after (rt : runtime) {A : Type} (n : nat) (p : prog A) (d : dict)
    (w : world rt) : dict :=
  match n with
  | O => d
  | S m =>
      match step rt p d w with
      | None => d
      | Some (p', d', w') => table_after rt m p' d' w'
      end
  end.

(** ** Properties of programs, by their shape *)

(** [p] has no statement that touches [TARGET_FUNCTIONS_RVA]. *)
Fixpoint reads_only {A : Type} (p : prog A) : Prop :=
  match p with
  | Ret _ | Raise _ => True
  | Host _ k => forall r, reads_only (k r)
  | PathExists _ k => forall b, reads_only (k b)
  | Log _ k => reads_only k
  | Items k => forall d, reads_only (k d)
  | Update _ _ => False
  end.

(** Whatever the host answers, [p] ends with a value. *)
Fixpoint never_raises {A : Type} (p : prog A) : Prop :=
  match p with
  | Ret _ => True
  | Raise _ => False
  | Host _ k => forall r, never_raises (k r)
  | PathExists _ k => forall b, never_raises (k b)
  | Log _ k => never_raises k
  | Items k => forall d, never_raises (k d)
  | Update _ k => never_raises k
  end.

(** Whatever the host answers, every event of [p] satisfies [P]. *)
Fixpoint emits_only (P : event -> bool) {A : Type} (p : prog A) : Prop :=
  match p with
  | Ret _ | Raise _ => True
  | @Host _ X c k =>
      (forall r : outcome X, P (Called c r) = true) /\ (forall r, emits_only P (k r))
  | PathExists path k =>
      (forall b, P (Exists_ path b) = true) /\ (forall b, emits_only P (k b))
  | Log e k => P e = true /\ emits_only P k
  | Items k => forall d, emits_only P (k d)
  | Update _ k => emits_only P k
  end.

(** ** Reading a trace *)

(** The entry a call of [decompile_function_at_address] was made for. *)
Definition entered (e : event) : option (Z * string) :=
  match e with
  | Enter (decompile_function_at_address_ _ _ rva name) => Some (rva, name)
  | _ => None
  end.

(** What a call of [decompile_function_at_address] returned. *)
Definition returned (e : event) : option pyret :=
  match e with
  | Leave (decompile_function_at_address_ _ _ _ _) r => Some r
  | _ => None
  end.

(** The text handed to [f.write]. *)
Definition written (e : event) : option string :=
  match e with
  | Called c _ =>
      match c with
      | file_write _ data => Some data
      | _ => None
      end
  | _ => None
  end.

(** A file opened for writing: the path. *)
Definition opened_for_writing (e : event) : option string :=
  match e with
  | Called c _ =>
      match c with
      | open_ path mode => if String.eqb mode "w" then Some path else None
      | codecs_open path mode _ => if String.eqb mode "w" then Some path else None
      | _ => None
      end
  | _ => None
  end.

(** A [createLabel] request. *)
Definition labelled (e : event) : bool :=
  match e with
  | Called c _ =>
      match c with
      | createLabel _ _ _ => true
      | _ => false
      end
  | _ => false
  end.

(** A call into the host (anything but console output and the scripts'
    own calls and returns). *)
Definition reaches_host (e : event) : bool :=
  match e with
  | Called _ _ | Exists_ _ _ => true
  | _ => false
  end.

(** The step of [run] an event belongs to, for the events that mark one:
    1 the header is parsed, 2 labels are applied, 3 functions are
    decompiled, 4 the output file is written. *)
Definition stage (e : event) : option nat :=
  match e with
  | Enter (parse_il2cpp_header_ _) | Leave (parse_il2cpp_header_ _) _ => Some 1%nat
  | Enter (apply_il2cpp_symbols_ _) | Leave (apply_il2cpp_symbols_ _) _ => Some 2%nat
  | Enter (decompile_function_at_address_ _ _ _ _)
  | Leave (decompile_function_at_address_ _ _ _ _) _ => Some 3%nat
  | Called c _ =>
      match c with
      | createLabel _ _ _ => Some 2%nat
      | decompileFunction _ _ _ _ => Some 3%nat
      | file_write _ _ => Some 4%nat
      | open_ _ mode => if String.eqb mode "w" then Some 4%nat else None
      | codecs_open _ mode _ => if String.eqb mode "w" then Some 4%nat else None
      | _ => None
      end
  | _ => None
  end.

(** [filter_map]: the values [f] finds along a trace. *)
Fixpoint pick {B : Type} (f : event -> option B) (tr : list event) : list B :=
  match tr with
  | [] => []
  | e :: tr' =>
      match f e with
      | Some b => b :: pick f tr'
      | None => pick f tr'
      end
  end.

(** An event that may occur while [run] is at step [n]. *)
Definition at_stage (n : nat) (e : event) : bool :=
  match stage e with
  | Some k => Nat.eqb k n
  | None => true
  end.

(** ** Composing runs *)

(** A run that comes after the events [tr]. *)
Definition prepend {rt : runtime} {A : Type} (tr : list event) (r : run_of rt A)
  : run_of rt A :=
  {| value := value r; trace := tr ++ trace r; table := table r; hosted := hosted r |}.

(** The run of [p] followed by what comes after its value. *)
Definition then_ {rt : runtime} {A B : Type} (r : run_of rt A)
    (k : A -> dict -> world rt -> run_of rt B) : run_of rt B :=
  match value r with
  | Ok a => prepend (trace r) (k a (table r) (hosted r))
  | Err e =>
      {| value := Err e; trace := trace r; table := table r; hosted := hosted r |}
  end.

(** The run of [p] followed by the handler of its exception. *)
Definition rescue {rt : runtime} {A : Type} (r : run_of rt A)
    (h : exn -> dict -> world rt -> run_of rt A) : run_of rt A :=
  match value r with
  | Ok a => r
  | Err e => prepend (trace r) (h e (table r) (hosted r))
  end.

(** ** The vocabulary of the specification *)

(** The order in which the loop of [run] goes through the entries. *)
Definition item_order (s : script) : Z * string -> Z * string -> bool :=
  match s with
  | Magic => by_name
  | Pathfinding => by_item
  end.

Definition report_order (s : script) : list (Z * string) :=
  sorted (item_order s) (TARGET_FUNCTIONS_RVA s).

Definition entry_eqb (a b : Z * string) : bool :=
  (fst a =? fst b) && String.eqb (snd a) (snd b).

(** On the entries [u], [le] is a total order: any two are comparable,
    it is transitive, and two entries each below the other are equal. *)
Definition orders (le : Z * string -> Z * string -> bool) (u : list (Z * string)) : bool :=
  forallb (fun a => forallb (fun b =>
    (le a b || le b a)
    && implb (le a b && le b a) (entry_eqb a b)
    && forallb (fun c => implb (le a b && le b c) (le a c)) u) u) u.

(** The pair [decompile_function_at_address] returns, as the observer
    sees it. *)
Definition ret_pair (r : option string * option string) : pyret :=
  Ret_pair (fst r) (snd r).

(** [if code:] for the first component of that pair. *)
Definition succeeded (r : option string * option string) : bool :=
  match fst r with
  | Some code => PyStr.truthy code
  | None => false
  end.

(** The header comment of an entry's block: its name, its RVA and its
    absolute address. *)
Definition block_header (image_base rva : Z) (name : string) : list string :=
  [ EmptyString;
    "/" ++ PyStr.repeat "*" 68 ++ "/";
    "/* " ++ name;
    " * RVA: 0x" ++ PyStr.format_X rva;
    " * Address: 0x" ++ PyStr.format_X (image_base + rva);
    " " ++ PyStr.repeat "*" 67 ++ "/";
    EmptyString ].

(** What follows the header: the C code, or the failure comment. *)
Definition block_body (r : option string * option string) : string :=
  match fst r with
  | Some (String _ _ as code) => code
  | _ => "/* DECOMPILATION FAILED: " ++ PyStr.str_opt (snd r) ++ " */"
  end.

(** The banner that opens a class in the report of [decompile_magic.py]. *)
Definition banner (class_name : string) : list string :=
  [ EmptyString;
    "/" ++ PyStr.repeat "=" 68 ++ "/";
    "/* " ++ class_name;
    " " ++ PyStr.repeat "=" 67 ++ "/" ].

(** The lines that precede a block's header: the banner, in
    [decompile_magic.py], when the class differs from the previous one. *)
Definition lead_in (s : script) (previous name : string) : list string :=
  match s with
  | Magic => if String.eqb (class_of name) previous then [] else banner (class_of name)
  | Pathfinding => []
  end.

(** The blocks of the report, one per entry, given what each
    decompilation returned. *)
Fixpoint blocks (s : script) (image_base : Z) (previous : string)
    (entries : list (Z * string)) (outs : list (option string * option string))
  : list (list string) :=
  match entries, outs with
  | (rva, name) :: entries', r :: outs' =>
      (lead_in s previous name ++ block_header image_base rva name ++ [block_body r])%list
      :: blocks s image_base (class_of name) entries' outs'
  | _, _ => []
  end.

(** The lines of a complete report. *)
Definition report (s : script) (program_name : string) (image_base : Z)
    (types_parsed : bool) (outs : list (option string * option string)) : list string :=
  (preamble s program_name image_base types_parsed
   ++ List.concat (blocks s image_base EmptyString (report_order s) outs))%list.

(** No element of another value stands between two equal elements. *)
Definition grouped {B : Type} (l : list B) : Prop :=
  forall (i j k : nat) (a b : B),
    (i < j < k)%nat ->
    nth_error l i = Some a -> nth_error l j = Some b -> nth_error l k = Some a ->
    b = a.

(** The loop body of either script. *)
Definition entry_step (s : script) (decompiler program : obj) (image_base : Z)
  : tally -> Z * string -> prog tally :=
  match s with
  | Magic => magic_entry decompiler program image_base
  | Pathfinding => pathfinding_entry decompiler program image_base
  end.

(** The image base the host answered with. *)
Definition offset_answered (e : event) : option Z :=
  match e with
  | Called c r =>
      match c in call X return outcome X -> option Z with
      | getOffset _ => fun r => match r with Ok z => Some z | Err _ => None end
      | _ => fun _ => None
      end r
  | _ => None
  end.

(** The offset an address was asked for. *)
Definition address_asked (e : event) : option Z :=
  match e with
  | Called c _ =>
      match c with
      | getAddress _ offset => Some offset
      | _ => None
      end
  | _ => None
  end.

(** A host call that raised. *)
Definition raised (e : event) : bool :=
  match e with
  | Called _ (Err _) => true
  | _ => false
  end.

(** Anything but a call or a return of one of the scripts' functions. *)
Definition inner (e : event) : bool :=
  match e with
  | Enter _ | Leave _ _ => false
  | _ => true
  end.

(** How often [decompile_function_at_address] gave back code. *)
Definition successes (outs : list (option string * option string)) : Z :=
  Z.of_nat (List.length (filter succeeded outs)).

Definition failures (outs : list (option string * option string)) : Z :=
  Z.of_nat (List.length (filter (fun r => negb (succeeded r)) outs)).

(** What [run] does when no program is loaded. *)
Definition no_program_trace (s : script) : list event :=
  [ Console (PyStr.repeat "=" 70);
    Console (title s);
    Console (PyStr.repeat "=" 70);
    Called getCurrentProgram (Ok None);
    Console "ERROR: No program loaded!" ].

(** The steps [l] never decrease and none is below [n]. *)
Definition from (n : nat) (l : list nat) : Prop :=
  StronglySorted le l /\ Forall (fun k => (n <= k)%nat) l.

(** [grouped], checked position by position. *)
Definition groupedb (l : list string) : bool :=
  let positions := seq 0 (List.length l) in
  forallb (fun i => forallb (fun j => forallb (fun k =>
    implb ((i <? j)%nat && (j <? k)%nat)
      match nth_error l i, nth_error l j, nth_error l k with
      | Some a, Some b, Some c => implb (String.eqb a c) (String.eqb b a)
      | _, _, _ => true
      end) positions) positions) positions.

(** The class each block of the report belongs to, in the order of the
    report. *)
Definition report_classes (s : script) : list string :=
  map (fun entry => class_of (snd entry)) (report_order s).

(** *** Reading the trace of [decompile_function_at_address] *)

(** An exception raised by one of the three calls made before the [try]. *)
Definition prelude_fault (e : event) : option exn :=
  match e with
  | Called c (Err x) =>
      match c with
      | getAddressFactory _ | getImageBase _ | getOffset _ => Some x
      | _ => None
      end
  | _ => None
  end.

(** What [results.decompileCompleted()] answered. *)
Definition completion (e : event) : option bool :=
  match e with
  | Called c r =>
      match c in call X return outcome X -> option bool with
      | decompileCompleted _ => fun r => match r with Ok b => Some b | Err _ => None end
      | _ => fun _ => None
      end r
  | _ => None
  end.

(** What [results.getDecompiledFunction()] answered. *)
Definition function_given (e : event) : option (option obj) :=
  match e with
  | Called c r =>
      match c in call X return outcome X -> option (option obj) with
      | getDecompiledFunction _ => fun r => match r with Ok o => Some o | Err _ => None end
      | _ => fun _ => None
      end r
  | _ => None
  end.

(** What [decomp_func.getC()] answered. *)
Definition code_given (e : event) : option string :=
  match e with
  | Called c r =>
      match c in call X return outcome X -> option string with
      | getC _ => fun r => match r with Ok code => Some code | Err _ => None end
      | _ => fun _ => None
      end r
  | _ => None
  end.

(** The decompiler reported completion, yielded a decompiled function,
    and that function gave [code]. *)
Definition completed_with (tr : list event) (code : string) : Prop :=
  In true (pick completion tr)
  /\ (exists f, In (Some f) (pick function_given tr))
  /\ In code (pick code_given tr).

(** *** Reading the trace of [parse_il2cpp_header] *)

(** What the primary [parser.parse(header_content)] answered. *)
Definition parse_answer (e : event) : option (option obj) :=
  match e with
  | Called c r =>
      match c in call X return outcome X -> option (option obj) with
      | CParser_parse _ _ => fun r => match r with Ok o => Some o | Err _ => None end
      | _ => fun _ => None
      end r
  | _ => None
  end.

(** The primary parse raised. *)
Definition parse_fault (e : event) : option exn :=
  match e with
  | Called c (Err x) =>
      match c with
      | CParser_parse _ _ => Some x
      | _ => None
      end
  | _ => None
  end.

(** Counting the data types raised: in [dtm.getAllDataTypes()] or while
    iterating. *)
Definition count_fault (e : event) : option exn :=
  match e with
  | Called c r =>
      match c in call X return outcome X -> option exn with
      | getAllDataTypes _ =>
          fun r => match r with Ok it => fault it | Err x => Some x end
      | _ => fun _ => None
      end r
  | _ => None
  end.

(** A step of the alternative method, and whether it returned. *)
Definition alternative_step (e : event) : option bool :=
  match e with
  | Called c r =>
      match c with
      | import_from _ _ | MessageLog_new | ConsoleTaskMonitor_new
      | parseHeaderFiles _ _ _ _ _ | hasMessages _ | toString _ =>
          Some (match r with Ok _ => true | Err _ => false end)
      | _ => None
      end
  | _ => None
  end.

(** The alternative method ran to its end: the three imports, the log,
    the monitor, [parseHeaderFiles], [hasMessages] (and [toString] when
    there are messages) all returned. *)
Definition alternative_completed (tr : list event) : Prop :=
  (7 <= List.length (pick alternative_step tr))%nat
  /\ forallb (fun ok => ok) (pick alternative_step tr) = true.

(** A call into the host's objects. *)
Definition called (e : event) : bool :=
  match e with
  | Called _ _ => true
  | _ => false
  end.

(** *** Reading the trace of [apply_il2cpp_symbols] *)

(** What [json.load] answered. *)
Definition loaded (e : event) : option json :=
  match e with
  | Called c r =>
      match c in call X return outcome X -> option json with
      | json_load _ => fun r => match r with Ok data => Some data | Err _ => None end
      | _ => fun _ => None
      end r
  | _ => None
  end.

(** Opening or reading [script.json] raised. *)
Definition load_fault (e : event) : option exn :=
  match e with
  | Called c (Err x) =>
      match c with
      | codecs_open _ _ _ | json_load _ | file_close _ => Some x
      | _ => None
      end
  | _ => None
  end.

(** The line the outer handler prints. *)
Definition fault_reported (e : event) : option string :=
  match e with
  | Console line =>
      if String.prefix "Error loading script.json: " line then Some line else None
  | _ => None
  end.

(** The name a label gets: every ["$$"] replaced by ["__"], every ["<"],
    [">"] and [","] by ["_"]. *)
Definition clean (name : string) : string :=
  PyStr.replace "," "_"
    (PyStr.replace ">" "_" (PyStr.replace "<" "_" (PyStr.replace "$$" "__" name))).

(** The entries of [data["ScriptMethod"]]. *)
Definition methods_of (data : json) : list json :=
  match PyVal.contains "ScriptMethod" data with
  | Ok true =>
      match PyVal.getitem data "ScriptMethod" with
      | Ok listed =>
          match PyVal.iterate listed with
          | Ok methods => methods
          | Err _ => []
          end
      | Err _ => []
      end
  | _ => []
  end.

(** The label [label] at offset [offset] is called for: some entry of
    [ScriptMethod] has a truthy [Address] and a truthy [Name], the name
    matches a target name directly or with every ["."] replaced by ["$$"],
    [offset] is [image_base + Address] and [label] the cleaned name. *)
Definition wanted (d : dict) (image_base : Z) (data : json) (offset : Z) (label : string)
  : Prop :=
  exists method addr name target,
    In method (methods_of data)
    /\ PyVal.get method "Address" = Ok addr
    /\ PyVal.get method "Name" = Ok (JStr name)
    /\ PyVal.truthy addr = true
    /\ PyStr.truthy name = true
    /\ In target (map snd d)
    /\ (name = target \/ PyStr.replace "." "$$" name = target)
    /\ PyVal.add image_base addr = Ok offset
    /\ label = clean name.

(** A trace in which every [createLabel] request directly follows the
    answer to [getAddress] for an offset and a label that satisfy [P], on
    the address that answer gave; the number counts the requests that
    returned. *)
Inductive label_log (P : Z -> string -> Prop) : list event -> nat -> Prop :=
| log_end : label_log P [] 0
| log_other (e : event) (tr : list event) (n : nat) :
    labelled e = false -> label_log P tr n -> label_log P (e :: tr) n
| log_label (space addr symbols : obj) (offset : Z) (label : string)
    (r : outcome unit) (tr : list event) (n : nat) :
    P offset label -> label_log P tr n ->
    label_log P
      (Called (getAddress space offset) (Ok addr)
       :: Called (createLabel symbols addr label) r :: tr)
      (match r with Ok _ => S n | Err _ => n end).

(** ** Hosts to run the scripts against *)

(** A [script.json] with a name that matches as it is, one that matches
    once its dots are replaced, and one that matches nothing. *)
Definition sample_json : json :=
  JDict
    [ ("ScriptMethod",
       JList
         [ JDict [ ("Address", JInt 0xC51270);
                   ("Name", JStr "MapRouteSearcher$$Search");
                   ("Signature", JStr "void MapRouteSearcher__Search ();") ];
           JDict [ ("Address", JInt 0x3104C0); ("Name", JStr "MapModel.GetMapName") ];
           JDict [ ("Address", JInt 0x685930);
                   ("Name", JStr "AbilityContentListController$$SetDescriptionText") ];
           JDict [ ("Address", JInt 0x1000); ("Name", JStr "Player$$Update") ] ]) ].

(** A host on which every call returns. *)
Definition calm_answer {X : Type} (c : call X) : outcome X :=
  match c in call X return outcome X with
  | getCurrentProgram => Ok (Some (Obj 1))
  | getFunctionAt _ => Ok (Some (Obj 6))
  | createFunction _ _ => Ok (Some (Obj 6))
  | getName _ => Ok "GameAssembly.dll"
  | getImageBase _ => Ok (Obj 2)
  | getOffset _ => Ok 0x180000000
  | getDataTypeManager _ => Ok (Obj 3)
  | getSymbolTable _ => Ok (Obj 4)
  | getAddressFactory _ => Ok (Obj 5)
  | getDefaultAddressSpace _ => Ok (Obj 7)
  | getAddress _ _ => Ok (Obj 8)
  | createLabel _ _ _ => Ok tt
  | CParser_new _ => Ok (Obj 9)
  | CParser_parse _ _ => Ok (Some (Obj 3))
  | getAllDataTypes _ => Ok {| yielded := 3; fault := None |}
  | import_from _ _ => Ok tt
  | MessageLog_new => Ok (Obj 10)
  | ConsoleTaskMonitor_new => Ok (Obj 11)
  | parseHeaderFiles _ _ _ _ _ => Ok tt
  | hasMessages _ => Ok false
  | toString _ => Ok EmptyString
  | DecompInterface_new => Ok (Obj 12)
  | openProgram _ _ => Ok true
  | decompileFunction _ _ _ _ => Ok (Obj 13)
  | decompileCompleted _ => Ok true
  | getDecompiledFunction _ => Ok (Some (Obj 14))
  | getC _ => Ok "void f(void) {}"
  | getErrorMessage _ => Ok None
  | dispose _ => Ok tt
  | open_ _ _ => Ok (Obj 15)
  | codecs_open _ mode _ => Ok (if String.eqb mode "w" then Obj 17 else Obj 16)
  | file_read _ => Ok "struct Il2CppObject;"
  | file_write _ _ => Ok tt
  | file_close _ => Ok tt
  | json_load _ => Ok sample_json
  end.

(** The calm host with some answers replaced. *)
Definition patched (patch : forall X : Type, call X -> option (outcome X)) : runtime :=
  {| world := unit;
     respond := fun X c w =>
       (match patch X c with Some r => r | None => calm_answer c end, w);
     file_exists := fun _ _ => true |}.

Definition calm : runtime := patched (fun _ _ => None).

(** No program is loaded. *)
Definition unloaded : runtime :=
  patched (fun X c =>
    match c in call X return option (outcome X) with
    | getCurrentProgram => Some (Ok None)
    | _ => None
    end).

(** The program was closed: its address factory cannot be had. *)
Definition closed : runtime :=
  patched (fun X c =>
    match c in call X return option (outcome X) with
    | getAddressFactory _ => Some (Err (HostError "program is closed"))
    | _ => None
    end).

(** The header parses, but the data types cannot be listed, and the
    alternative method is not there to import. *)
Definition unlisted : runtime :=
  patched (fun X c =>
    match c in call X return option (outcome X) with
    | getAllDataTypes _ => Some (Err (HostError "database is locked"))
    | import_from _ _ => Some (Err (HostError "cannot import name"))
    | _ => None
    end).

(** [script.json] holds a matching entry followed by a stray number. *)
Definition stray : runtime :=
  patched (fun X c =>
    match c in call X return option (outcome X) with
    | json_load _ =>
        Some (Ok (JDict
          [ ("ScriptMethod",
             JList [ JDict [ ("Address", JInt 0xC51270);
                             ("Name", JStr "MapRouteSearcher$$Search") ];
                     JInt 5 ]) ]))
    | _ => None
    end).

(** The disk fills up: closing the output file opened through [codecs]
    raises. *)
Definition full_disk : runtime :=
  patched (fun X c =>
    match c in call X return option (outcome X) with
    | file_close (Obj 17) => Some (Err (HostError "No space left on device"))
    | _ => None
    end).

(** How often [decompile_function_at_address] was called for [entry]. *)
Definition calls_for (entry : Z * string) (tr : list event) : nat :=
  List.length (filter (entry_eqb entry) (pick entered tr)).

(** A host call made to place one label. *)
Definition label_event (e : event) : bool :=
  match e with
  | Called c _ =>
      match c with
      | getDefaultAddressSpace _ | getAddress _ _ | createLabel _ _ _ => true
      | _ => false
      end
  | _ => false
  end.

(** Along [tr] the text is never written again unless a host call has
    raised since it was last written.  [armed] says that it has been
    written and that no call has raised since. *)
Fixpoint writes_guarded (armed : bool) (tr : list event) : bool :=
  match tr with
  | [] => true
  | e :: tr' =>
      match written e with
      | Some _ => negb armed && writes_guarded (negb (raised e)) tr'
      | None => writes_guarded (armed && negb (raised e)) tr'
      end
  end.

(** No element of [l] occurs twice. *)
Fixpoint all_distinct {B : Type} (eqb : B -> B -> bool) (l : list B) : bool :=
  match l with
  | [] => true
  | x :: l' => negb (existsb (eqb x) l') && all_distinct eqb l'
  end.

(** ** Watching a run *)

(** A monitor reads a trace event by event, from a state of its own. *)
Definition watch {St : Type} (next : St -> event -> St) (st : St) (tr : list event) : St :=
  fold_left next tr st.

(** [obeys next post st p]: whatever the host answers, a run of [p] that
    the monitor [next] meets in state [st] ends with an outcome and in a
    monitor state that [post] accepts. *)
Fixpoint obeys {St A : Type} (next : St -> event -> St) (post : St -> outcome A -> Prop)
    (st : St) (p : prog A) : Prop :=
  match p with
  | Ret a => post st (Ok a)
  | Raise e => post st (Err e)
  | @Host _ X c k => forall r : outcome X, obeys next post (next st (Called c r)) (k r)
  | PathExists path k => forall b, obeys next post (next st (Exists_ path b)) (k b)
  | Log e k => obeys next post (next st e) k
  | Items k => forall d, obeys next post st (k d)
  | Update _ k => obeys next post st k
  end.

(** *** Files *)

Definition obj_eqb (a b : obj) : bool :=
  match a, b with
  | Obj i, Obj j => Nat.eqb i j
  end.

(** What the script holds of the file system: the file that is open, if
    any; [Misused] once it has opened a second file over an open one, or
    has read, written or closed a file other than the open one. *)
Inductive handles : Type :=
| Holding (f : option obj)
| Misused.

(** An operation on the file [f] while the script is in state [st]. *)
Definition on_open_file (st : handles) (f : obj) (after : handles) : handles :=
  match st with
  | Holding (Some g) => if obj_eqb f g then after else Misused
  | _ => Misused
  end.

Definition opening (st : handles) (r : outcome obj) : handles :=
  match st with
  | Holding None => Holding (match r with Ok f => Some f | Err _ => None end)
  | _ => Misused
  end.

(** A call of [close] counts whatever its outcome. *)
Definition file_step (st : handles) (e : event) : handles :=
  match e with
  | Called c r =>
      match c in call X return outcome X -> handles with
      | open_ _ _ => fun r => opening st r
      | codecs_open _ _ _ => fun r => opening st r
      | file_read f => fun _ => on_open_file st f st
      | file_write f _ => fun _ => on_open_file st f st
      | json_load f => fun _ => on_open_file st f st
      | file_close f => fun _ => on_open_file st f (Holding None)
      | _ => fun _ => st
      end r
  | _ => st
  end.

(** An event that is no file operation. *)
Definition off_files (e : event) : bool :=
  match e with
  | Called c _ =>
      match c with
      | open_ _ _ | codecs_open _ _ _ | file_read _ | file_write _ _ | json_load _
      | file_close _ => false
      | _ => true
      end
  | _ => true
  end.

(** No file is open. *)
Definition files_closed {A : Type} (st : handles) (_ : outcome A) : Prop :=
  st = Holding None.

(** *** How a run ends *)

(** An exception raised by one of the host calls that [run] and
    [decompile_function_at_address] make outside every [try]. *)
Definition unguarded_fault (e : event) : option exn :=
  match e with
  | Called c (Err x) =>
      match c with
      | getCurrentProgram | getImageBase _ | getOffset _ | getName _
      | DecompInterface_new | openProgram _ _ | getAddressFactory _ | dispose _ => Some x
      | _ => None
      end
  | _ => None
  end.

(** A call of [decompiler.dispose()]. *)
Definition disposing (e : event) : bool :=
  match e with
  | Called c _ =>
      match c with
      | dispose _ => true
      | _ => false
      end
  | _ => false
  end.

(** An event of the end of [run]: the output file is opened or written,
    or the decompiler is disposed of. *)
Definition closing (e : event) : bool :=
  match opened_for_writing e, written e with
  | None, None => disposing e
  | _, _ => true
  end.

(** The answer [None] to [getCurrentProgram()]. *)
Definition no_program (e : event) : bool :=
  match e with
  | Called c r =>
      match c in call X return outcome X -> bool with
      | getCurrentProgram =>
          fun r => match r with Ok None => true | _ => false end
      | _ => fun _ => false
      end r
  | _ => false
  end.

(** What is kept of a trace to tell how the run ended: the last event
    that reached the host, and whether a closing event has occurred. *)
Record ending : Type := { last_call : option event; closing_seen : bool }.

Definition ending_step (st : ending) (e : event) : ending :=
  {| last_call := if reaches_host e then Some e else last_call st;
     closing_seen := closing e || closing_seen st |}.

Definition nothing_yet : ending := {| last_call := None; closing_seen := false |}.

(** The last event of [tr] that reached the host. *)
Definition last_host_call (tr : list event) : option event :=
  last_call (watch ending_step nothing_yet tr).

Definition on_last {B : Type} (f : event -> B) (default : B) (st : ending) : B :=
  match last_call st with
  | Some e => f e
  | None => default
  end.

(** How [run] may end: with the exception of an unguarded call, which is
    then the last call made, and which is [dispose] if a closing event has
    occurred; or normally, the last call being the answer [None] to
    [getCurrentProgram()] or a [dispose] that returned. *)
Definition run_ends (st : ending) (v : outcome unit) : Prop :=
  match v with
  | Err e =>
      on_last unguarded_fault None st = Some e
      /\ (closing_seen st = true -> on_last disposing false st = true)
  | Ok _ =>
      on_last no_program false st = true
      \/ (on_last disposing false st = true /\ on_last raised false st = false)
  end.

(** How a part of [run] before the output is written may end: no closing
    event has occurred, and an exception is that of the last call made,
    an unguarded one. *)
Definition part_ends {A : Type} (st : ending) (v : outcome A) : Prop :=
  closing_seen st = false
  /\ match v with
     | Err e => on_last unguarded_fault None st = Some e
     | Ok _ => True
     end.

(** An event that is no closing event. *)
Definition before_closing (e : event) : bool := negb (closing e).

(** *** What [decompile_function_at_address] asks of the host *)

(** The address [getAddress] gave. *)
Definition address_given (e : event) : option obj :=
  match e with
  | Called c r =>
      match c in call X return outcome X -> option obj with
      | getAddress _ _ => fun r => match r with Ok a => Some a | Err _ => None end
      | _ => fun _ => None
      end r
  | _ => None
  end.

(** The address a function was looked for at. *)
Definition function_sought (e : event) : option obj :=
  match e with
  | Called c _ =>
      match c with
      | getFunctionAt addr => Some addr
      | _ => None
      end
  | _ => None
  end.

(** What [getFunctionAt] answered. *)
Definition function_found (e : event) : option (option obj) :=
  match e with
  | Called c r =>
      match c in call X return outcome X -> option (option obj) with
      | getFunctionAt _ => fun r => match r with Ok f => Some f | Err _ => None end
      | _ => fun _ => None
      end r
  | _ => None
  end.

(** A request to create a function: the address and the name. *)
Definition creation_asked (e : event) : option (obj * string) :=
  match e with
  | Called c _ =>
      match c with
      | createFunction addr name => Some (addr, name)
      | _ => None
      end
  | _ => None
  end.

(** What [createFunction] answered. *)
Definition function_made (e : event) : option (option obj) :=
  match e with
  | Called c r =>
      match c in call X return outcome X -> option (option obj) with
      | createFunction _ _ => fun r => match r with Ok f => Some f | Err _ => None end
      | _ => fun _ => None
      end r
  | _ => None
  end.

(** A request to decompile: the decompiler, the function and the timeout. *)
Definition decompilation_asked (e : event) : option (obj * obj * Z) :=
  match e with
  | Called c _ =>
      match c with
      | decompileFunction decompiler func timeout _ => Some (decompiler, func, timeout)
      | _ => None
      end
  | _ => None
  end.




(** *** Where and how often decompilation is requested *)

(** An exception raised by one of the four calls that come before
    [getAddress] in [decompile_function_at_address]. *)
Definition before_address_fault (e : event) : option exn :=
  match e with
  | Called c (Err x) =>
      match c with
      | getAddressFactory _ | getImageBase _ | getOffset _ | getDefaultAddressSpace _ => Some x
      | _ => None
      end
  | _ => None
  end.

(** An event that excuses a call from requesting a decompilation: a host
    call raised, or [createFunction] answered [None]. *)
Definition excusing (e : event) : bool :=
  raised e
  || match function_made e with
     | Some None => true
     | _ => false
     end.

(** How far a call of [decompile_function_at_address] has come. *)
Inductive request_state : Type :=
| Outside                                             (* no call is running *)
| Entered (dec : obj) (rva : Z) (name : string)       (* called for an entry *)
| Based (dec : obj) (rva : Z) (name : string) (image_base : Z)
                                                      (* the image base is known *)
| Addressed (dec : obj) (name : string) (addr : option obj)
                                    (* the address at image base + RVA was asked for *)
| Missing (dec : obj) (name : string) (addr : obj)   (* no function is there *)
| Ready (dec : obj) (func : obj)                      (* a function is there *)
| Finished                     (* the request is made, or will not be made *)
| Broken.                                             (* out of step *)

(** One event of a run.  Outside a call the monitor lets everything pass
    but a search for, a creation of or a decompilation of a function;
    inside a call it follows the steps in their order: the image base is
    answered, the address is asked for at the image base plus the RVA,
    the function is looked for at the address that was given, it is
    created only if none was found, at that address and under the
    entry's name with every ["$$"] replaced by ["_"], and one
    decompilation is requested, of the function found or created, by the
    decompiler of the call, with a timeout of 120. *)
Definition request_step (st : request_state) (e : event) : request_state :=
  match e with
  | Enter (decompile_function_at_address_ dec _ rva name) =>
      match st with
      | Outside => Entered dec rva name
      | _ => Broken
      end
  | Leave (decompile_function_at_address_ _ _ _ _) _ =>
      match st with
      | Outside | Broken => Broken
      | _ => Outside
      end
  | Called c r =>
      match c in call X return outcome X -> request_state with
      | getOffset _ =>
          fun r =>
            match st, r with
            | Entered dec rva name, Ok image_base => Based dec rva name image_base
            | _, _ => st
            end
      | getAddress _ offset =>
          fun r =>
            match st with
            | Outside => Outside
            | Based dec rva name image_base =>
                if offset =? image_base + rva
                then Addressed dec name (match r with Ok a => Some a | Err _ => None end)
                else Broken
            | _ => Broken
            end
      | getFunctionAt addr =>
          fun r =>
            match st with
            | Addressed dec name (Some given) =>
                if obj_eqb addr given
                then match r with
                     | Ok (Some func) => Ready dec func
                     | Ok None => Missing dec name given
                     | Err _ => Finished
                     end
                else Broken
            | _ => Broken
            end
      | createFunction addr label =>
          fun r =>
            match st with
            | Missing dec name given =>
                if obj_eqb addr given && String.eqb label (PyStr.replace "$$" "_" name)
                then match r with
                     | Ok (Some func) => Ready dec func
                     | _ => Finished
                     end
                else Broken
            | _ => Broken
            end
      | decompileFunction decompiler func timeout _ =>
          fun _ =>
            match st with
            | Ready dec found =>
                if obj_eqb decompiler dec && obj_eqb func found && (timeout =? 120)
                then Finished
                else Broken
            | _ => Broken
            end
      | _ => fun _ => st
      end r
  | _ => st
  end.

(** An event a part of [run] other than the loop may produce: neither a
    call or return of [decompile_function_at_address] nor a search for, a
    creation of or a decompilation of a function. *)
Definition off_requests (e : event) : bool :=
  match e with
  | Enter (decompile_function_at_address_ _ _ _ _)
  | Leave (decompile_function_at_address_ _ _ _ _) _ => false
  | Called c _ =>
      match c with
      | getFunctionAt _ | createFunction _ _ | decompileFunction _ _ _ _ => false
      | _ => true
      end
  | _ => true
  end.

(** What is kept of a trace to count: the calls of
    [decompile_function_at_address], the decompilations requested, and
    whether an excusing event has occurred. *)
Record counting : Type := { calls : nat; requests : nat; excused : bool }.

Definition uncounted : counting := {| calls := O; requests := O; excused := false |}.

Definition counts_call (e : event) : bool :=
  match entered e with
  | Some _ => true
  | None => false
  end.

Definition counts_request (e : event) : bool :=
  match e with
  | Called c _ =>
      match c with
      | decompileFunction _ _ _ _ => true
      | _ => false
      end
  | _ => false
  end.

Definition count_step (st : counting) (e : event) : counting :=
  {| calls := if counts_call e then S (calls st) else calls st;
     requests := if counts_request e then S (requests st) else requests st;
     excused := excusing e || excused st |}.

(** No more requests than calls; as many, unless an excusing event has
    occurred. *)
Definition counted (st : counting) : Prop :=
  (requests st <= calls st)%nat /\ (excused st = false -> requests st = calls st).

(** *** Where a run stops *)

(** Whether a call of [decompile_function_at_address] has been left by an
    exception, and whether anything was seen after that. *)
Inductive stop_state : Type :=
| Going                       (* no call has raised *)
| Stopped (e : exn)           (* a call raised [e], and nothing has followed *)
| Went_on.                    (* something followed a call that raised *)

Definition stop_step (st : stop_state) (ev : event) : stop_state :=
  match st with
  | Going =>
      match ev with
      | Leave (decompile_function_at_address_ _ _ _ _) (Ret_raise e) => Stopped e
      | _ => Going
      end
  | _ => Went_on
  end.

(** Nothing follows a call that raised, and its exception is how the
    program ends. *)
Definition stops_there {A : Type} (st : stop_state) (o : outcome A) : Prop :=
  match st with
  | Going => True
  | Stopped e => o = Err e
  | Went_on => False
  end.

(** The same for a single call: it is left by an exception exactly when
    it raises. *)
Definition stops_if_raised {A : Type} (st : stop_state) (o : outcome A) : Prop :=
  match o with
  | Ok _ => st = Going
  | Err e => st = Stopped e
  end.

(** *** Writing the output, as the console tells it *)

(** A request to open a file: the path, the mode, and the encoding when it
    goes through [codecs]. *)
Definition open_request (e : event) : option (string * string * option string) :=
  match e with
  | Called c _ =>
      match c with
      | open_ path mode => Some (path, mode, None)
      | codecs_open path mode encoding => Some (path, mode, Some encoding)
      | _ => None
      end
  | _ => None
  end.

(** What [run] says of the output file in the end. *)
Inductive verdict : Type := Complete | Fallback | Failed.

Definition verdict_of (e : event) : option verdict :=
  match e with
  | Console line =>
      if String.prefix "Decompilation complete!" line then Some Complete
      else if String.prefix "Output written (fallback mode): " line then Some Fallback
      else if String.prefix "FALLBACK ALSO FAILED: " line then Some Failed
      else None
  | _ => None
  end.

(** A call of the built-in [open]. *)
Definition plain_open (e : event) : bool :=
  match e with
  | Called c _ =>
      match c with
      | open_ _ _ => true
      | _ => false
      end
  | _ => false
  end.

(** The events before the first call of the built-in [open], and the
    events from that call on. *)
Fixpoint first_attempt (tr : list event) : list event :=
  match tr with
  | [] => []
  | e :: tr' => if plain_open e then [] else e :: first_attempt tr'
  end.

Fixpoint second_attempt (tr : list event) : list event :=
  match tr with
  | [] => []
  | e :: tr' => if plain_open e then tr else second_attempt tr'
  end.

(** A call of [close] that returned. *)
Definition closed_well (e : event) : bool :=
  match e with
  | Called c r =>
      match c with
      | file_close _ => match r with Ok _ => true | Err _ => false end
      | _ => false
      end
  | _ => false
  end.


(** *** What [parse_il2cpp_header] hands to the parsers *)

(** The data type manager [program.getDataTypeManager()] gave. *)
Definition manager_given (e : event) : option obj :=
  match e with
  | Called c r =>
      match c in call X return outcome X -> option obj with
      | getDataTypeManager _ => fun r => match r with Ok m => Some m | Err _ => None end
      | _ => fun _ => None
      end r
  | _ => None
  end.

(** The data type manager a [CParser] was built on. *)
Definition parser_built_on (e : event) : option obj :=
  match e with
  | Called c _ =>
      match c with
      | CParser_new dtm => Some dtm
      | _ => None
      end
  | _ => None
  end.

(** The parser [CParser(dtm)] gave. *)
Definition parser_given (e : event) : option obj :=
  match e with
  | Called c r =>
      match c in call X return outcome X -> option obj with
      | CParser_new _ => fun r => match r with Ok p => Some p | Err _ => None end
      | _ => fun _ => None
      end r
  | _ => None
  end.

(** The text [f.read()] gave. *)
Definition text_read (e : event) : option string :=
  match e with
  | Called c r =>
      match c in call X return outcome X -> option string with
      | file_read _ => fun r => match r with Ok text => Some text | Err _ => None end
      | _ => fun _ => None
      end r
  | _ => None
  end.

(** A request to parse: the parser and the source text. *)
Definition parse_asked (e : event) : option (obj * string) :=
  match e with
  | Called c _ =>
      match c with
      | CParser_parse parser source => Some (parser, source)
      | _ => None
      end
  | _ => None
  end.

(** The log [MessageLog()] gave. *)
Definition log_given (e : event) : option obj :=
  match e with
  | Called c r =>
      match c in call X return outcome X -> option obj with
      | MessageLog_new => fun r => match r with Ok l => Some l | Err _ => None end
      | _ => fun _ => None
      end r
  | _ => None
  end.

(** The monitor [ConsoleTaskMonitor()] gave. *)
Definition monitor_given (e : event) : option obj :=
  match e with
  | Called c r =>
      match c in call X return outcome X -> option obj with
      | ConsoleTaskMonitor_new => fun r => match r with Ok m => Some m | Err _ => None end
      | _ => fun _ => None
      end r
  | _ => None
  end.

(** A request to [CParserUtils.parseHeaderFiles]. *)
Definition alternative_asked (e : event)
  : option (obj * list string * list string * obj * obj) :=
  match e with
  | Called c _ =>
      match c with
      | parseHeaderFiles dtm files includes log monitor =>
          Some (dtm, files, includes, log, monitor)
      | _ => None
      end
  | _ => None
  end.

(** *** The names of the labels *)

(** The name a label is created with. *)
Definition label_name (e : event) : option string :=
  match e with
  | Called c _ =>
      match c with
      | createLabel _ _ name => Some name
      | _ => None
      end
  | _ => None
  end.

(** [c in s] for a character [c]. *)
Fixpoint has_char (c : ascii) (s : string) : bool :=
  match s with
  | EmptyString => false
  | String a s' => Ascii.eqb a c || has_char c s'
  end.

(** A name with no ["$$"], ["<"], [">"] or [","] in it. *)
Definition plain (name : string) : bool :=
  negb (PyStr.contains "$$" name)
  && negb (PyStr.contains "<" name)
  && negb (PyStr.contains ">" name)
  && negb (PyStr.contains "," name).

(** An event that creates no label, or one with a plain name. *)
Definition plainly_labelled (e : event) : bool :=
  match label_name e with
  | Some name => plain name
  | None => true
  end.

(** *** A [script.json] of the expected shape *)

(** An entry of [ScriptMethod] as the dumper writes it: an object whose
    [Name], when it has one, is a string (or is falsy). *)
Definition well_formed_method (method : json) : bool :=
  match method with
  | JDict fields =>
      match PyVal.lookup "Name" fields with
      | Some (JStr _) | None => true
      | Some other => negb (PyVal.truthy other)
      end
  | _ => false
  end.

(** The whole file: an object whose [ScriptMethod], when it has one, is a
    list of such entries. *)
Definition well_formed (data : json) : bool :=
  match data with
  | JDict fields =>
      match PyVal.lookup "ScriptMethod" fields with
      | None => true
      | Some (JList methods) => forallb well_formed_method methods
      | Some _ => false
      end
  | _ => false
  end.

(** An exception raised while [script.json] is loaded or the program is
    asked for its symbol table, address factory and image base. *)
Definition setup_fault (e : event) : option exn :=
  match e with
  | Called c (Err x) =>
      match c with
      | codecs_open _ _ _ | json_load _ | file_close _
      | getSymbolTable _ | getAddressFactory _ | getImageBase _ | getOffset _ => Some x
      | _ => None
      end
  | _ => None
  end.

(** A label that was created: the request returned. *)
Definition label_created (e : event) : bool := labelled e && negb (raised e).

(** The line that reports the count. *)
Definition applied_line (n : Z) : event :=
  Console ("Applied " ++ PyStr.str_int n ++ " IL2CPP symbols")%string.

(** *** Reading a numeral back *)

(** The value of a digit character, [0]-[9] and [A]-[Z]. *)
Definition digit_value (c : ascii) : Z :=
  let k := Z.of_nat (nat_of_ascii c) in
  if k <? 58 then k - 48 else k - 55.

(** The number a string of digits denotes in base [base], read from the
    left, after the digits that gave [acc]. *)
Fixpoint digits_value (base : Z) (s : string) (acc : Z) : Z :=
  match s with
  | EmptyString => acc
  | String c s' => digits_value base s' (acc * base + digit_value c)
  end.

(** *** Which program and which decompiler the steps work on *)

(** What is kept of a trace to tell: the program [getCurrentProgram()]
    gave, the decompiler [DecompInterface()] gave, and whether every step
    so far has worked on them. *)
Record wiring : Type := {
  the_program : option obj;
  the_decompiler : option obj;
  wired : bool
}.

Definition unwired : wiring :=
  {| the_program := None; the_decompiler := None; wired := true |}.

Definition is_obj (known : option obj) (x : obj) : bool :=
  match known with
  | Some y => obj_eqb x y
  | None => false
  end.

Definition check (ok : bool) (st : wiring) : wiring :=
  if ok then st
  else {| the_program := the_program st; the_decompiler := the_decompiler st;
          wired := false |}.

(** The program and the decompiler are each obtained once. *)
Definition got_program (st : wiring) (r : outcome (option obj)) : wiring :=
  match r with
  | Ok (Some p) =>
      match the_program st with
      | None => {| the_program := Some p; the_decompiler := the_decompiler st;
                   wired := wired st |}
      | Some _ => check false st
      end
  | _ => st
  end.

Definition got_decompiler (st : wiring) (r : outcome obj) : wiring :=
  match r with
  | Ok dec =>
      match the_decompiler st with
      | None => {| the_program := the_program st; the_decompiler := Some dec;
                   wired := wired st |}
      | Some _ => check false st
      end
  | Err _ => st
  end.

Definition on_program (st : wiring) (p : obj) : wiring :=
  check (is_obj (the_program st) p) st.

Definition on_decompiler (st : wiring) (dec : obj) : wiring :=
  check (is_obj (the_decompiler st) dec) st.

Definition wiring_step (st : wiring) (e : event) : wiring :=
  match e with
  | Called c r =>
      match c in call X return outcome X -> wiring with
      | getCurrentProgram => fun r => got_program st r
      | DecompInterface_new => fun r => got_decompiler st r
      | getName p | getImageBase p | getDataTypeManager p | getSymbolTable p
      | getAddressFactory p => fun _ => on_program st p
      | openProgram dec p => fun _ => on_decompiler (on_program st p) dec
      | decompileFunction dec _ _ _ => fun _ => on_decompiler st dec
      | dispose dec => fun _ => on_decompiler st dec
      | _ => fun _ => st
      end r
  | Enter f | Leave f _ =>
      match f with
      | parse_il2cpp_header_ p | apply_il2cpp_symbols_ p => on_program st p
      | decompile_function_at_address_ dec p _ _ => on_decompiler (on_program st p) dec
      end
  | _ => st
  end.

(** A part of [run] leaves the wiring as it found it. *)
Definition keeps_wiring {A : Type} (st0 st : wiring) (_ : outcome A) : Prop := st = st0.

(** * Lemmas on the interpreter *)

(** From here on [++] is list concatenation unless marked otherwise. *)
Open Scope list_scope.

(** ** The string operations and the tables, on examples *)

Example replace_class_sep :
  PyStr.replace "$$" "__" "Map$$get_MapName" = "Map__get_MapName".
Proof. reflexivity. Qed.

Example replace_no_overlap : PyStr.replace "$$" "_" "a$$$b$$" = "a_$b_".
Proof. reflexivity. Qed.

Example format_X_rva : PyStr.format_X 0x685930 = "685930".
Proof. reflexivity. Qed.

Example format_X_letters : PyStr.format_X 0x180C4F3D0 = "180C4F3D0".
Proof. reflexivity. Qed.

Example format_X_zero : PyStr.format_X 0 = "0".
Proof. reflexivity. Qed.

Example format_X_negative : PyStr.format_X (-255) = "-FF".
Proof. reflexivity. Qed.

Example str_int_28 : PyStr.str_int 28 = "28".
Proof. reflexivity. Qed.

Example split_head_class :
  PyStr.split_head "$$" "External.Misc$$ShowMapTitle" = "External.Misc".
Proof. reflexivity. Qed.

Example dollar_sorts_before_letters :
  PyStr.le "Ability$$get_TypeId" "AbilityCommandContentData$$get_Id" = true.
Proof. reflexivity. Qed.

Example class_of_target : class_of "Ability$$get_AbilityLv" = "Ability".
Proof. reflexivity. Qed.

Example class_of_plain : class_of "main" = "Unknown".
Proof. reflexivity. Qed.

Example clean_generic :
  clean "List<int,string>$$Add" = "List_int_string___Add".
Proof. reflexivity. Qed.

Lemma all_distinct_NoDup {B : Type} (eqb : B -> B -> bool) (l : list B) :
  (forall a, eqb a a = true) -> all_distinct eqb l = true -> NoDup l.
Proof.
  intros Hrefl. induction l as [|x l IH]; cbn; intros H; constructor.
  - apply andb_prop in H as [H _]. intros Hin.
    assert (E : existsb (eqb x) l = true)
      by (apply existsb_exists; exists x; split; [exact Hin | apply Hrefl]).
    rewrite E in H. discriminate.
  - apply andb_prop in H as [_ H]. apply IH, H.
Qed.

(** Each dict literal has as many entries as it has lines: no key occurs
    twice.  No name occurs twice either, so that sorting by name leaves
    no ties. *)
Lemma target_functions_distinct (s : script) :
  NoDup (map fst (TARGET_FUNCTIONS_RVA s)) /\ NoDup (map snd (TARGET_FUNCTIONS_RVA s)).
Proof.
  split.
  - apply (all_distinct_NoDup Z.eqb); [apply Z.eqb_refl|]. destruct s; vm_compute; reflexivity.
  - apply (all_distinct_NoDup String.eqb); [apply String.eqb_refl|].
    destruct s; vm_compute; reflexivity.
Qed.

Example target_functions_count :
  List.length (TARGET_FUNCTIONS_RVA Magic) = 28%nat
  /\ List.length (TARGET_FUNCTIONS_RVA Pathfinding) = 17%nat.
Proof. split; reflexivity. Qed.

Section Interpreter.

Variable rt : runtime.

Lemma seen_then {A B : Type} (e : event) (r : run_of rt A)
    (k : A -> dict -> world rt -> run_of rt B) :
  seen e (then_ r k) = then_ (seen e r) k.
Proof.
  destruct r as [v tr tb hw]; unfold then_, seen; cbn. destruct v; reflexivity.
Qed.

Lemma seen_rescue {A : Type} (e : event) (r : run_of rt A)
    (h : exn -> dict -> world rt -> run_of rt A) :
  seen e (rescue r h) = rescue (seen e r) h.
Proof.
  destruct r as [v tr tb hw]; unfold rescue, seen; cbn. destruct v; reflexivity.
Qed.

Lemma exec_bind {A B : Type} (p : prog A) (k : A -> prog B) (d : dict) (w : world rt) :
  exec rt (bind p k) d w = then_ (exec rt p d w) (fun a d' w' => exec rt (k a) d' w').
Proof.
  revert d w.
  induction p as [a|e|X c h IH|path h IH|e q IH|h IH|f q IH]; intros d w; cbn.
  - destruct (exec rt (k a) d w); reflexivity.
  - reflexivity.
  - destruct (respond rt c w) as [r w']. rewrite IH. apply seen_then.
  - rewrite IH. apply seen_then.
  - rewrite IH. apply seen_then.
  - apply IH.
  - apply IH.
Qed.

Lemma exec_try {A : Type} (p : prog A) (h : exn -> prog A) (d : dict) (w : world rt) :
  exec rt (try_ p h) d w = rescue (exec rt p d w) (fun e d' w' => exec rt (h e) d' w').
Proof.
  revert d w.
  induction p as [a|e|X c k IH|path k IH|e q IH|k IH|f q IH]; intros d w; cbn.
  - reflexivity.
  - destruct (exec rt (h e) d w); reflexivity.
  - destruct (respond rt c w) as [r w']. rewrite IH. apply seen_rescue.
  - rewrite IH. apply seen_rescue.
  - rewrite IH. apply seen_rescue.
  - apply IH.
  - apply IH.
Qed.

(** A program that only reads the dict leaves it as it found it. *)
Lemma reads_only_table {A : Type} (p : prog A) (d : dict) (w : world rt) :
  reads_only p -> table (exec rt p d w) = d.
Proof.
  revert d w.
  induction p as [a|e|X c k IH|path k IH|e q IH|k IH|f q IH]; intros d w H; cbn in *.
  - reflexivity.
  - reflexivity.
  - destruct (respond rt c w) as [r w']. cbn. apply IH, H.
  - apply IH, H.
  - apply IH, H.
  - apply IH, H.
  - contradiction.
Qed.

Lemma reads_only_step {A : Type} (p p' : prog A) (d d' : dict) (w w' : world rt) :
  reads_only p -> step rt p d w = Some (p', d', w') -> reads_only p' /\ d' = d.
Proof.
  destruct p as [a|e|X c k|path k|e q|k|f q]; cbn; intros H E; try discriminate.
  - destruct (respond rt c w) as [r w'']. injection E as <- <- <-. auto.
  - injection E as <- <- <-. auto.
  - injection E as <- <- <-. auto.
  - injection E as <- <- <-. auto.
  - contradiction.
Qed.

Lemma reads_only_table_after {A : Type} (n : nat) (p : prog A) (d : dict) (w : world rt) :
  reads_only p -> table_after rt n p d w = d.
Proof.
  revert p d w.
  induction n as [|n IH]; intros p d w H; cbn.
  - reflexivity.
  - destruct (step rt p d w) as [[[p' d'] w']|] eqn:E.
    + destruct (reads_only_step _ _ _ H E) as [H' ->]. apply IH, H'.
    + reflexivity.
Qed.

Lemma never_raises_value {A : Type} (p : prog A) (d : dict) (w : world rt) :
  never_raises p -> exists a, value (exec rt p d w) = Ok a.
Proof.
  revert d w.
  induction p as [a|e|X c k IH|path k IH|e q IH|k IH|f q IH]; intros d w H; cbn in *.
  - eauto.
  - contradiction.
  - destruct (respond rt c w) as [r w']. cbn. apply IH, H.
  - apply IH, H.
  - apply IH, H.
  - apply IH, H.
  - apply IH, H.
Qed.

Lemma emits_only_trace (P : event -> bool) {A : Type} (p : prog A) (d : dict)
    (w : world rt) :
  emits_only P p -> Forall (fun e => P e = true) (trace (exec rt p d w)).
Proof.
  revert d w.
  induction p as [a|e|X c k IH|path k IH|e q IH|k IH|f q IH]; intros d w H; cbn in *.
  - constructor.
  - constructor.
  - destruct (respond rt c w) as [r w']. cbn. destruct H as [H1 H2].
    constructor; [apply H1 | apply IH, H2].
  - destruct H as [H1 H2]. constructor; [apply H1 | apply IH, H2].
  - destruct H as [H1 H2]. constructor; [apply H1 | apply IH, H2].
  - apply IH, H.
  - apply IH, H.
Qed.

End Interpreter.

(** ** How the shape properties compose *)

Lemma reads_only_bind {A B : Type} (p : prog A) (k : A -> prog B) :
  reads_only p -> (forall a, reads_only (k a)) -> reads_only (bind p k).
Proof.
  induction p as [a|e|X c h IH|path h IH|e q IH|h IH|f q IH]; cbn; intros H K; auto.
Qed.

Lemma reads_only_try {A : Type} (p : prog A) (h : exn -> prog A) :
  reads_only p -> (forall e, reads_only (h e)) -> reads_only (try_ p h).
Proof.
  induction p as [a|e|X c k IH|path k IH|e q IH|k IH|f q IH]; cbn; intros H K; auto.
Qed.

Lemma never_raises_bind {A B : Type} (p : prog A) (k : A -> prog B) :
  never_raises p -> (forall a, never_raises (k a)) -> never_raises (bind p k).
Proof.
  induction p as [a|e|X c h IH|path h IH|e q IH|h IH|f q IH]; cbn; intros H K; auto.
Qed.

(** A [try] whose handler ends with a value ends with a value, whatever
    its body does. *)
Lemma never_raises_try {A : Type} (p : prog A) (h : exn -> prog A) :
  (forall e, never_raises (h e)) -> never_raises (try_ p h).
Proof.
  induction p as [a|e|X c k IH|path k IH|e q IH|k IH|f q IH]; cbn; intros K; auto.
Qed.

Lemma emits_only_bind (P : event -> bool) {A B : Type} (p : prog A) (k : A -> prog B) :
  emits_only P p -> (forall a, emits_only P (k a)) -> emits_only P (bind p k).
Proof.
  induction p as [a|e|X c h IH|path h IH|e q IH|h IH|f q IH]; cbn; intros H K; auto.
  - destruct H; auto.
  - destruct H; auto.
  - destruct H; auto.
Qed.

Lemma emits_only_try (P : event -> bool) {A : Type} (p : prog A) (h : exn -> prog A) :
  emits_only P p -> (forall e, emits_only P (h e)) -> emits_only P (try_ p h).
Proof.
  induction p as [a|e|X c k IH|path k IH|e q IH|k IH|f q IH]; cbn; intros H K; auto.
  - destruct H; auto.
  - destruct H; auto.
  - destruct H; auto.
Qed.

(** ** The scripts never touch the dict *)

Ltac case_split :=
  match goal with
  | |- context [match ?x with _ => _ end] => destruct x
  end.

Lemma reads_only_eval {X : Type} (r : outcome X) : reads_only (eval r).
Proof. destruct r; exact I. Qed.

Ltac reads_only_walk known :=
  repeat first
    [ exact I | solve [known] | intro | split
    | apply reads_only_bind | apply reads_only_try | apply reads_only_eval
    | case_split | progress cbn ].

Lemma label_targets_reads_only st af ib addr name targets applied :
  reads_only (label_targets st af ib addr name targets applied).
Proof.
  revert applied. induction targets as [|[rva target] rest IH]; intros applied.
  - exact I.
  - cbn [label_targets]. reads_only_walk ltac:(apply IH).
Qed.

Lemma label_methods_reads_only st af ib methods applied :
  reads_only (label_methods st af ib methods applied).
Proof.
  revert applied. induction methods as [|method rest IH]; intros applied.
  - exact I.
  - cbn [label_methods].
    reads_only_walk ltac:(first [apply IH | apply label_targets_reads_only]).
Qed.

Lemma parse_il2cpp_header_reads_only program : reads_only (parse_il2cpp_header program).
Proof. unfold parse_il2cpp_header, count_data_types. reads_only_walk idtac. Qed.

Lemma apply_il2cpp_symbols_reads_only program : reads_only (apply_il2cpp_symbols program).
Proof.
  unfold apply_il2cpp_symbols.
  reads_only_walk ltac:(apply label_methods_reads_only).
Qed.

Lemma decompile_function_at_address_reads_only decompiler program rva name :
  reads_only (decompile_function_at_address decompiler program rva name).
Proof. unfold decompile_function_at_address. reads_only_walk idtac. Qed.

Lemma for_each_reads_only {S E : Type} (body : S -> E -> prog S) (l : list E) (s : S) :
  (forall s x, reads_only (body s x)) -> reads_only (for_each body l s).
Proof.
  intros H. revert s. induction l as [|x l IH]; intros s; cbn.
  - exact I.
  - apply reads_only_bind; auto.
Qed.

Lemma decompile_entry_reads_only decompiler program ib t rva name :
  reads_only (decompile_entry decompiler program ib t rva name).
Proof.
  unfold decompile_entry.
  reads_only_walk ltac:(apply decompile_function_at_address_reads_only).
Qed.

Lemma decompile_all_reads_only s decompiler program ib t :
  reads_only (decompile_all s decompiler program ib t).
Proof.
  unfold decompile_all. cbn. intros d. destruct s.
  - apply for_each_reads_only. intros. apply decompile_entry_reads_only.
  - apply for_each_reads_only. intros. apply decompile_entry_reads_only.
Qed.

Lemma write_output_reads_only s t : reads_only (write_output s t).
Proof. unfold write_output. reads_only_walk idtac. Qed.

Lemma run_reads_only s : reads_only (run s).
Proof.
  unfold run.
  reads_only_walk ltac:(first
    [ apply parse_il2cpp_header_reads_only | apply apply_il2cpp_symbols_reads_only
    | apply decompile_all_reads_only | apply write_output_reads_only ]).
Qed.

(** ** Sorting the entries *)

Section Sorting.

Variable le : Z * string -> Z * string -> bool.
Variable u : list (Z * string).
Hypothesis le_orders : orders le u = true.

Let R (a b : Z * string) : Prop := le a b = true.

Lemma entry_eqb_eq a b : entry_eqb a b = true -> a = b.
Proof.
  destruct a as [x n], b as [y m]; unfold entry_eqb; cbn.
  intros H. apply andb_prop in H as [H1 H2].
  apply Z.eqb_eq in H1. apply String.eqb_eq in H2. congruence.
Qed.

Lemma orders_facts a b :
  In a u -> In b u ->
  (le a b = true \/ le b a = true)
  /\ (le a b = true -> le b a = true -> a = b)
  /\ (forall c, In c u -> le a b = true -> le b c = true -> le a c = true).
Proof.
  intros Ha Hb. unfold orders in le_orders.
  rewrite forallb_forall in le_orders. specialize (le_orders _ Ha).
  rewrite forallb_forall in le_orders. specialize (le_orders _ Hb).
  apply andb_prop in le_orders as [H12 H3]. apply andb_prop in H12 as [H1 H2].
  repeat split.
  - apply orb_prop in H1. exact H1.
  - intros Hab Hba. rewrite Hab, Hba in H2. cbn in H2. apply entry_eqb_eq, H2.
  - intros c Hc Hab Hbc. rewrite forallb_forall in H3. specialize (H3 _ Hc).
    rewrite Hab, Hbc in H3. exact H3.
Qed.

Lemma insert_sorted_perm x l : Permutation (insert_sorted le x l) (x :: l).
Proof.
  induction l as [|y l IH]; cbn.
  - apply Permutation_refl.
  - destruct (le x y).
    + apply Permutation_refl.
    + eapply Permutation_trans; [apply perm_skip, IH | apply perm_swap].
Qed.

Lemma sorted_perm l : Permutation (sorted le l) l.
Proof.
  induction l as [|x l IH]; cbn.
  - constructor.
  - eapply Permutation_trans; [apply insert_sorted_perm | apply perm_skip, IH].
Qed.

Lemma insert_sorted_strongly x l :
  In x u -> incl l u -> StronglySorted R l -> StronglySorted R (insert_sorted le x l).
Proof.
  intros Hx Hl Hs. induction Hs as [|y l Hs IH Hy]; cbn.
  - repeat constructor.
  - assert (Hyu : In y u) by (apply Hl; left; reflexivity).
    assert (Hlu : incl l u) by (intros z Hz; apply Hl; right; exact Hz).
    destruct (le x y) eqn:E.
    + constructor; [constructor; assumption|].
      constructor; [exact E|].
      rewrite Forall_forall in Hy |- *. intros z Hz.
      destruct (orders_facts x y Hx Hyu) as (_ & _ & T). apply (T z); auto. apply Hy, Hz.
    + constructor; [apply IH, Hlu|].
      rewrite Forall_forall in Hy |- *. intros z Hz.
      apply (Permutation_in _ (insert_sorted_perm x l)) in Hz.
      destruct Hz as [<-|Hz]; [|apply Hy, Hz].
      destruct (orders_facts x y Hx Hyu) as ([F|F] & _); [congruence | exact F].
Qed.

Lemma sorted_strongly l : incl l u -> StronglySorted R (sorted le l).
Proof.
  induction l as [|x l IH]; intros Hl; cbn.
  - constructor.
  - apply insert_sorted_strongly.
    + apply Hl; left; reflexivity.
    + intros z Hz. apply (Permutation_in _ (sorted_perm l)) in Hz. apply Hl; right; exact Hz.
    + apply IH. intros z Hz. apply Hl; right; exact Hz.
Qed.

Lemma strongly_sorted_unique l1 l2 :
  incl l1 u -> Permutation l1 l2 ->
  StronglySorted R l1 -> StronglySorted R l2 -> l1 = l2.
Proof.
  intros Hu Hp H1. revert l2 Hp.
  induction H1 as [|x l1 H1 IH Hx]; intros l2 Hp H2.
  - apply Permutation_nil in Hp. congruence.
  - destruct H2 as [|y l2 H2 Hy].
    + apply Permutation_sym, Permutation_nil in Hp. discriminate.
    + assert (Hxu : In x u) by (apply Hu; left; reflexivity).
      assert (Hyu : In y u).
      { apply Hu. apply (Permutation_in _ (Permutation_sym Hp)). left; reflexivity. }
      assert (x = y) as <-.
      { assert (Hxy : x = y \/ R x y).
        { assert (In y (x :: l1)) as [->|Hin]
            by (apply (Permutation_in _ (Permutation_sym Hp)); left; reflexivity).
          - left; reflexivity.
          - right. rewrite Forall_forall in Hx. apply Hx, Hin. }
        assert (Hyx : x = y \/ R y x).
        { assert (In x (y :: l2)) as [->|Hin]
            by (apply (Permutation_in _ Hp); left; reflexivity).
          - left; reflexivity.
          - right. rewrite Forall_forall in Hy. apply Hy, Hin. }
        destruct Hxy as [E|Hxy]; [exact E|]. destruct Hyx as [E|Hyx]; [exact E|].
        destruct (orders_facts x y Hxu Hyu) as (_ & A & _). apply A; assumption. }
      f_equal. apply IH.
      * intros z Hz. apply Hu. right; exact Hz.
      * apply Permutation_cons_inv in Hp. exact Hp.
      * exact H2.
Qed.

(** The result of [sorted] does not depend on the order in which the dict
    hands out its items. *)
Lemma sorted_any_order d : Permutation d u -> sorted le d = sorted le u.
Proof.
  intros Hp.
  assert (Hd : incl d u) by (intros z Hz; apply (Permutation_in _ Hp), Hz).
  apply strongly_sorted_unique.
  - intros z Hz. apply Hd. apply (Permutation_in _ (sorted_perm d)), Hz.
  - eapply Permutation_trans; [apply sorted_perm|].
    eapply Permutation_trans; [exact Hp|]. apply Permutation_sym, sorted_perm.
  - apply sorted_strongly, Hd.
  - apply sorted_strongly. intros z Hz; exact Hz.
Qed.

End Sorting.

Lemma item_order_orders s : orders (item_order s) (TARGET_FUNCTIONS_RVA s) = true.
Proof. destruct s; vm_compute; reflexivity. Qed.

Lemma sorted_items s d :
  Permutation d (TARGET_FUNCTIONS_RVA s) -> sorted (item_order s) d = report_order s.
Proof. intros H. apply sorted_any_order; [apply item_order_orders | exact H]. Qed.

Lemma report_order_perm s : Permutation (report_order s) (TARGET_FUNCTIONS_RVA s).
Proof. apply sorted_perm. Qed.

(** ** Reading traces *)

Lemma pick_app {B : Type} (f : event -> option B) (t1 t2 : list event) :
  pick f (t1 ++ t2) = pick f t1 ++ pick f t2.
Proof.
  induction t1 as [|e t1 IH]; cbn; [reflexivity|].
  destruct (f e); cbn; rewrite IH; reflexivity.
Qed.

Lemma pick_none {B : Type} (f : event -> option B) (tr : list event) :
  Forall (fun e => f e = None) tr -> pick f tr = [].
Proof.
  induction 1 as [|e tr He _ IH]; cbn; [reflexivity|]. rewrite He. exact IH.
Qed.

Lemma pick_stage_at (n : nat) (tr : list event) :
  Forall (fun e => at_stage n e = true) tr -> Forall (fun k => k = n) (pick stage tr).
Proof.
  induction 1 as [|e tr He _ IH]; cbn; [constructor|].
  unfold at_stage in He. destruct (stage e) as [k|]; [|exact IH].
  constructor; [apply Nat.eqb_eq, He | exact IH].
Qed.

Lemma at_stage_stage (n k : nat) (e : event) :
  at_stage n e = true -> stage e = Some k -> k = n.
Proof. unfold at_stage. intros H E. rewrite E in H. apply Nat.eqb_eq, H. Qed.

Lemma written_stage e data : written e = Some data -> stage e = Some 4%nat.
Proof.
  destruct e as [X c r| | | | |]; try discriminate. destruct c; try discriminate.
  reflexivity.
Qed.

Lemma opened_for_writing_stage e path :
  opened_for_writing e = Some path -> stage e = Some 4%nat.
Proof.
  destruct e as [X c r| | | | |]; try discriminate. destruct c; try discriminate;
    cbn; destruct (String.eqb mode "w"); try discriminate; reflexivity.
Qed.

Lemma entered_stage e x : entered e = Some x -> stage e = Some 3%nat.
Proof.
  destruct e as [| | | |f|f r]; try discriminate. destruct f; try discriminate.
  reflexivity.
Qed.

Lemma returned_stage e x : returned e = Some x -> stage e = Some 3%nat.
Proof.
  destruct e as [| | | |f|f r]; try discriminate. destruct f; try discriminate.
  reflexivity.
Qed.

Lemma pick_other_stage {B : Type} (f : event -> option B) (k n : nat) (tr : list event) :
  (forall e x, f e = Some x -> stage e = Some k) ->
  n <> k -> Forall (fun e => at_stage n e = true) tr -> pick f tr = [].
Proof.
  intros Hf Hn H. apply pick_none. revert H. apply Forall_impl. intros e He.
  destruct (f e) as [x|] eqn:E; [|reflexivity].
  apply Hf in E. apply (at_stage_stage _ _ He) in E. congruence.
Qed.

(** ** A function as the observer sees it *)

Lemma exec_def (rt : runtime) {A : Type} (f : pycall) (ret : A -> pyret) (body : prog A)
    (d : dict) (w : world rt) :
  exec rt (def f ret body) d w =
  let r := exec rt body d w in
  {| value := value r;
     trace := Enter f :: trace r
              ++ [Leave f (match value r with Ok a => ret a | Err e => Ret_raise e end)];
     table := table r;
     hosted := hosted r |}.
Proof.
  unfold def. cbn. rewrite exec_try, exec_bind.
  destruct (exec rt body d w) as [v tr tb hw]. unfold rescue, then_, seen; cbn.
  destruct v; cbn; rewrite ?app_nil_r; reflexivity.
Qed.

(** ** Header parsing, symbol application and output writing always return *)

Lemma never_raises_body {A : Type} (p : prog A) (h : exn -> prog A) :
  never_raises p -> never_raises (try_ p h).
Proof.
  induction p as [a|e|X c k IH|path k IH|e q IH|k IH|f q IH]; cbn; intros H; auto.
  contradiction.
Qed.

Lemma never_raises_def {A : Type} (f : pycall) (ret : A -> pyret) (body : prog A) :
  never_raises body -> never_raises (def f ret body).
Proof.
  intros H. unfold def. cbn. apply never_raises_body.
  apply never_raises_bind; [exact H | intros a; exact I].
Qed.

Ltac never_raises_walk :=
  repeat first
    [ exact I | intro | split
    | apply never_raises_def | apply never_raises_try | apply never_raises_bind
    | case_split | progress cbn ].

Lemma parse_il2cpp_header_never_raises program : never_raises (parse_il2cpp_header program).
Proof. unfold parse_il2cpp_header. never_raises_walk. Qed.

Lemma apply_il2cpp_symbols_never_raises program : never_raises (apply_il2cpp_symbols program).
Proof. unfold apply_il2cpp_symbols. never_raises_walk. Qed.

Lemma write_output_never_raises s t : never_raises (write_output s t).
Proof. unfold write_output. never_raises_walk. Qed.

(** ** Which events each part of [run] can produce *)

Lemma emits_only_eval (P : event -> bool) {X : Type} (r : outcome X) :
  emits_only P (eval r).
Proof. destruct r; exact I. Qed.

Ltac emits_only_walk known :=
  repeat first
    [ exact I | reflexivity | solve [known] | intro | split
    | apply emits_only_bind | apply emits_only_try | apply emits_only_eval
    | case_split | progress cbn ].

Lemma parse_il2cpp_header_stage program :
  emits_only (at_stage 1) (parse_il2cpp_header program).
Proof. unfold parse_il2cpp_header, count_data_types. emits_only_walk idtac. Qed.

Lemma label_targets_stage st af ib addr name targets applied :
  emits_only (at_stage 2) (label_targets st af ib addr name targets applied).
Proof.
  revert applied. induction targets as [|[rva target] rest IH]; intros applied.
  - exact I.
  - cbn [label_targets]. emits_only_walk ltac:(apply IH).
Qed.

Lemma label_methods_stage st af ib methods applied :
  emits_only (at_stage 2) (label_methods st af ib methods applied).
Proof.
  revert applied. induction methods as [|method rest IH]; intros applied.
  - exact I.
  - cbn [label_methods].
    emits_only_walk ltac:(first [apply IH | apply label_targets_stage]).
Qed.

Lemma apply_il2cpp_symbols_stage program :
  emits_only (at_stage 2) (apply_il2cpp_symbols program).
Proof.
  unfold apply_il2cpp_symbols. emits_only_walk ltac:(apply label_methods_stage).
Qed.

Lemma decompile_function_at_address_stage decompiler program rva name :
  emits_only (at_stage 3) (decompile_function_at_address decompiler program rva name).
Proof. unfold decompile_function_at_address. emits_only_walk idtac. Qed.

Lemma decompile_entry_stage decompiler program ib t rva name :
  emits_only (at_stage 3) (decompile_entry decompiler program ib t rva name).
Proof.
  unfold decompile_entry.
  emits_only_walk ltac:(apply decompile_function_at_address_stage).
Qed.

Lemma entry_step_stage s decompiler program ib t entry :
  emits_only (at_stage 3) (entry_step s decompiler program ib t entry).
Proof. destruct s; apply decompile_entry_stage. Qed.

Lemma write_output_stage s t : emits_only (at_stage 4) (write_output s t).
Proof. unfold write_output. emits_only_walk idtac. Qed.

(** ** The decompilation loop *)

Arguments decompile_function_at_address : simpl never.
Arguments parse_il2cpp_header : simpl never.
Arguments apply_il2cpp_symbols : simpl never.
Arguments decompile_entry : simpl never.
Arguments decompile_all : simpl never.
Arguments write_output : simpl never.

Lemma inner_picks (tr : list event) :
  Forall (fun e => inner e = true) tr -> pick entered tr = [] /\ pick returned tr = [].
Proof.
  intros H. split; apply pick_none; revert H; apply Forall_impl;
    intros [| | | |f|f r]; cbn; intros E; try reflexivity; discriminate.
Qed.

(** A call of [decompile_function_at_address]: its call, what happens
    inside, and its return or the exception that leaves it. *)
Lemma decompile_function_at_address_run (rt : runtime) decompiler program rva name d w :
  let r := exec rt (decompile_function_at_address decompiler program rva name) d w in
  exists mid,
    trace r =
      Enter (decompile_function_at_address_ decompiler program rva name)
      :: mid
      ++ [Leave (decompile_function_at_address_ decompiler program rva name)
            (match value r with Ok out => ret_pair out | Err e => Ret_raise e end)]
    /\ Forall (fun e => inner e = true) mid.
Proof.
  unfold decompile_function_at_address. rewrite exec_def.
  match goal with |- context [exec rt ?b d w] => set (body := b) end.
  exists (trace (exec rt body d w)). split; [reflexivity|].
  apply emits_only_trace. unfold body. emits_only_walk idtac.
Qed.

Lemma decompile_entry_run (rt : runtime) decompiler program ib t rva name d w :
  let rf := exec rt (decompile_function_at_address decompiler program rva name) d w in
  let r := exec rt (decompile_entry decompiler program ib t rva name) d w in
  pick entered (trace r) = [(rva, name)]
  /\ match value rf with
     | Ok out =>
         pick returned (trace r) = [ret_pair out]
         /\ value r =
            Ok {| results := results t ++ block_header ib rva name ++ [block_body out];
                  success_count := success_count t + (if succeeded out then 1 else 0);
                  fail_count := fail_count t + (if succeeded out then 0 else 1);
                  current_class := current_class t |}
     | Err e => value r = Err e
     end.
Proof.
  cbn zeta. unfold decompile_entry. cbn. rewrite exec_bind.
  destruct (decompile_function_at_address_run rt decompiler program rva name d w)
    as (mid & Etr & Hmid).
  destruct (inner_picks Hmid) as [He Hr].
  destruct (exec rt (decompile_function_at_address decompiler program rva name) d w)
    as [v tr tb hw]. cbn in *. subst tr. unfold then_; cbn.
  destruct v as [[code error]|e]; cbn.
  - destruct code as [[|c code]|]; cbn; rewrite !pick_app, He, Hr; cbn;
      unfold append; rewrite <- ?app_assoc; cbn; rewrite ?Z.add_0_r;
      repeat split; reflexivity.
  - rewrite !pick_app, He. cbn. split; reflexivity.
Qed.

Lemma entry_step_run (s : script) (rt : runtime) decompiler program ib t entry d w prev :
  (s = Magic -> prev = current_class t) ->
  let rf := exec rt (decompile_function_at_address decompiler program
                       (fst entry) (snd entry)) d w in
  let r := exec rt (entry_step s decompiler program ib t entry) d w in
  pick entered (trace r) = [entry]
  /\ match value rf with
     | Ok out =>
         pick returned (trace r) = [ret_pair out]
         /\ exists t',
              value r = Ok t'
              /\ results t' =
                 results t ++ lead_in s prev (snd entry)
                 ++ block_header ib (fst entry) (snd entry) ++ [block_body out]
              /\ success_count t' = success_count t + (if succeeded out then 1 else 0)
              /\ fail_count t' = fail_count t + (if succeeded out then 0 else 1)
              /\ (s = Magic -> current_class t' = class_of (snd entry))
     | Err e => value r = Err e
     end.
Proof.
  intros Hprev. destruct entry as [rva name]. cbn zeta. cbn [fst snd].
  destruct s; cbn [entry_step]; unfold magic_entry, pathfinding_entry; cbn [fst snd].
  - specialize (Hprev eq_refl). subst prev.
    match goal with
    | |- context [decompile_entry decompiler program ib ?t' rva name] =>
        pose proof (decompile_entry_run rt decompiler program ib t' rva name d w) as H
    end.
    cbn zeta in H. destruct H as [H1 H2]. split; [exact H1|].
    destruct (value (exec rt (decompile_function_at_address decompiler program rva name) d w))
      as [out|e]; [|exact H2].
    destruct H2 as [H2 H3]. split; [exact H2|].
    eexists. split; [exact H3|]. cbn [results success_count fail_count current_class].
    unfold lead_in. destruct (String.eqb (class_of name) (current_class t)) eqn:E;
      cbn [results success_count fail_count current_class].
    + apply String.eqb_eq in E. repeat split; try reflexivity. intros _. symmetry; exact E.
    + unfold append, banner. rewrite <- !app_assoc. repeat split; reflexivity.
  - pose proof (decompile_entry_run rt decompiler program ib t rva name d w) as H.
    cbn zeta in H. destruct H as [H1 H2]. split; [exact H1|].
    destruct (value (exec rt (decompile_function_at_address decompiler program rva name) d w))
      as [out|e]; [|exact H2].
    destruct H2 as [H2 H3]. split; [exact H2|].
    eexists. split; [exact H3|]. cbn [results success_count fail_count current_class].
    repeat split; try reflexivity. discriminate.
Qed.

Lemma entry_step_reads_only s decompiler program ib t entry :
  reads_only (entry_step s decompiler program ib t entry).
Proof. destruct s; apply decompile_entry_reads_only. Qed.

Lemma successes_cons out outs :
  successes (out :: outs) = (if succeeded out then 1 else 0) + successes outs.
Proof. unfold successes. cbn. destruct (succeeded out); cbn [List.length]; lia. Qed.

Lemma failures_cons out outs :
  failures (out :: outs) = (if succeeded out then 0 else 1) + failures outs.
Proof. unfold failures. cbn. destruct (succeeded out); cbn [List.length negb]; lia. Qed.

Lemma successes_failures outs : successes outs + failures outs = Z.of_nat (List.length outs).
Proof.
  induction outs as [|out outs IH].
  - reflexivity.
  - rewrite successes_cons, failures_cons. cbn [List.length].
    destruct (succeeded out); lia.
Qed.

(** The loop, round by round. *)
Lemma for_each_run (s : script) (rt : runtime) decompiler program ib es :
  forall t0 prev d w,
    (s = Magic -> prev = current_class t0) ->
    let r := exec rt (for_each (entry_step s decompiler program ib) es t0) d w in
    (exists k, pick entered (trace r) = firstn k es)
    /\ forall t, value r = Ok t ->
         exists outs,
           List.length outs = List.length es
           /\ pick entered (trace r) = es
           /\ pick returned (trace r) = map ret_pair outs
           /\ results t = results t0 ++ List.concat (blocks s ib prev es outs)
           /\ success_count t = success_count t0 + successes outs
           /\ fail_count t = fail_count t0 + failures outs.
Proof.
  induction es as [|entry es IH]; intros t0 prev d w Hprev; cbn zeta.
  - cbn. split; [exists 0%nat; reflexivity|].
    intros t E. injection E as <-. exists []. cbn. rewrite app_nil_r.
    repeat split; try reflexivity; unfold successes, failures; cbn; lia.
  - cbn [for_each]. rewrite exec_bind.
    pose proof (@entry_step_run s rt decompiler program ib t0 entry d w prev Hprev) as H.
    cbn zeta in H. destruct H as [H1 H2].
    pose proof (@reads_only_table rt _ (entry_step s decompiler program ib t0 entry) d w
                  (entry_step_reads_only s decompiler program ib t0 entry)) as Htb.
    destruct (exec rt (entry_step s decompiler program ib t0 entry) d w) as [v tr tb hw].
    cbn in H1, H2, Htb. subst tb.
    destruct (value (exec rt (decompile_function_at_address decompiler program
                                (fst entry) (snd entry)) d w)) as [out|e].
    + destruct H2 as (H2 & t' & -> & Hres & Hsc & Hfc & Hcls).
      unfold then_, prepend; cbn [value trace table hosted].
      specialize (IH t' (class_of (snd entry)) d hw).
      assert (Hc : s = Magic -> class_of (snd entry) = current_class t')
        by (intros E; symmetry; apply Hcls, E).
      specialize (IH Hc). cbn zeta in IH. destruct IH as [[k Hk] IH].
      rewrite !pick_app, H1, H2. split.
      * exists (S k). cbn. rewrite Hk. reflexivity.
      * intros t E. destruct (IH t E) as (outs & Hlen & He & Hr & Hrs & Hs & Hf).
        exists (out :: outs). cbn [List.length map]. rewrite He, Hr.
        repeat split; try reflexivity.
        -- rewrite Hlen; reflexivity.
        -- rewrite Hrs, Hres. destruct entry as [rva name]. cbn [blocks List.concat fst snd].
           rewrite <- !app_assoc. reflexivity.
        -- rewrite Hs, Hsc, successes_cons. lia.
        -- rewrite Hf, Hfc, failures_cons. lia.
    + subst v. unfold then_, prepend; cbn [value trace table hosted]. split.
      * exists 1%nat. rewrite H1. cbn. destruct es; reflexivity.
      * intros t E. discriminate.
Qed.

Lemma decompile_all_run (s : script) (rt : runtime) decompiler program ib t0 d w :
  Permutation d (TARGET_FUNCTIONS_RVA s) ->
  let r := exec rt (decompile_all s decompiler program ib t0) d w in
  (exists k, pick entered (trace r) = firstn k (report_order s))
  /\ forall t, value r = Ok t ->
       exists outs,
         List.length outs = List.length (report_order s)
         /\ pick entered (trace r) = report_order s
         /\ pick returned (trace r) = map ret_pair outs
         /\ results t =
            results t0 ++ List.concat (blocks s ib (current_class t0) (report_order s) outs)
         /\ success_count t = success_count t0 + successes outs
         /\ fail_count t = fail_count t0 + failures outs.
Proof.
  intros Hd. cbn zeta. unfold decompile_all. cbn [bind items exec].
  assert (E : exec rt
                match s with
                | Magic =>
                    for_each (magic_entry decompiler program ib) (sorted by_name d) t0
                | Pathfinding =>
                    for_each (pathfinding_entry decompiler program ib) (sorted by_item d) t0
                end d w
              = exec rt (for_each (entry_step s decompiler program ib) (report_order s) t0) d w).
  { rewrite <- (sorted_items s Hd). destruct s; reflexivity. }
  rewrite E.
  apply (@for_each_run s rt decompiler program ib (report_order s) t0 (current_class t0) d w).
  reflexivity.
Qed.

Lemma decompile_all_stage s decompiler program ib t :
  emits_only (at_stage 3) (decompile_all s decompiler program ib t).
Proof.
  unfold decompile_all. cbn. intros d.
  assert (H : forall l t, emits_only (at_stage 3)
                (for_each (entry_step s decompiler program ib) l t)).
  { induction l as [|x l IH]; intros t'; cbn; [exact I|].
    apply emits_only_bind; [apply entry_step_stage | intros; apply IH]. }
  destruct s; apply H.
Qed.

(** ** Writing the output *)

Ltac answer :=
  match goal with
  | |- context [respond ?rt ?c ?w] => destruct (respond rt c w) as [[?|?] ?]
  end.

Lemma pick_cons_nil {B : Type} (f : event -> option B) (e : event) (tr : list event) :
  pick f (e :: tr) = [] -> f e = None /\ pick f tr = [].
Proof. cbn. destruct (f e); [discriminate | auto]. Qed.

Lemma writes_guarded_none (armed : bool) (tr : list event) :
  pick written tr = [] -> writes_guarded armed tr = true.
Proof.
  revert armed. induction tr as [|e tr IH]; intros armed H; [reflexivity|].
  apply pick_cons_nil in H as [He Htr]. cbn. rewrite He. apply IH, Htr.
Qed.

Lemma writes_guarded_quiet (t t' : list event) :
  pick written t = [] -> writes_guarded false (t ++ t') = writes_guarded false t'.
Proof.
  induction t as [|e t IH]; intros H; [reflexivity|].
  apply pick_cons_nil in H as [He Ht]. cbn. rewrite He. cbn. apply IH, Ht.
Qed.

Lemma writes_guarded_tail (armed : bool) (t t' : list event) :
  pick written t' = [] -> writes_guarded armed (t ++ t') = writes_guarded armed t.
Proof.
  intros H. revert armed. induction t as [|e t IH]; intros armed; cbn.
  - apply writes_guarded_none, H.
  - destruct (written e); rewrite IH; reflexivity.
Qed.

Lemma write_output_run (s : script) (rt : runtime) t d w :
  let r := exec rt (write_output s t) d w in
  value r = Ok tt
  /\ Forall (fun data => data = PyStr.join newline (results t)) (pick written (trace r))
  /\ (List.length (pick written (trace r)) <= 2)%nat
  /\ writes_guarded false (trace r) = true.
Proof.
  cbn zeta. unfold write_output. cbn.
  repeat (answer; cbn);
    (split; [reflexivity|]);
    (split; [repeat constructor|]);
    (split; [lia|]);
    reflexivity.
Qed.

(** ** The anatomy of a run *)

Lemma stage_picks (n : nat) (tr : list event) :
  Forall (fun e => at_stage n e = true) tr ->
  Forall (fun k => k = n) (pick stage tr)
  /\ (n <> 3%nat -> pick entered tr = [] /\ pick returned tr = [])
  /\ (n <> 4%nat -> pick written tr = [] /\ pick opened_for_writing tr = []).
Proof.
  intros H. split; [apply pick_stage_at, H|]. split; intros Hn; split.
  - apply (pick_other_stage entered entered_stage Hn H).
  - apply (pick_other_stage returned returned_stage Hn H).
  - apply (pick_other_stage written written_stage Hn H).
  - apply (pick_other_stage opened_for_writing opened_for_writing_stage Hn H).
Qed.

Lemma from_nil n : from n [].
Proof. split; constructor. Qed.

Lemma from_app (n m : nat) (l tail : list nat) :
  Forall (fun k => k = m) l -> (n <= m)%nat -> from m tail -> from n (l ++ tail).
Proof.
  intros Hl Hnm Ht.
  assert (H : from m (l ++ tail)).
  { induction Hl as [|k l -> _ [IH1 IH2]]; cbn; [exact Ht|].
    split; constructor; auto. }
  destruct H as [H1 H2]. split; [exact H1|].
  revert H2. apply Forall_impl. intros; lia.
Qed.

Lemma from_sorted (n : nat) (l : list nat) : from n l -> StronglySorted le l.
Proof. intros [H _]; exact H. Qed.

Lemma from_const (n m : nat) (l : list nat) :
  Forall (fun k => k = m) l -> (n <= m)%nat -> from n l.
Proof.
  intros Hl Hnm. rewrite <- (app_nil_r l). eapply from_app; eauto using from_nil.
Qed.

Ltac stages :=
  apply (@from_sorted 1%nat);
  repeat first
    [ apply from_nil
    | eapply from_const; [eassumption | lia]
    | eapply from_app; [eassumption | lia | ] ].

Ltac picks :=
  repeat (cbn; rewrite ?pick_app);
  repeat match goal with H : pick _ _ = _ |- _ => rewrite H end;
  cbn; rewrite ?app_nil_r.

Ltac cut_short :=
  subst; split; [picks; stages|];
  split; [exists 0%nat; picks; reflexivity|];
  left; split; [picks; reflexivity|]; split; [picks; reflexivity|]; discriminate.

Lemma run_anatomy (s : script) (rt : runtime) d w :
  Permutation d (TARGET_FUNCTIONS_RVA s) ->
  let r := exec rt (run s) d w in
  (fst (respond rt getCurrentProgram w) = Ok None
   /\ trace r = no_program_trace s
   /\ value r = Ok tt
   /\ hosted r = snd (respond rt getCurrentProgram w))
  \/
  (fst (respond rt getCurrentProgram w) <> Ok None
   /\ StronglySorted le (pick stage (trace r))
   /\ (exists k, pick entered (trace r) = firstn k (report_order s))
   /\ ((pick written (trace r) = []
        /\ pick opened_for_writing (trace r) = []
        /\ value r <> Ok tt)
       \/ exists name ib tp outs,
            List.length outs = List.length (report_order s)
            /\ pick entered (trace r) = report_order s
            /\ pick returned (trace r) = map ret_pair outs
            /\ hd_error (pick offset_answered (trace r)) = Some ib
            /\ Forall (fun data => data = PyStr.join newline (report s name ib tp outs))
                 (pick written (trace r))
            /\ (List.length (pick written (trace r)) <= 2)%nat
            /\ writes_guarded false (trace r) = true)).
Proof.
  intros Hd. cbn zeta. remember (exec rt (run s) d w) as r eqn:Er.
  unfold run in Er. cbn in Er.
  destruct (respond rt getCurrentProgram w) as [[[program|]|e] w0]; cbn in Er.
  2: { left. subst r. cbn. repeat split; reflexivity. }
  2: { right. split; [discriminate|]. cut_short. }
  right. split; [discriminate|].
  destruct (respond rt (getImageBase program) w0) as [[base|e] w1]; cbn in Er;
    [|cut_short].
  destruct (respond rt (getOffset base) w1) as [[ib|e] w2]; cbn in Er; [|cut_short].
  destruct (respond rt (getName program) w2) as [[name|e] w3]; cbn in Er; [|cut_short].
  (* Step 1 *)
  rewrite exec_bind in Er.
  destruct (never_raises_value rt (parse_il2cpp_header program) d w3
              (parse_il2cpp_header_never_raises program)) as [tp Hv1].
  pose proof (emits_only_trace rt (at_stage 1) (parse_il2cpp_header program) d w3
                (parse_il2cpp_header_stage program)) as Hs1.
  pose proof (@reads_only_table rt _ (parse_il2cpp_header program) d w3
                (parse_il2cpp_header_reads_only program)) as Ht1.
  destruct (exec rt (parse_il2cpp_header program) d w3) as [v1 tr1 tb1 hw1].
  cbn in Hv1, Hs1, Ht1. subst v1 tb1.
  apply stage_picks in Hs1. destruct Hs1 as (S1 & E1 & W1).
  destruct (E1 ltac:(discriminate)) as [E1a E1b].
  destruct (W1 ltac:(discriminate)) as [W1a W1b]. clear E1 W1.
  cbn in Er.
  rewrite exec_bind in Er.
  assert (Eif : forall A B : string,
            exec rt (if tp then print A else print B) d hw1
            = {| value := Ok tt; trace := [Console (if tp then A else B)];
                 table := d; hosted := hw1 |})
    by (intros; destruct tp; reflexivity).
  rewrite Eif in Er. clear Eif. cbn in Er.
  (* Step 2 *)
  rewrite exec_bind in Er.
  destruct (never_raises_value rt (apply_il2cpp_symbols program) d hw1
              (apply_il2cpp_symbols_never_raises program)) as [applied Hv2].
  pose proof (emits_only_trace rt (at_stage 2) (apply_il2cpp_symbols program) d hw1
                (apply_il2cpp_symbols_stage program)) as Hs2.
  pose proof (@reads_only_table rt _ (apply_il2cpp_symbols program) d hw1
                (apply_il2cpp_symbols_reads_only program)) as Ht2.
  destruct (exec rt (apply_il2cpp_symbols program) d hw1) as [v2 tr2 tb2 hw2].
  cbn in Hv2, Hs2, Ht2. subst v2 tb2.
  apply stage_picks in Hs2. destruct Hs2 as (S2 & E2 & W2).
  destruct (E2 ltac:(discriminate)) as [E2a E2b].
  destruct (W2 ltac:(discriminate)) as [W2a W2b]. clear E2 W2.
  cbn in Er.
  (* Step 3 *)
  destruct (respond rt DecompInterface_new hw2) as [[decompiler|e] w4]; cbn in Er;
    [|cut_short].
  destruct (respond rt (openProgram decompiler program) w4) as [[opened|e] w5];
    cbn in Er; [|cut_short].
  destruct (respond rt (getName program) w5) as [[name'|e] w6]; cbn in Er; [|cut_short].
  rewrite exec_bind in Er.
  pose proof (@decompile_all_run s rt decompiler program ib
                (initial_tally s name' ib tp) d w6 Hd) as H3.
  pose proof (emits_only_trace rt (at_stage 3)
                (decompile_all s decompiler program ib (initial_tally s name' ib tp)) d w6
                (decompile_all_stage s decompiler program ib _)) as Hs3.
  pose proof (@reads_only_table rt _
                (decompile_all s decompiler program ib (initial_tally s name' ib tp)) d w6
                (decompile_all_reads_only s decompiler program ib _)) as Ht3.
  destruct (exec rt (decompile_all s decompiler program ib (initial_tally s name' ib tp)) d w6)
    as [v3 tr3 tb3 hw3].
  cbn in H3, Hs3, Ht3. subst tb3. destruct H3 as [[k Hk] H3].
  apply stage_picks in Hs3. destruct Hs3 as (S3 & _ & W3).
  destruct (W3 ltac:(discriminate)) as [W3a W3b]. clear W3.
  destruct v3 as [t|e]; cbn in Er.
  2: { subst; split; [picks; stages|].
       split; [exists k; picks; reflexivity|].
       left; split; [picks; reflexivity|]; split; [picks; reflexivity|]; discriminate. }
  destruct (H3 t eq_refl) as (outs & Hlen & Hent & Hret & Hres & _). clear H3 Hk.
  (* Writing *)
  rewrite exec_bind in Er.
  pose proof (@write_output_run s rt t d hw3) as H4.
  pose proof (emits_only_trace rt (at_stage 4) (write_output s t) d hw3
                (write_output_stage s t)) as Hs4.
  pose proof (@reads_only_table rt _ (write_output s t) d hw3
                (write_output_reads_only s t)) as Ht4.
  destruct (exec rt (write_output s t) d hw3) as [v4 tr4 tb4 hw4].
  cbn in H4, Hs4, Ht4. subst tb4. destruct H4 as (-> & Hdata & Hcount & Hguard).
  apply stage_picks in Hs4. destruct Hs4 as (S4 & E4 & _).
  destruct (E4 ltac:(discriminate)) as [E4a E4b]. clear E4.
  cbn in Er.
  assert (Hreport : PyStr.join newline (results t)
                    = PyStr.join newline (report s name' ib tp outs)).
  { rewrite Hres. reflexivity. }
  rewrite Hreport in Hdata. clear Hreport Hres.
  assert (Hall : firstn (List.length (report_order s)) (report_order s) = report_order s)
    by apply firstn_all.
  destruct (respond rt (dispose decompiler) hw4) as [[[]|e] w7]; cbn in Er; subst r;
    (split; [picks; stages|]);
    (split; [exists (List.length (report_order s)); picks; symmetry; exact Hall|]);
    right; exists name', ib, tp, outs;
    (split; [exact Hlen|]);
    (split; [picks; reflexivity|]);
    (split; [picks; reflexivity|]);
    (split; [reflexivity|]);
    (split; [picks; assumption|]);
    (split; [picks; assumption|]);
    repeat (cbn; rewrite ?writes_guarded_quiet by assumption);
    rewrite writes_guarded_tail by reflexivity; exact Hguard.
Qed.

(** ** Running a function against every answer of the host *)

Ltac case_var :=
  match goal with
  | |- context [match ?x with _ => _ end] => is_var x; destruct x
  end.

Ltac case_iterator :=
  match goal with
  | |- context [fault ?it] => is_var it; destruct it as [? [?|]]
  end.

Ltac case_test :=
  match goal with
  | |- context [if ?b then _ else _] => destruct b eqn:?
  end.

Ltac symex := repeat (first [answer | case_var | case_iterator | case_test]; cbn).

Ltac settle :=
  repeat split; intros; cbn in *;
  try solve
    [ reflexivity | discriminate | contradiction | lia | congruence
    | intuition (first [discriminate | congruence | lia])
    | repeat match goal with H : exists _, _ |- _ => destruct H end;
      intuition (first [discriminate | congruence | lia]) ].

(** * Monitors on a run *)

Section Monitor.

Variable St : Type.
Variable next : St -> event -> St.

Lemma watch_app (st : St) (t1 t2 : list event) :
  watch next st (t1 ++ t2) = watch next (watch next st t1) t2.
Proof. apply fold_left_app. Qed.

(** What [obeys] promises holds of every run. *)
Lemma obeys_run (rt : runtime) {A : Type} (post : St -> outcome A -> Prop) (p : prog A)
    (st : St) (d : dict) (w : world rt) :
  obeys next post st p ->
  post (watch next st (trace (exec rt p d w))) (value (exec rt p d w)).
Proof.
  revert st d w.
  induction p as [a|e|X c k IH|path k IH|e q IH|k IH|f q IH]; intros st d w H; cbn in *.
  - exact H.
  - exact H.
  - destruct (respond rt c w) as [r w']. cbn. apply IH, H.
  - apply IH, H.
  - apply IH, H.
  - apply IH, H.
  - apply IH, H.
Qed.

Lemma obeys_weaken {A : Type} (post post' : St -> outcome A -> Prop) (p : prog A) (st : St) :
  obeys next post st p -> (forall st' v, post st' v -> post' st' v) -> obeys next post' st p.
Proof.
  revert st.
  induction p as [a|e|X c k IH|path k IH|e q IH|k IH|f q IH]; intros st H K; cbn in *; auto.
Qed.

Lemma obeys_bind {A B : Type} (mid : St -> outcome A -> Prop) (post : St -> outcome B -> Prop)
    (p : prog A) (k : A -> prog B) (st : St) :
  obeys next mid st p ->
  (forall st' a, mid st' (Ok a) -> obeys next post st' (k a)) ->
  (forall st' e, mid st' (Err e) -> post st' (Err e)) ->
  obeys next post st (bind p k).
Proof.
  revert st.
  induction p as [a|e|X c h IH|path h IH|e q IH|h IH|f q IH]; intros st H K1 K2; cbn in *; auto.
Qed.

Lemma obeys_try {A : Type} (mid post : St -> outcome A -> Prop)
    (p : prog A) (h : exn -> prog A) (st : St) :
  obeys next mid st p ->
  (forall st' a, mid st' (Ok a) -> post st' (Ok a)) ->
  (forall st' e, mid st' (Err e) -> obeys next post st' (h e)) ->
  obeys next post st (try_ p h).
Proof.
  revert st.
  induction p as [a|e|X c k IH|path k IH|e q IH|k IH|f q IH]; intros st H K1 K2; cbn in *; auto.
Qed.

(** The loop keeps what each round keeps. *)
Lemma obeys_for_each {S E : Type} (post : St -> outcome S -> Prop)
    (body : S -> E -> prog S) (l : list E) :
  (forall st s x, post st (Ok s) -> obeys next post st (body s x)) ->
  forall st s, post st (Ok s) -> obeys next post st (for_each body l s).
Proof.
  intros Hb. induction l as [|x l IH]; intros st s Hs; cbn.
  - exact Hs.
  - eapply obeys_bind; [apply Hb, Hs | |].
    + intros st' a Ha. apply IH, Ha.
    + intros st' e He. exact He.
Qed.

(** A program whose events all keep an invariant of the monitor. *)
Lemma obeys_invariant {A : Type} (P : event -> bool) (I : St -> Prop) (p : prog A) (st : St) :
  emits_only P p ->
  (forall st' e, P e = true -> I st' -> I (next st' e)) ->
  I st ->
  obeys next (fun st' _ => I st') st p.
Proof.
  intros He HI. revert st.
  induction p as [a|e|X c k IH|path k IH|e q IH|k IH|f q IH]; intros st Hst; cbn in *.
  - exact Hst.
  - exact Hst.
  - intros r. destruct He as [H1 H2]. apply IH; auto.
  - intros b. destruct He as [H1 H2]. apply IH; auto.
  - destruct He as [H1 H2]. apply IH; auto.
  - intros d. apply IH; auto.
  - apply IH; auto.
Qed.

Lemma obeys_returns {A : Type} (p : prog A) (st : St) :
  never_raises p -> obeys next (fun _ v => exists a, v = Ok a) st p.
Proof.
  revert st.
  induction p as [a|e|X c k IH|path k IH|e q IH|k IH|f q IH]; intros st H; cbn in *; eauto.
  contradiction.
Qed.

Lemma obeys_both {A : Type} (post1 post2 : St -> outcome A -> Prop) (p : prog A) (st : St) :
  obeys next post1 st p -> obeys next post2 st p ->
  obeys next (fun st' v => post1 st' v /\ post2 st' v) st p.
Proof.
  revert st.
  induction p as [a|e|X c k IH|path k IH|e q IH|k IH|f q IH]; intros st H1 H2; cbn in *; auto.
Qed.

End Monitor.

Lemma emits_only_impl (P Q : event -> bool) {A : Type} (p : prog A) :
  (forall e, P e = true -> Q e = true) -> emits_only P p -> emits_only Q p.
Proof.
  intros H.
  induction p as [a|e|X c k IH|path k IH|e q IH|k IH|f q IH]; cbn; auto.
  - intros [H1 H2]. split; auto.
  - intros [H1 H2]. split; auto.
  - intros [H1 H2]. split; auto.
Qed.

(** ** Walking a script under a monitor *)

Lemma obj_eqb_refl (f : obj) : obj_eqb f f = true.
Proof. destruct f as [i]. apply Nat.eqb_refl. Qed.

Lemma prefix_empty (s : string) : String.prefix EmptyString s = true.
Proof. destruct s; reflexivity. Qed.

Ltac branch :=
  match goal with
  | |- forall _ : outcome _, _ => intros [?|?]
  | |- forall _ : bool, _ => intros [|]
  | |- forall _, _ => intro
  | |- context [match ?x with _ => _ end] => is_var x; destruct x
  | |- context [fault ?it] => is_var it; destruct it as [? [?|]]
  | |- context [if ?b then _ else _] => destruct b eqn:?
  end.

Ltac freeze :=
  repeat match goal with
  | |- context [parse_il2cpp_header ?p] =>
      let P := fresh "P" in remember (parse_il2cpp_header p) as P
  | |- context [apply_il2cpp_symbols ?p] =>
      let P := fresh "P" in remember (apply_il2cpp_symbols p) as P
  | |- context [decompile_all ?s ?dc ?p ?ib ?t] =>
      let P := fresh "P" in remember (decompile_all s dc p ib t) as P
  | |- context [write_output ?s ?t] =>
      let P := fresh "P" in remember (write_output s t) as P
  | |- context [decompile_function_at_address ?dc ?p ?rva ?name] =>
      let P := fresh "P" in remember (decompile_function_at_address dc p rva name) as P
  end.

Ltac call_walk :=
  repeat first
    [ reflexivity
    | match goal with
      | |- forall _ : outcome _, _ => intros [?|?]
      | |- context [match ?x with _ => _ end] => is_var x; destruct x
      end
    | progress (freeze; cbn) ].

Lemma emits_only_for_each (P : event -> bool) {S E : Type} (body : S -> E -> prog S)
    (l : list E) (s : S) :
  (forall s x, emits_only P (body s x)) -> emits_only P (for_each body l s).
Proof.
  intros H. revert s. induction l as [|x l IH]; intros s; cbn; [exact I|].
  apply emits_only_bind; [apply H | intros; apply IH].
Qed.

Lemma label_targets_events st af ib addr name targets applied :
  emits_only label_event (label_targets st af ib addr name targets applied).
Proof.
  revert applied. induction targets as [|[rva target] rest IH]; intros applied.
  - exact I.
  - cbn [label_targets]. emits_only_walk ltac:(apply IH).
Qed.

Lemma label_methods_events st af ib methods applied :
  emits_only label_event (label_methods st af ib methods applied).
Proof.
  revert applied. induction methods as [|method rest IH]; intros applied.
  - exact I.
  - cbn [label_methods].
    emits_only_walk ltac:(first [apply IH | apply label_targets_events]).
Qed.

(** ** How a run ends *)

Lemma quiet_part {A : Type} (p : prog A) (st : ending) :
  never_raises p -> emits_only before_closing p -> closing_seen st = false ->
  obeys ending_step (@part_ends A) st p.
Proof.
  intros Hn He Hst.
  eapply obeys_weaken.
  - apply obeys_both.
    + apply obeys_returns, Hn.
    + apply (obeys_invariant ending_step before_closing (fun st => closing_seen st = false));
        [exact He | | exact Hst].
      intros st' e H1 H2. cbn. rewrite H2. unfold before_closing in H1.
      destruct (closing e); [discriminate | reflexivity].
  - cbn. intros st' v [[a ->] H]. split; [exact H | exact I].
Qed.

Lemma label_event_before_closing e : label_event e = true -> before_closing e = true.
Proof.
  destruct e as [X c r| | | | |]; try reflexivity. destruct c; try reflexivity; discriminate.
Qed.

Lemma parse_il2cpp_header_ends program st :
  closing_seen st = false ->
  obeys ending_step (@part_ends bool) st (parse_il2cpp_header program).
Proof.
  apply quiet_part; [apply parse_il2cpp_header_never_raises|].
  unfold parse_il2cpp_header, count_data_types. emits_only_walk idtac.
Qed.

Lemma apply_il2cpp_symbols_ends program st :
  closing_seen st = false ->
  obeys ending_step (@part_ends Z) st (apply_il2cpp_symbols program).
Proof.
  apply quiet_part; [apply apply_il2cpp_symbols_never_raises|].
  unfold apply_il2cpp_symbols.
  emits_only_walk ltac:(apply (emits_only_impl label_event before_closing);
                        [exact label_event_before_closing | apply label_methods_events]).
Qed.

Ltac ends :=
  unfold part_ends, run_ends, on_last in *; cbn in *;
  try solve [auto | intuition (first [congruence | discriminate])].

Lemma decompile_function_at_address_ends decompiler program rva name st :
  closing_seen st = false ->
  obeys ending_step (@part_ends (option string * option string)) st
    (decompile_function_at_address decompiler program rva name).
Proof.
  intros Hst. unfold decompile_function_at_address.
  repeat first [ solve [ends] | branch | progress cbn ].
Qed.

Lemma decompile_entry_ends decompiler program ib t rva name st :
  closing_seen st = false ->
  obeys ending_step (@part_ends tally) st (decompile_entry decompiler program ib t rva name).
Proof.
  intros Hst. unfold decompile_entry. cbn.
  eapply obeys_bind.
  - apply decompile_function_at_address_ends. exact Hst.
  - intros st' [code error] [H _]. repeat first [ solve [ends] | branch | progress cbn ].
  - intros st' e H. exact H.
Qed.

Lemma decompile_all_ends s decompiler program ib t st :
  closing_seen st = false ->
  obeys ending_step (@part_ends tally) st (decompile_all s decompiler program ib t).
Proof.
  intros Hst. unfold decompile_all. cbn. intros d.
  destruct s; apply obeys_for_each; try (split; [exact Hst | exact I]);
    intros st' t' x [H _]; apply decompile_entry_ends, H.
Qed.

Lemma write_output_ends s t st :
  obeys ending_step (fun _ v => exists a : unit, v = Ok a) st (write_output s t).
Proof. apply obeys_returns, write_output_never_raises. Qed.

Ltac through_part spec :=
  subst; eapply obeys_bind;
    [ apply spec; first [reflexivity | cbn; assumption]
    | intros ? ? [? _]
    | intros ? ? ?; solve [ends] ];
  call_walk; try solve [ends].

Lemma run_ends_so s : obeys ending_step run_ends nothing_yet (run s).
Proof.
  unfold run. call_walk; try solve [ends].
  through_part parse_il2cpp_header_ends;
    through_part apply_il2cpp_symbols_ends;
    through_part decompile_all_ends.
  all: subst; eapply obeys_bind;
    [ apply write_output_ends | intros ? ? _ | intros ? ? [? ?]; discriminate ].
  all: call_walk; solve [ends].
Qed.

Lemma last_host_call_split (tr : list event) (ev : event) :
  last_host_call tr = Some ev ->
  exists before after, tr = before ++ ev :: after /\ filter reaches_host after = [].
Proof.
  unfold last_host_call. induction tr as [|x tr IH] using rev_ind; [discriminate|].
  rewrite watch_app. cbn. destruct (reaches_host x) eqn:Hx.
  - intros E. injection E as <-. exists tr, []. split; reflexivity.
  - intros E. destruct (IH E) as (before & after & -> & Ha).
    exists before, (after ++ [x]). rewrite <- app_assoc. split; [reflexivity|].
    rewrite filter_app, Ha. cbn. rewrite Hx. reflexivity.
Qed.

Lemma closing_seen_watch (st : ending) (tr : list event) :
  closing_seen (watch ending_step st tr) = existsb closing tr || closing_seen st.
Proof.
  revert st. induction tr as [|e tr IH]; intros st; [reflexivity|].
  cbn [watch fold_left existsb]. fold (watch ending_step (ending_step st e) tr).
  rewrite IH. cbn. destruct (closing e), (existsb closing tr); reflexivity.
Qed.

Lemma no_closing (tr : list event) :
  existsb closing tr = false ->
  pick opened_for_writing tr = [] /\ pick written tr = [] /\ filter disposing tr = [].
Proof.
  induction tr as [|e tr IH]; cbn; [auto|].
  intros H. apply orb_false_elim in H as [He Htr]. destruct (IH Htr) as (H1 & H2 & H3).
  unfold closing in He.
  destruct (opened_for_writing e); [discriminate|].
  destruct (written e); [discriminate|]. rewrite He. auto.
Qed.

Lemma run_ending (s : script) (rt : runtime) (d : dict) (w : world rt) :
  let r := exec rt (run s) d w in
  run_ends (watch ending_step nothing_yet (trace r)) (value r).
Proof. apply (obeys_run ending_step rt run_ends (run s) nothing_yet d w), run_ends_so. Qed.

(** ** Where and how often decompilation is requested *)

Lemma off_requests_outside (e : event) :
  off_requests e = true -> request_step Outside e = Outside.
Proof.
  destruct e as [X c r| | | |f|f r]; try reflexivity.
  - destruct c; try reflexivity; discriminate.
  - destruct f; try reflexivity; discriminate.
  - destruct f; try reflexivity; discriminate.
Qed.

Lemma off_requests_counted (st : counting) (e : event) :
  off_requests e = true -> counted st -> counted (count_step st e).
Proof.
  intros He [H1 H2].
  assert (Hc : counts_call e = false).
  { destruct e as [X c r| | | |f|f r]; try reflexivity. destruct f; try reflexivity; discriminate. }
  assert (Hr : counts_request e = false).
  { destruct e as [X c r| | | |f|f r]; try reflexivity. destruct c; try reflexivity; discriminate. }
  unfold counted, count_step. cbn. rewrite Hc, Hr. split; [exact H1|].
  intros E. apply orb_false_elim in E as [_ E]. apply H2, E.
Qed.

Lemma label_event_off_requests (e : event) : label_event e = true -> off_requests e = true.
Proof.
  destruct e as [X c r| | | | |]; try discriminate. destruct c; try discriminate; reflexivity.
Qed.

Lemma parse_il2cpp_header_off_requests program :
  emits_only off_requests (parse_il2cpp_header program).
Proof. unfold parse_il2cpp_header, count_data_types. emits_only_walk idtac. Qed.

Lemma apply_il2cpp_symbols_off_requests program :
  emits_only off_requests (apply_il2cpp_symbols program).
Proof.
  unfold apply_il2cpp_symbols.
  emits_only_walk ltac:(apply (emits_only_impl label_event off_requests);
                        [exact label_event_off_requests | apply label_methods_events]).
Qed.

Lemma write_output_off_requests s t : emits_only off_requests (write_output s t).
Proof. unfold write_output. emits_only_walk idtac. Qed.

(** A part of [run] other than the loop leaves both monitors where they
    are. *)
Lemma off_requests_in_step {A : Type} (p : prog A) :
  emits_only off_requests p ->
  obeys request_step (fun st (_ : outcome A) => st = Outside) Outside p.
Proof.
  intros H. apply (obeys_invariant request_step off_requests (fun st => st = Outside)).
  - exact H.
  - intros st e He ->. apply off_requests_outside, He.
  - reflexivity.
Qed.

Lemma off_requests_keeps_count {A : Type} (p : prog A) (st : counting) :
  emits_only off_requests p -> counted st ->
  obeys count_step (fun st' (_ : outcome A) => counted st') st p.
Proof.
  intros H Hst. apply (obeys_invariant count_step off_requests counted).
  - exact H.
  - intros st' e He Hc. apply off_requests_counted; assumption.
  - exact Hst.
Qed.

(** A call, step by step. *)
Lemma decompile_function_at_address_in_step decompiler program rva name :
  obeys request_step
    (fun st (_ : outcome (option string * option string)) => st = Outside) Outside
    (decompile_function_at_address decompiler program rva name).
Proof.
  unfold decompile_function_at_address.
  repeat (cbn; rewrite ?Z.eqb_refl, ?obj_eqb_refl, ?String.eqb_refl; try reflexivity; branch).
Qed.

Ltac tally_up :=
  match goal with
  | H : counted _ |- _ => destruct H as [? ?]
  end;
  unfold counted; cbn; split; [lia|];
  intros E; try discriminate E;
  match goal with
  | H : excused ?st = false -> _ |- _ => specialize (H E); lia
  end.

Lemma decompile_function_at_address_counted decompiler program rva name st :
  counted st ->
  obeys count_step
    (fun st' (_ : outcome (option string * option string)) => counted st') st
    (decompile_function_at_address decompiler program rva name).
Proof.
  intros Hst. unfold decompile_function_at_address.
  repeat first [ solve [tally_up] | branch | progress cbn ].
Qed.

Lemma decompile_all_in_step s decompiler program ib t :
  obeys request_step (fun st (_ : outcome tally) => st = Outside) Outside
    (decompile_all s decompiler program ib t).
Proof.
  assert (He : forall t rva name,
             obeys request_step (fun st (_ : outcome tally) => st = Outside) Outside
               (decompile_entry decompiler program ib t rva name)).
  { intros. unfold decompile_entry. cbn.
    eapply obeys_bind; [apply decompile_function_at_address_in_step | |].
    - intros st' [code error] ->. repeat (cbn; try reflexivity; branch).
    - intros st' e ->. reflexivity. }
  unfold decompile_all. cbn. intros d.
  destruct s; apply obeys_for_each; try reflexivity; intros st t' x ->; apply He.
Qed.

Lemma decompile_all_counted s decompiler program ib t st :
  counted st ->
  obeys count_step (fun st' (_ : outcome tally) => counted st') st
    (decompile_all s decompiler program ib t).
Proof.
  intros Hst.
  assert (He : forall st t rva name,
             counted st ->
             obeys count_step (fun st' (_ : outcome tally) => counted st') st
               (decompile_entry decompiler program ib t rva name)).
  { intros st0 t0 rva name H0. unfold decompile_entry.
    remember (decompile_function_at_address decompiler program rva name) as P eqn:EP.
    cbn. subst P.
    eapply obeys_bind.
    - apply decompile_function_at_address_counted. exact H0.
    - intros st' [code error] H'. repeat first [ exact H' | branch | progress cbn ].
    - intros st' e H'. exact H'. }
  unfold decompile_all. cbn. intros d.
  destruct s; apply obeys_for_each; try exact Hst; intros st' t' x H'; apply He, H'.
Qed.

Lemma parse_il2cpp_header_in_step program :
  obeys request_step (fun st (_ : outcome bool) => st = Outside) Outside
    (parse_il2cpp_header program).
Proof. apply off_requests_in_step, parse_il2cpp_header_off_requests. Qed.

Lemma apply_il2cpp_symbols_in_step program :
  obeys request_step (fun st (_ : outcome Z) => st = Outside) Outside
    (apply_il2cpp_symbols program).
Proof. apply off_requests_in_step, apply_il2cpp_symbols_off_requests. Qed.

Lemma write_output_in_step s t :
  obeys request_step (fun st (_ : outcome unit) => st = Outside) Outside (write_output s t).
Proof. apply off_requests_in_step, write_output_off_requests. Qed.

Ltac through_outside spec :=
  subst; eapply obeys_bind; [apply spec | intros ? ? -> | intros ? ? ->]; call_walk.

Lemma run_in_step s :
  obeys request_step (fun st (_ : outcome unit) => st = Outside) Outside (run s).
Proof.
  unfold run. call_walk.
  through_outside parse_il2cpp_header_in_step;
    through_outside apply_il2cpp_symbols_in_step;
    through_outside decompile_all_in_step;
    through_outside write_output_in_step.
Qed.

Lemma parse_il2cpp_header_counted program st :
  counted st ->
  obeys count_step (fun st' (_ : outcome bool) => counted st') st
    (parse_il2cpp_header program).
Proof. apply off_requests_keeps_count, parse_il2cpp_header_off_requests. Qed.

Lemma apply_il2cpp_symbols_counted program st :
  counted st ->
  obeys count_step (fun st' (_ : outcome Z) => counted st') st
    (apply_il2cpp_symbols program).
Proof. apply off_requests_keeps_count, apply_il2cpp_symbols_off_requests. Qed.

Lemma write_output_counted s t st :
  counted st ->
  obeys count_step (fun st' (_ : outcome unit) => counted st') st (write_output s t).
Proof. apply off_requests_keeps_count, write_output_off_requests. Qed.

Ltac keep_count :=
  repeat first
    [ assumption
    | match goal with
      | |- counted (count_step _ _) => apply off_requests_counted; [reflexivity|]
      | |- counted uncounted => split; [apply Nat.le_refl | reflexivity]
      end ].

Ltac count_walk :=
  repeat first
    [ solve [keep_count]
    | match goal with
      | |- forall _ : outcome _, _ => intros [?|?]
      | |- context [match ?x with _ => _ end] => is_var x; destruct x
      end
    | progress (freeze; cbn -[count_step]) ].

Ltac through_counted spec :=
  subst; eapply obeys_bind;
    [ apply spec; solve [keep_count] | intros ? ? ? | intros ? ? ?; assumption ];
  count_walk.

Lemma run_counted s :
  obeys count_step (fun st (_ : outcome unit) => counted st) uncounted (run s).
Proof.
  unfold run. count_walk.
  through_counted parse_il2cpp_header_counted;
    through_counted apply_il2cpp_symbols_counted;
    through_counted decompile_all_counted;
    through_counted write_output_counted.
Qed.

Lemma watch_count (tr : list event) (st : counting) :
  calls (watch count_step st tr) = (calls st + List.length (pick entered tr))%nat
  /\ requests (watch count_step st tr)
     = (requests st + List.length (pick decompilation_asked tr))%nat
  /\ excused (watch count_step st tr) = existsb excusing tr || excused st.
Proof.
  revert st. induction tr as [|e tr IH]; intros st.
  - cbn. rewrite !Nat.add_0_r. auto.
  - cbn [watch fold_left]. fold (watch count_step (count_step st e) tr).
    destruct (IH (count_step st e)) as (H1 & H2 & H3). rewrite H1, H2, H3. cbn.
    unfold counts_call.
    repeat split.
    + destruct (entered e); cbn [List.length]; lia.
    + destruct e as [X c r| | | | |]; cbn; try lia. destruct c; cbn; lia.
    + destruct (excusing e), (existsb excusing tr); reflexivity.
Qed.

(** A call goes as far as the host lets it. *)
Lemma decompile_function_at_address_goes_on (rt : runtime) decompiler program rva name d w :
  let tr := trace (exec rt (decompile_function_at_address decompiler program rva name) d w) in
  (pick before_address_fault tr = [] ->
   exists image_base,
     pick offset_answered tr = [image_base] /\ pick address_asked tr = [image_base + rva])
  /\ (existsb excusing tr = false ->
      exists func, pick decompilation_asked tr = [(decompiler, func, 120)])
  /\ (List.length (pick decompilation_asked tr) <= 1)%nat.
Proof.
  cbn zeta. unfold decompile_function_at_address, def. cbn.
  symex; repeat split; intros; try discriminate; cbn; eauto.
Qed.

(** ** Where a run stops *)

Lemma off_requests_going (e : event) : off_requests e = true -> stop_step Going e = Going.
Proof.
  destruct e as [X c r| | | |f|f r]; try reflexivity.
  destruct f; try reflexivity; discriminate.
Qed.

Lemma off_requests_goes_on {A : Type} (p : prog A) :
  emits_only off_requests p ->
  obeys stop_step (fun st (_ : outcome A) => st = Going) Going p.
Proof.
  intros H. apply (obeys_invariant stop_step off_requests (fun st => st = Going)).
  - exact H.
  - intros st e He ->. apply off_requests_going, He.
  - reflexivity.
Qed.

Lemma decompile_function_at_address_stops decompiler program rva name :
  obeys stop_step stops_if_raised Going
    (decompile_function_at_address decompiler program rva name).
Proof.
  unfold decompile_function_at_address.
  repeat (cbn; try reflexivity; branch).
Qed.

Lemma decompile_all_stops s decompiler program ib t :
  obeys stop_step stops_there Going (decompile_all s decompiler program ib t).
Proof.
  assert (He : forall st (t0 t : tally) rva name,
             stops_there st (Ok t0) ->
             obeys stop_step stops_there st
               (decompile_entry decompiler program ib t rva name)).
  { intros st t0 t1 rva name H0. destruct st; [|discriminate H0|contradiction H0].
    unfold decompile_entry.
    remember (decompile_function_at_address decompiler program rva name) as P eqn:EP.
    cbn. subst P.
    eapply obeys_bind; [apply decompile_function_at_address_stops | |].
    - intros st' [code error] ->. repeat (cbn; try exact I; branch).
    - intros st' e ->. reflexivity. }
  unfold decompile_all. cbn. intros d.
  destruct s; apply obeys_for_each; try exact I; intros st t' x H'; apply (He st t'), H'.
Qed.

Lemma parse_il2cpp_header_goes_on program :
  obeys stop_step (fun st (_ : outcome bool) => st = Going) Going
    (parse_il2cpp_header program).
Proof. apply off_requests_goes_on, parse_il2cpp_header_off_requests. Qed.

Lemma apply_il2cpp_symbols_goes_on program :
  obeys stop_step (fun st (_ : outcome Z) => st = Going) Going
    (apply_il2cpp_symbols program).
Proof. apply off_requests_goes_on, apply_il2cpp_symbols_off_requests. Qed.

Lemma write_output_goes_on s t :
  obeys stop_step (fun st (_ : outcome unit) => st = Going) Going (write_output s t).
Proof. apply off_requests_goes_on, write_output_off_requests. Qed.

Ltac stop_walk :=
  repeat first
    [ exact I
    | match goal with
      | |- forall _ : outcome _, _ => intros [?|?]
      | |- context [match ?x with _ => _ end] => is_var x; destruct x
      end
    | progress (freeze; cbn) ].

Ltac through_going spec :=
  subst; eapply obeys_bind; [apply spec | intros ? ? -> | intros ? ? ->]; stop_walk.

Ltac through_loop :=
  subst; eapply obeys_bind;
    [ apply decompile_all_stops
    | intros [| |] ? H; [|discriminate H|contradiction H]; stop_walk
    | intros [| |] ? H; [exact I | injection H as ->; reflexivity | contradiction H] ].

Lemma run_stops s : obeys stop_step stops_there Going (run s).
Proof.
  unfold run. stop_walk.
  through_going parse_il2cpp_header_goes_on;
    through_going apply_il2cpp_symbols_goes_on;
    through_loop;
    through_going write_output_goes_on.
Qed.

Lemma went_on_stays (tr : list event) : watch stop_step Went_on tr = Went_on.
Proof. induction tr as [|e tr IH]; [reflexivity | exact IH]. Qed.

(** A call that raises is the last thing a run does. *)
Lemma raising_call_is_last (s : script) (rt : runtime) (d : dict) (w : world rt) :
  let r := exec rt (run s) d w in
  forall before decompiler program rva name e after,
    trace r
    = (before
       ++ Leave (decompile_function_at_address_ decompiler program rva name) (Ret_raise e)
          :: after)%list ->
    after = [] /\ value r = Err e.
Proof.
  intros r before decompiler program rva name e after Htr.
  pose proof (obeys_run stop_step rt stops_there (run s) Going d w (run_stops s)) as H.
  fold r in H. rewrite Htr, watch_app in H.
  destruct (watch stop_step Going before) as [|e'|].
  - destruct after as [|ev after]; [split; [reflexivity | exact H]|].
    change (stops_there (watch stop_step Went_on after) (value r)) in H.
    rewrite went_on_stays in H. contradiction.
  - change (stops_there (watch stop_step Went_on after) (value r)) in H.
    rewrite went_on_stays in H. contradiction.
  - change (stops_there (watch stop_step Went_on after) (value r)) in H.
    rewrite went_on_stays in H. contradiction.
Qed.

(** A call gives up when one of the three calls before its [try] raises:
    it raises the same exception, which is the last thing seen of it,
    without having asked for an address or a decompilation. *)
Lemma decompile_function_at_address_gives_up (rt : runtime) decompiler program rva name d w :
  let r := exec rt (decompile_function_at_address decompiler program rva name) d w in
  forall e, In e (pick prelude_fault (trace r)) ->
    value r = Err e
    /\ last (trace r) (Enter (decompile_function_at_address_ decompiler program rva name))
       = Leave (decompile_function_at_address_ decompiler program rva name) (Ret_raise e)
    /\ pick address_asked (trace r) = []
    /\ pick decompilation_asked (trace r) = [].
Proof.
  cbn zeta. unfold decompile_function_at_address, def. cbn.
  symex; cbn; intros x Hin; try contradiction; destruct Hin as [<-|[]];
    repeat split; reflexivity.
Qed.

(** * The specification, property by property *)

(** ** C8: the table is a static lookup table *)

(** C8.  No step of [run], and none of header parsing, symbol
    application, the decompilation loop or output writing, changes
    [TARGET_FUNCTIONS_RVA]: whatever the host answers, after any number of
    steps, and at the end, the dict is the one the run started with. *)
Theorem target_functions_never_change (s : script) (rt : runtime) (d : dict) (w : world rt) :
  (forall n, table_after rt n (run s) d w = d)
  /\ table (exec rt (run s) d w) = d
  /\ (forall n program, table_after rt n (parse_il2cpp_header program) d w = d)
  /\ (forall n program, table_after rt n (apply_il2cpp_symbols program) d w = d)
  /\ (forall n decompiler program image_base t,
        table_after rt n (decompile_all s decompiler program image_base t) d w = d)
  /\ (forall n t, table_after rt n (write_output s t) d w = d).
Proof.
  repeat split; intros.
  - apply reads_only_table_after, run_reads_only.
  - apply reads_only_table, run_reads_only.
  - apply reads_only_table_after, parse_il2cpp_header_reads_only.
  - apply reads_only_table_after, apply_il2cpp_symbols_reads_only.
  - apply reads_only_table_after, decompile_all_reads_only.
  - apply reads_only_table_after, write_output_reads_only.
Qed.

(** ** C10: no program loaded *)

(** C10.  When [getCurrentProgram()] answers [None], [run] prints its
    title and the error line and returns: that call is the only one the
    host receives, the host is left as that call left it, and the trace
    holds no mark of any of the four steps (no header parsing, no label, no
    decompilation, no file opened for writing or written). *)
Theorem run_without_program (s : script) (rt : runtime) (d : dict) (w : world rt) :
  fst (respond rt getCurrentProgram w) = Ok None ->
  let r := exec rt (run s) d w in
  value r = Ok tt
  /\ trace r = no_program_trace s
  /\ filter reaches_host (trace r) = [Called getCurrentProgram (Ok None)]
  /\ pick stage (trace r) = []
  /\ pick written (trace r) = []
  /\ pick opened_for_writing (trace r) = []
  /\ hosted r = snd (respond rt getCurrentProgram w)
  /\ table r = d.
Proof.
  intros H. cbn zeta. unfold run. cbn.
  destruct (respond rt getCurrentProgram w) as [answer w']. cbn in H. subst answer.
  cbn. repeat split; reflexivity.
Qed.

Lemma run_without_program_witness :
  fst (respond unloaded getCurrentProgram tt) = Ok None
  /\ trace (exec unloaded (run Magic) (TARGET_FUNCTIONS_RVA Magic) tt) = no_program_trace Magic.
Proof.
  split; [reflexivity|].
  apply (@run_without_program Magic unloaded (TARGET_FUNCTIONS_RVA Magic) tt).
  reflexivity.
Defined.

(** ** C9: the two counters *)

(** C9.  When the loop of [run] ends, every entry has incremented exactly
    one counter: [success_count] counts the calls of
    [decompile_function_at_address] that returned a truthy code string,
    [fail_count] the others, and together they count the entries of
    [TARGET_FUNCTIONS_RVA]. *)
Theorem counters_cover_the_table (s : script) (rt : runtime) (d : dict) (w : world rt)
    (decompiler program : obj) (program_name : string) (image_base : Z)
    (types_parsed : bool) (t : tally) :
  Permutation d (TARGET_FUNCTIONS_RVA s) ->
  let r := exec rt (decompile_all s decompiler program image_base
                      (initial_tally s program_name image_base types_parsed)) d w in
  value r = Ok t ->
  exists outs,
    pick returned (trace r) = map ret_pair outs
    /\ List.length outs = List.length (TARGET_FUNCTIONS_RVA s)
    /\ success_count t = successes outs
    /\ fail_count t = failures outs
    /\ success_count t + fail_count t = Z.of_nat (List.length (TARGET_FUNCTIONS_RVA s)).
Proof.
  intros Hd r Hv.
  destruct (@decompile_all_run s rt decompiler program image_base
              (initial_tally s program_name image_base types_parsed) d w Hd) as [_ H].
  destruct (H t Hv) as (outs & Hlen & _ & Hret & _ & Hs & Hf).
  assert (Hn : List.length (report_order s) = List.length (TARGET_FUNCTIONS_RVA s))
    by apply Permutation_length, report_order_perm.
  cbn in Hs, Hf. exists outs. repeat split.
  - exact Hret.
  - congruence.
  - exact Hs.
  - exact Hf.
  - rewrite Hs, Hf, successes_failures. congruence.
Qed.

Lemma counters_cover_the_table_witness :
  match value (exec calm (decompile_all Pathfinding (Obj 12) (Obj 1) 0x180000000
                            (initial_tally Pathfinding "GameAssembly.dll" 0x180000000 true))
                 (TARGET_FUNCTIONS_RVA Pathfinding) tt) with
  | Ok t => success_count t + fail_count t = 17
  | Err _ => False
  end.
Proof.
  destruct (value (exec calm (decompile_all Pathfinding (Obj 12) (Obj 1) 0x180000000
                            (initial_tally Pathfinding "GameAssembly.dll" 0x180000000 true))
                 (TARGET_FUNCTIONS_RVA Pathfinding) tt)) as [t|e] eqn:E.
  - destruct (@counters_cover_the_table Pathfinding calm (TARGET_FUNCTIONS_RVA Pathfinding) tt
                (Obj 12) (Obj 1) "GameAssembly.dll" 0x180000000 true t
                (Permutation_refl _) E) as (outs & _ & _ & _ & _ & H).
    exact H.
  - vm_compute in E. discriminate E.
Defined.

(** ** C3: one decompilation request per entry *)

(** Inside a call for [rva], an address is asked for at most once, and
    then at the image base the host has just given plus [rva]. *)
Lemma decompile_function_at_address_asks (rt : runtime) decompiler program rva name d w :
  let r := exec rt (decompile_function_at_address decompiler program rva name) d w in
  pick address_asked (trace r) = []
  \/ exists image_base,
       pick offset_answered (trace r) = [image_base]
       /\ pick address_asked (trace r) = [image_base + rva].
Proof.
  cbn zeta. unfold decompile_function_at_address, def. cbn.
  symex; first [left; reflexivity | right; eexists; split; reflexivity].
Qed.

Lemma filter_firstn_length {B : Type} (f : B -> bool) (k : nat) (l : list B) :
  (List.length (filter f (firstn k l)) <= List.length (filter f l))%nat.
Proof.
  revert k. induction l as [|x l IH]; intros [|k]; cbn [firstn filter List.length];
    try apply Nat.le_0_l.
  specialize (IH k). destruct (f x); cbn [List.length]; lia.
Qed.

Lemma once_in_report_order (s : script) (entry : Z * string) :
  In entry (TARGET_FUNCTIONS_RVA s) ->
  List.length (filter (entry_eqb entry) (report_order s)) = 1%nat.
Proof.
  assert (H : forallb (fun entry =>
                Nat.eqb (List.length (filter (entry_eqb entry) (report_order s))) 1)
                (TARGET_FUNCTIONS_RVA s) = true)
    by (destruct s; vm_compute; reflexivity).
  rewrite forallb_forall in H. intros Hin. apply Nat.eqb_eq, H, Hin.
Qed.

Lemma at_most_once_in_report_order (s : script) (entry : Z * string) :
  (List.length (filter (entry_eqb entry) (report_order s)) <= 1)%nat.
Proof.
  destruct (filter (entry_eqb entry) (report_order s)) as [|x l] eqn:E; [cbn; lia|].
  assert (Hx : In x (filter (entry_eqb entry) (report_order s)))
    by (rewrite E; left; reflexivity).
  apply filter_In in Hx as [Hin Heq]. apply entry_eqb_eq in Heq. subst x.
  rewrite <- E, once_in_report_order; [lia|].
  apply (Permutation_in _ (report_order_perm s)), Hin.
Qed.

Lemma broken_stays (tr : list event) : watch request_step Broken tr = Broken.
Proof.
  induction tr as [|e tr IH]; [reflexivity|].
  cbn [watch fold_left]. fold (watch request_step (request_step Broken e) tr).
  replace (request_step Broken e) with Broken; [exact IH|].
  destruct e as [X c r| | | |f|f r]; try reflexivity.
  - destruct c; reflexivity.
  - destruct f; reflexivity.
  - destruct f; reflexivity.
Qed.

(** C3 as written ("for every entry ... exactly once") does not hold: the
    three calls [decompile_function_at_address] makes before its [try]
    are not guarded, and when one of them raises, [run] stops at that
    entry; the entries that come later in the order of the loop are never
    gone through, and no decompilation is requested for them. *)
Lemma run_stops_at_the_first_failure :
  let tr := trace (exec closed (run Pathfinding) (TARGET_FUNCTIONS_RVA Pathfinding) tt) in
  In (0xC51270, "MapRouteSearcher$$Search"%string) (TARGET_FUNCTIONS_RVA Pathfinding)
  /\ calls_for (0xC51270, "MapRouteSearcher$$Search"%string) tr = 0%nat
  /\ pick decompilation_asked tr = [].
Proof. split; [left; reflexivity | split; vm_compute; reflexivity]. Qed.

(** C3, amended.  [run] calls [decompile_function_at_address] for entries
    of [TARGET_FUNCTIONS_RVA] only, in the order of the loop and for none
    of them twice; a run on a loaded program that returns has called it
    exactly once for every entry.  A call raises when
    [program.getAddressFactory()], [program.getImageBase()] or
    [.getOffset()] raises in it, without having asked for an address or a
    decompilation, and a call that raises is the last thing a run does:
    [run] raises the same exception at once, and the entries that come
    later are not gone through.  Every decompilation a run requests is
    requested inside such a call, after the address at the image base
    plus the entry's RVA was asked for (the image base being what
    [program.getImageBase().getOffset()] answered in that call), of the
    function found or created at the address that was given, by the
    decompiler of the call with a timeout of 120, and at most once per
    call; so there are never more requests than calls.  When a program is
    loaded, no host call raises and [createFunction] never answers
    [None], the run returns and has requested exactly one decompilation
    for every entry.  A single call asks for the address unless one of
    the four calls before [getAddress] raised, and requests its
    decompilation unless a host call raised or [createFunction] answered
    [None]. *)
Theorem every_target_decompiled_once (s : script) (rt : runtime) (d : dict) (w : world rt) :
  Permutation d (TARGET_FUNCTIONS_RVA s) ->
  let r := exec rt (run s) d w in
  (exists k, pick entered (trace r) = firstn k (report_order s))
  /\ (forall entry, In entry (pick entered (trace r)) -> In entry (TARGET_FUNCTIONS_RVA s))
  /\ (forall entry, (calls_for entry (trace r) <= 1)%nat)
  /\ (forall program,
        fst (respond rt getCurrentProgram w) = Ok (Some program) ->
        value r = Ok tt ->
        forall entry, In entry (TARGET_FUNCTIONS_RVA s) -> calls_for entry (trace r) = 1%nat)
  /\ watch request_step Outside (trace r) = Outside
  /\ (forall k, watch request_step Outside (firstn k (trace r)) <> Broken)
  /\ (List.length (pick decompilation_asked (trace r))
      <= List.length (pick entered (trace r)))%nat
  /\ (fst (respond rt getCurrentProgram w) <> Ok None ->
      existsb excusing (trace r) = false ->
      value r = Ok tt
      /\ pick entered (trace r) = report_order s
      /\ List.length (pick decompilation_asked (trace r))
         = List.length (TARGET_FUNCTIONS_RVA s))
  /\ (forall before decompiler program rva name e after,
        trace r
        = (before
           ++ Leave (decompile_function_at_address_ decompiler program rva name) (Ret_raise e)
              :: after)%list ->
        after = [] /\ value r = Err e)
  /\ (forall decompiler program rva name d' w',
        let r' := exec rt (decompile_function_at_address decompiler program rva name) d' w' in
        let tr' := trace r' in
        (pick address_asked tr' = []
         \/ exists image_base,
              pick offset_answered tr' = [image_base]
              /\ pick address_asked tr' = [image_base + rva])
        /\ (pick before_address_fault tr' = [] ->
            exists image_base,
              pick offset_answered tr' = [image_base]
              /\ pick address_asked tr' = [image_base + rva])
        /\ (existsb excusing tr' = false ->
            exists func, pick decompilation_asked tr' = [(decompiler, func, 120)])
        /\ (List.length (pick decompilation_asked tr') <= 1)%nat
        /\ (forall e, In e (pick prelude_fault tr') ->
            value r' = Err e
            /\ last tr' (Enter (decompile_function_at_address_ decompiler program rva name))
               = Leave (decompile_function_at_address_ decompiler program rva name)
                   (Ret_raise e)
            /\ pick address_asked tr' = []
            /\ pick decompilation_asked tr' = [])).
Proof.
  intros Hd r.
  assert (Hprefix : exists k, pick entered (trace r) = firstn k (report_order s)).
  { destruct (@run_anatomy s rt d w Hd) as [(_ & Htr & _)|(_ & _ & Hk & _)].
    - exists 0%nat. fold r in Htr. rewrite Htr. reflexivity.
    - exact Hk. }
  assert (Hstep : watch request_step Outside (trace r) = Outside)
    by apply (obeys_run request_step rt (fun st (_ : outcome unit) => st = Outside)
                (run s) Outside d w), run_in_step.
  pose proof (obeys_run count_step rt (fun st (_ : outcome unit) => counted st)
                (run s) uncounted d w (run_counted s)) as Hcount.
  cbn beta in Hcount. fold r in Hcount. destruct Hcount as [Hle Heq].
  destruct (watch_count (trace r) uncounted) as (Hc & Hr & Hx).
  rewrite Hc, Hr in Hle. rewrite Hc, Hr, Hx in Heq.
  unfold uncounted in Hle, Heq. cbn [calls requests excused Nat.add] in Hle, Heq.
  rewrite orb_false_r in Heq.
  split; [exact Hprefix|]. destruct Hprefix as [k Hk].
  split; [|split; [|split; [|split; [|split; [|split; [|split; [|split]]]]]]].
  - intros entry Hin. rewrite Hk in Hin.
    apply (Permutation_in _ (report_order_perm s)).
    rewrite <- (firstn_skipn k (report_order s)). apply in_or_app. left; exact Hin.
  - intros entry. unfold calls_for. rewrite Hk.
    eapply Nat.le_trans; [apply filter_firstn_length | apply at_most_once_in_report_order].
  - intros program Hp Hv entry Hin.
    destruct (@run_anatomy s rt d w Hd) as [(Hnone & _)|(_ & _ & _ & H)];
      [rewrite Hp in Hnone; discriminate|].
    destruct H as [(_ & _ & Hbad)|(_ & _ & _ & _ & _ & He & _)]; [contradiction|].
    fold r in He. unfold calls_for. rewrite He. apply once_in_report_order, Hin.
  - exact Hstep.
  - intros k' Hk'.
    rewrite <- (firstn_skipn k' (trace r)), watch_app, Hk', broken_stays in Hstep.
    discriminate.
  - exact Hle.
  - intros Hloaded Hquiet.
    assert (Hv : value r = Ok tt).
    { pose proof (run_ending s rt d w) as He. cbn zeta in He. fold r in He.
      destruct (value r) as [[]|e]; [reflexivity|]. exfalso.
      destruct He as [He _]. unfold on_last in He.
      destruct (last_call (watch ending_step nothing_yet (trace r))) as [ev|] eqn:E;
        [|discriminate].
      destruct (last_host_call_split _ E) as (before & after & Htr & _).
      rewrite Htr, existsb_app in Hquiet. cbn in Hquiet.
      apply orb_false_elim in Hquiet as [_ Hquiet].
      apply orb_false_elim in Hquiet as [Hquiet _].
      unfold excusing in Hquiet. apply orb_false_elim in Hquiet as [Hquiet _].
      destruct ev as [X c r'| | | | |]; try discriminate He.
      destruct r' as [x|x]; [discriminate He | discriminate Hquiet]. }
    split; [exact Hv|].
    destruct (@run_anatomy s rt d w Hd) as [(Hnone & _)|(_ & _ & _ & H)];
      [contradiction|].
    destruct H as [(_ & _ & Hbad)|(_ & _ & _ & _ & _ & He & _)]; [contradiction|].
    fold r in He. split; [exact He|].
    rewrite (Heq Hquiet), He. apply Permutation_length, report_order_perm.
  - apply raising_call_is_last.
  - intros decompiler program rva name d' w'. cbn zeta.
    destruct (decompile_function_at_address_goes_on rt decompiler program rva name d' w')
      as (G1 & G2 & G3).
    split; [apply decompile_function_at_address_asks|].
    repeat (split; [assumption|]).
    apply decompile_function_at_address_gives_up.
Qed.

Lemma every_target_decompiled_once_witness :
  let r := exec calm (run Pathfinding) (TARGET_FUNCTIONS_RVA Pathfinding) tt in
  Permutation (TARGET_FUNCTIONS_RVA Pathfinding) (TARGET_FUNCTIONS_RVA Pathfinding)
  /\ value r = Ok tt
  /\ calls_for (0xC51270, "MapRouteSearcher$$Search"%string) (trace r) = 1%nat
  /\ List.length (pick decompilation_asked (trace r)) = 17%nat.
Proof.
  destruct (@every_target_decompiled_once Pathfinding calm (TARGET_FUNCTIONS_RVA Pathfinding) tt
              (Permutation_refl _))
    as (_ & _ & _ & Honce & _ & _ & _ & Hall & _).
  destruct Hall as (Hv & _ & Hn); [discriminate | vm_compute; reflexivity |].
  split; [apply Permutation_refl|]. split; [exact Hv|]. split.
  - apply (Honce (Obj 1)); [reflexivity | exact Hv | left; reflexivity].
  - exact Hn.
Defined.

(** ** C1 and C7: the report *)

Lemma groupedb_grouped (l : list string) : groupedb l = true -> grouped l.
Proof.
  unfold groupedb, grouped. intros H i j k a b [Hij Hjk] Hi Hj Hk.
  assert (Bi : In i (seq 0 (List.length l))).
  { apply in_seq. split; [lia|]. apply nth_error_Some. rewrite Hi; discriminate. }
  assert (Bj : In j (seq 0 (List.length l))).
  { apply in_seq. split; [lia|]. apply nth_error_Some. rewrite Hj; discriminate. }
  assert (Bk : In k (seq 0 (List.length l))).
  { apply in_seq. split; [lia|]. apply nth_error_Some. rewrite Hk; discriminate. }
  rewrite forallb_forall in H. specialize (H i Bi).
  rewrite forallb_forall in H. specialize (H j Bj).
  rewrite forallb_forall in H. specialize (H k Bk).
  rewrite Hi, Hj, Hk in H.
  apply Nat.ltb_lt in Hij, Hjk. rewrite Hij, Hjk, String.eqb_refl in H. cbn in H.
  apply String.eqb_eq, H.
Qed.

Lemma report_classes_grouped (s : script) : grouped (report_classes s).
Proof. apply groupedb_grouped. destruct s; vm_compute; reflexivity. Qed.

Lemma blocks_length (s : script) ib prev entries outs :
  List.length outs = List.length entries ->
  List.length (blocks s ib prev entries outs) = List.length entries.
Proof.
  revert prev outs. induction entries as [|[rva name] entries IH]; intros prev [|out outs] H;
    cbn in *; try reflexivity; try discriminate.
  f_equal. apply IH. congruence.
Qed.



(** What [run] hands to [f.write]. *)
Lemma written_report (s : script) (rt : runtime) (d : dict) (w : world rt) :
  Permutation d (TARGET_FUNCTIONS_RVA s) ->
  let tr := trace (exec rt (run s) d w) in
  forall data, In data (pick written tr) ->
  exists program_name image_base types_parsed outs,
    data = PyStr.join newline (report s program_name image_base types_parsed outs)
    /\ List.length outs = List.length (report_order s)
    /\ pick returned tr = map ret_pair outs
    /\ hd_error (pick offset_answered tr) = Some image_base.
Proof.
  intros Hd tr data Hin.
  destruct (@run_anatomy s rt d w Hd) as [(_ & Htr & _)|(_ & _ & _ & H)].
  - unfold tr in Hin. rewrite Htr in Hin. destruct Hin.
  - destruct H as [(Hnone & _)|(name & ib & tp & outs & Hlen & _ & Hret & Hib & Hdata & _)].
    + unfold tr in Hin. rewrite Hnone in Hin. destruct Hin.
    + exists name, ib, tp, outs. rewrite Forall_forall in Hdata. auto.
Qed.

(** C1.  The text [run] writes is the preamble followed by one block per
    entry, in the order of the loop, and in that order the entries of one
    class stand together: no block of another class comes between two
    blocks of the same class. *)
Theorem report_grouped_by_class (s : script) (rt : runtime) (d : dict) (w : world rt)
    (data : string) :
  Permutation d (TARGET_FUNCTIONS_RVA s) ->
  In data (pick written (trace (exec rt (run s) d w))) ->
  exists program_name image_base types_parsed outs,
    data = PyStr.join newline
             (preamble s program_name image_base types_parsed
              ++ List.concat (blocks s image_base EmptyString (report_order s) outs))
    /\ List.length (blocks s image_base EmptyString (report_order s) outs)
       = List.length (report_order s)
    /\ Permutation (report_order s) (TARGET_FUNCTIONS_RVA s)
    /\ grouped (map (fun entry => class_of (snd entry)) (report_order s)).
Proof.
  intros Hd Hin.
  destruct (written_report s rt w Hd data Hin) as (name & ib & tp & outs & Hdata & Hlen & _).
  exists name, ib, tp, outs. repeat split.
  - exact Hdata.
  - apply blocks_length, Hlen.
  - apply report_order_perm.
  - apply (report_classes_grouped s).
Qed.

Lemma report_grouped_by_class_witness :
  exists program_name image_base types_parsed outs,
    PyStr.join newline (report Magic "GameAssembly.dll" 0x180000000 true
                          (List.repeat (Some "void f(void) {}", None) 28))
    = PyStr.join newline
        (preamble Magic program_name image_base types_parsed
         ++ List.concat (blocks Magic image_base EmptyString (report_order Magic) outs))
    /\ List.length (blocks Magic image_base EmptyString (report_order Magic) outs)
       = List.length (report_order Magic)
    /\ Permutation (report_order Magic) (TARGET_FUNCTIONS_RVA Magic)
    /\ grouped (map (fun entry => class_of (snd entry)) (report_order Magic)).
Proof.
  apply (@report_grouped_by_class Magic calm (TARGET_FUNCTIONS_RVA Magic) tt).
  - apply Permutation_refl.
  - vm_compute. left. reflexivity.
Defined.



(** ** C2: the order of the steps *)

(** C2 as written ("written at most once") does not hold: when closing the
    file of the first attempt raises, the fallback writes the text a
    second time. *)
Lemma output_written_twice :
  ~ (List.length
       (pick written
          (trace (exec full_disk (run Pathfinding) (TARGET_FUNCTIONS_RVA Pathfinding) tt)))
     <= 1)%nat.
Proof. vm_compute. intros H. inversion H as [|n H']. inversion H'. Qed.

(** C2, amended.  Along any run the marking events keep the order of the
    steps: the call and return of [parse_il2cpp_header] come before the
    call of [apply_il2cpp_symbols], every [createLabel] before the first
    call of [decompile_function_at_address] and the first
    [decompileFunction], and every one of those before the output file is
    opened or written.  The output is written at most twice, with the same
    text, a second time only after a host call has raised since the first,
    and only once all entries have been gone through. *)
Theorem steps_in_order (s : script) (rt : runtime) (d : dict) (w : world rt) :
  Permutation d (TARGET_FUNCTIONS_RVA s) ->
  let tr := trace (exec rt (run s) d w) in
  StronglySorted le (pick stage tr)
  /\ (List.length (pick written tr) <= 2)%nat
  /\ (exists text, Forall (fun data => data = text) (pick written tr))
  /\ writes_guarded false tr = true
  /\ (pick written tr <> [] \/ pick opened_for_writing tr <> [] ->
      pick entered tr = report_order s).
Proof.
  intros Hd tr.
  destruct (@run_anatomy s rt d w Hd) as [(_ & Htr & _)|(_ & Hs & _ & H)].
  - unfold tr. rewrite Htr. cbn. repeat split.
    + constructor.
    + lia.
    + exists EmptyString. constructor.
    + intros [H|H]; contradiction.
  - fold tr in Hs, H. split; [exact Hs|].
    destruct H
      as [(Hw & Ho & _)|(name & ib & tp & outs & _ & He & _ & _ & Hdata & Hn & Hg)].
    + rewrite (writes_guarded_none false tr Hw), Hw, Ho. cbn. repeat split.
      * lia.
      * exists EmptyString. constructor.
      * intros [H|H]; contradiction.
    + repeat split.
      * exact Hn.
      * eexists. exact Hdata.
      * exact Hg.
      * intros _. exact He.
Qed.

Lemma steps_in_order_witness :
  StronglySorted le
    (pick stage (trace (exec calm (run Magic) (TARGET_FUNCTIONS_RVA Magic) tt))).
Proof.
  apply (@steps_in_order Magic calm (TARGET_FUNCTIONS_RVA Magic) tt (Permutation_refl _)).
Defined.

(** ** C4: what [decompile_function_at_address] returns *)

(** C4 as written ("never propagates an exception") does not hold: the three
    calls before the [try] are not guarded. *)
Lemma decompile_function_at_address_propagates :
  value (exec closed
           (decompile_function_at_address (Obj 12) (Obj 1) 0xC51270 "MapRouteSearcher$$Search")
           (TARGET_FUNCTIONS_RVA Pathfinding) tt)
  = Err (HostError "program is closed").
Proof. reflexivity. Qed.

(** C4, amended.  A call of [decompile_function_at_address] ends in one of
    three ways.  It raises exactly the exception that
    [program.getAddressFactory()], [program.getImageBase()] or
    [.getOffset()] raised before the [try]; or it returns [(code, None)],
    exactly when the decompiler reported completion, yielded a decompiled
    function and that function gave [code]; or it returns
    [(None, message)], in every other case. *)
Theorem decompile_function_at_address_outcome (rt : runtime) (d : dict) (w : world rt)
    (decompiler program : obj) (rva : Z) (name : string) :
  let r := exec rt (decompile_function_at_address decompiler program rva name) d w in
  match value r with
  | Err e => pick prelude_fault (trace r) = [e]
  | Ok (Some code, None) =>
      pick prelude_fault (trace r) = [] /\ completed_with (trace r) code
  | Ok (None, Some message) =>
      pick prelude_fault (trace r) = [] /\ forall code, ~ completed_with (trace r) code
  | Ok _ => False
  end.
Proof.
  cbn zeta. unfold decompile_function_at_address, def, completed_with. cbn.
  symex;
    first
      [ reflexivity
      | split; [reflexivity|]; intros code (H1 & [f H2] & H3); cbn in *;
        intuition discriminate
      | split; [reflexivity|]; cbn; eauto 8 ].
Qed.

(** ** C5: what [parse_il2cpp_header] returns *)

(** C5 as written ("returns True whenever the primary parse call
    returns") does not hold: the count of the data types that follows a parse is
    inside the same [try], and when it raises the result is that of the
    alternative method. *)
Lemma parse_il2cpp_header_false_after_parse :
  let r := exec unlisted (parse_il2cpp_header (Obj 1)) (TARGET_FUNCTIONS_RVA Pathfinding) tt in
  pick parse_answer (trace r) = [Some (Obj 3)] /\ value r = Ok false.
Proof. split; reflexivity. Qed.

(** C5, amended.  [parse_il2cpp_header] always returns a boolean.  It is
    [False], and no call reaches the program, when the header file does
    not exist.  It is [True] when the primary parse returns [None], and
    when it returns a result and the count of the data types that follows
    does not raise.  When the primary parse or that count raises, it is
    [True] if and only if the alternative method runs to its end. *)
Theorem parse_il2cpp_header_outcome (rt : runtime) (d : dict) (w : world rt)
    (program : obj) :
  let r := exec rt (parse_il2cpp_header program) d w in
  exists b,
    value r = Ok b
    /\ (file_exists rt IL2CPP_HEADER_PATH w = false ->
        b = false /\ filter called (trace r) = [])
    /\ (In None (pick parse_answer (trace r)) -> b = true)
    /\ ((exists parsed, In (Some parsed) (pick parse_answer (trace r))) ->
        pick count_fault (trace r) = [] -> b = true)
    /\ (pick parse_fault (trace r) <> [] \/ pick count_fault (trace r) <> [] ->
        (b = true <-> alternative_completed (trace r))).
Proof.
  cbn zeta. unfold parse_il2cpp_header, def, count_data_types, alternative_completed. cbn.
  destruct (file_exists rt IL2CPP_HEADER_PATH w) eqn:Hex; cbn; symex;
    (eexists; split; [reflexivity|]); settle.
Qed.

(** ** C6: the labels [apply_il2cpp_symbols] creates *)

Lemma label_log_app (P : Z -> string -> Prop) t1 t2 n1 n2 :
  label_log P t1 n1 -> label_log P t2 n2 -> label_log P (t1 ++ t2) (n1 + n2).
Proof.
  intros H1 H2. induction H1 as [|e tr n He _ IH|sp a st off l r tr n HP _ IH]; cbn.
  - exact H2.
  - apply log_other; assumption.
  - replace ((match r with Ok _ => S n | Err _ => n end) + n2)%nat
      with (match r with Ok _ => S (n + n2) | Err _ => (n + n2)%nat end)
      by (destruct r; reflexivity).
    apply log_label; assumption.
Qed.

Lemma label_log_impl (P Q : Z -> string -> Prop) tr n :
  (forall off l, P off l -> Q off l) -> label_log P tr n -> label_log Q tr n.
Proof.
  intros H. induction 1 as [|e tr n He _ IH|sp a st off l r tr n HP _ IH].
  - constructor.
  - apply log_other; assumption.
  - apply log_label; auto.
Qed.

Section Labels.

Variable rt : runtime.
Variable d : dict.
Variable P : Z -> string -> Prop.
Variables symbol_table address_factory : obj.
Variable image_base : Z.

Lemma label_targets_log (addr name : json) (targets : dict) :
  (forall s target offset,
     name = JStr s -> In target (map snd targets) ->
     s = target \/ PyStr.replace "." "$$" s = target ->
     PyVal.add image_base addr = Ok offset -> P offset (clean s)) ->
  forall applied w,
    let r := exec rt (label_targets symbol_table address_factory image_base
                        addr name targets applied) d w in
    exists created,
      label_log P (trace r) created
      /\ forall n, value r = Ok n -> n = applied + Z.of_nat created.
Proof.
  induction targets as [|[rva target] rest IH]; intros HP applied w; cbn zeta.
  - exists 0%nat. cbn. split; [constructor|]. intros n E. injection E as <-. lia.
  - assert (IH' : forall applied w,
              exists created,
                label_log P (trace (exec rt (label_targets symbol_table address_factory
                                               image_base addr name rest applied) d w)) created
                /\ forall n, value (exec rt (label_targets symbol_table address_factory
                                               image_base addr name rest applied) d w) = Ok n ->
                             n = applied + Z.of_nat created).
    { intros. apply IH. intros s t off Hn Hin. apply HP; [exact Hn | right; exact Hin]. }
    clear IH. cbn [label_targets].
    assert (Hstep : forall s,
              name = JStr s ->
              (s = target \/ PyStr.replace "." "$$" s = target) ->
              exists created,
                label_log P
                  (trace (exec rt
                     (applied' <-
                        try_
                          (space <- host (getDefaultAddressSpace address_factory) ;;
                           offset <- eval (PyVal.add image_base addr) ;;
                           ghidra_addr <- host (getAddress space offset) ;;
                           renamed <- eval (PyVal.replace name "$$" "__") ;;
                           host (createLabel symbol_table ghidra_addr
                                   (PyStr.replace "," "_"
                                      (PyStr.replace ">" "_"
                                         (PyStr.replace "<" "_" renamed)))) ;;
                           Ret (applied + 1))
                          (fun _ => Ret applied) ;;
                      label_targets symbol_table address_factory image_base addr name
                        rest applied') d w)) created
                /\ forall n,
                     value (exec rt
                       (applied' <-
                          try_
                            (space <- host (getDefaultAddressSpace address_factory) ;;
                             offset <- eval (PyVal.add image_base addr) ;;
                             ghidra_addr <- host (getAddress space offset) ;;
                             renamed <- eval (PyVal.replace name "$$" "__") ;;
                             host (createLabel symbol_table ghidra_addr
                                     (PyStr.replace "," "_"
                                        (PyStr.replace ">" "_"
                                           (PyStr.replace "<" "_" renamed)))) ;;
                             Ret (applied + 1))
                            (fun _ => Ret applied) ;;
                        label_targets symbol_table address_factory image_base addr name
                          rest applied') d w) = Ok n ->
                     n = applied + Z.of_nat created).
    { intros s Hname Hmatch. subst name. cbn.
      destruct (respond rt (getDefaultAddressSpace address_factory) w) as [[space|e] w1]; cbn.
      - destruct (PyVal.add image_base addr) as [offset|e] eqn:Hadd; cbn.
        + destruct (respond rt (getAddress space offset) w1) as [[ga|e] w2]; cbn.
          * destruct (respond rt (createLabel symbol_table ga
                        (PyStr.replace "," "_" (PyStr.replace ">" "_"
                           (PyStr.replace "<" "_" (PyStr.replace "$$" "__" s))))) w2)
              as [[[]|e] w3] eqn:Hc; cbn;
              match goal with
              | |- context [exec rt (label_targets _ _ _ _ _ _ ?a) d ?w'] =>
                  destruct (IH' a w') as (c & Hl & Hv)
              end.
            -- exists (S c). split.
               ++ apply log_other; [reflexivity|].
                  apply (@log_label P space ga symbol_table offset _ (Ok tt)); [|exact Hl].
                  apply (HP s target offset eq_refl); [left; reflexivity | exact Hmatch | reflexivity].
               ++ intros n E. apply Hv in E. lia.
            -- exists c. split.
               ++ apply log_other; [reflexivity|].
                  apply (@log_label P space ga symbol_table offset _ (Err e)); [|exact Hl].
                  apply (HP s target offset eq_refl); [left; reflexivity | exact Hmatch | reflexivity].
               ++ exact Hv.
          * destruct (IH' applied w2) as (c & Hl & Hv). exists c. split; [|exact Hv].
            apply log_other; [reflexivity|]. apply log_other; [reflexivity|]. exact Hl.
        + destruct (IH' applied w1) as (c & Hl & Hv). exists c. split; [|exact Hv].
          apply log_other; [reflexivity|]. exact Hl.
      - destruct (IH' applied w1) as (c & Hl & Hv). exists c. split; [|exact Hv].
        apply log_other; [reflexivity|]. exact Hl. }
    destruct name as [| | |s| |]; cbn.
    4: { destruct (String.eqb s target) eqn:E1; cbn.
         - apply String.eqb_eq in E1. apply (Hstep s eq_refl). left; exact E1.
         - destruct (String.eqb (PyStr.replace "." "$$" s) target) eqn:E2; cbn.
           + apply String.eqb_eq in E2. apply (Hstep s eq_refl). right; exact E2.
           + apply IH'. }
    all: exists 0%nat; split; [constructor | intros; discriminate].
Qed.

Lemma label_methods_log (all methods : list json) :
  (forall method, In method methods -> In method all) ->
  (forall method addr s target offset,
     In method all ->
     PyVal.get method "Address" = Ok addr -> PyVal.get method "Name" = Ok (JStr s) ->
     PyVal.truthy addr = true -> PyStr.truthy s = true ->
     In target (map snd d) ->
     s = target \/ PyStr.replace "." "$$" s = target ->
     PyVal.add image_base addr = Ok offset -> P offset (clean s)) ->
  forall applied w,
    let r := exec rt (label_methods symbol_table address_factory image_base
                        methods applied) d w in
    exists created,
      label_log P (trace r) created
      /\ forall n, value r = Ok n -> n = applied + Z.of_nat created.
Proof.
  induction methods as [|method rest IH]; intros Hsub HP applied w; cbn zeta.
  - exists 0%nat. cbn. split; [constructor|]. intros n E. injection E as <-. lia.
  - assert (IH' : forall applied w,
              exists created,
                label_log P (trace (exec rt (label_methods symbol_table address_factory
                                               image_base rest applied) d w)) created
                /\ forall n, value (exec rt (label_methods symbol_table address_factory
                                               image_base rest applied) d w) = Ok n ->
                             n = applied + Z.of_nat created).
    { intros. apply IH; [|exact HP]. intros m Hm. apply Hsub. right; exact Hm. }
    clear IH. cbn [label_methods].
    destruct (PyVal.get method "Address") as [addr|e] eqn:Haddr; cbn;
      [|exists 0%nat; split; [constructor | intros; discriminate]].
    destruct (PyVal.get method "Name") as [name|e] eqn:Hname; cbn;
      [|exists 0%nat; split; [constructor | intros; discriminate]].
    destruct (PyVal.truthy addr && PyVal.truthy name) eqn:Htruthy; cbn; [|apply IH'].
    apply andb_prop in Htruthy as [Ht1 Ht2].
    rewrite exec_bind.
    pose proof (@label_targets_log addr name d) as H1.
    assert (HP1 : forall s target offset,
              name = JStr s -> In target (map snd d) ->
              s = target \/ PyStr.replace "." "$$" s = target ->
              PyVal.add image_base addr = Ok offset -> P offset (clean s)).
    { intros s target offset -> Hin Hm Hadd.
      apply (HP method addr s target offset); auto. apply Hsub. left; reflexivity. }
    specialize (H1 HP1 applied w). cbn zeta in H1. destruct H1 as (c1 & Hl1 & Hv1).
    pose proof (@reads_only_table rt _ _ d w
                  (label_targets_reads_only symbol_table address_factory image_base
                     addr name d applied)) as Htb.
    destruct (exec rt (label_targets symbol_table address_factory image_base addr name
                         d applied) d w) as [v1 tr1 tb1 w1].
    cbn in Hl1, Hv1, Htb. subst tb1. unfold then_, prepend; cbn.
    destruct v1 as [applied'|e]; cbn.
    + destruct (IH' applied' w1) as (c2 & Hl2 & Hv2).
      exists (c1 + c2)%nat. split; [apply label_log_app; assumption|].
      intros n E. apply Hv2 in E. specialize (Hv1 applied' eq_refl). lia.
    + exists c1. split; [exact Hl1 | intros; discriminate].
Qed.

End Labels.

Lemma label_log_count (P : Z -> string -> Prop) (tr : list event) (n : nat) :
  label_log P tr n -> n = List.length (filter label_created tr).
Proof.
  induction 1 as [|e tr n He _ IH|sp a st off l r tr n HP _ IH]; cbn.
  - reflexivity.
  - unfold label_created. rewrite He. exact IH.
  - destruct r; cbn; rewrite IH; reflexivity.
Qed.

Lemma label_event_unreported (tr : list event) :
  Forall (fun e => label_event e = true) tr -> pick fault_reported tr = [].
Proof.
  intros H. apply pick_none. revert H. apply Forall_impl.
  intros [X c r'| | | | |]; cbn; intros E; try reflexivity; discriminate.
Qed.

(** C6 as written ("the returned count equals the number of createLabel
    calls that did not raise") does not hold: an entry of [ScriptMethod]
    that is no object raises outside the guard of the single label, and
    the outer handler returns 0 whatever was created before. *)
Lemma apply_il2cpp_symbols_forgets_labels :
  let r := exec stray (apply_il2cpp_symbols (Obj 1)) (TARGET_FUNCTIONS_RVA Pathfinding) tt in
  List.length (filter (fun e => labelled e && negb (raised e)) (trace r)) = 1%nat
  /\ value r = Ok 0.
Proof. split; reflexivity. Qed.

Ltac quit :=
  subst; cbn; exists 0, 0%nat;
  (split; [reflexivity|]);
  (split; [repeat (apply log_other; [reflexivity|]); constructor|]);
  (split; [reflexivity|]);
  (split; [intros _; reflexivity|]);
  (split; [intros _; reflexivity|]);
  intros _; split; reflexivity.

(** C6, amended.  [apply_il2cpp_symbols] always returns a number.  Every
    [createLabel] request in its trace is for an entry of
    [data["ScriptMethod"]] whose [Address] and [Name] are truthy and whose
    name matches a target name as it is or with every ["."] replaced by
    ["$$"]; it is made on the address the host gave for
    [image_base + Address] and with the cleaned name.  The number returned
    is the number of requests that did not raise when the function reaches
    its last line, and it is 0 whenever the outer handler ran (which
    prints the error), whatever labels were created before; it is 0, and
    no label is requested, when [script.json] is missing or cannot be
    opened, read or closed. *)
Theorem apply_il2cpp_symbols_outcome (rt : runtime) (d : dict) (w : world rt)
    (program : obj) :
  let r := exec rt (apply_il2cpp_symbols program) d w in
  exists n created,
    value r = Ok n
    /\ label_log
         (fun offset label =>
            exists data image_base,
              hd_error (pick loaded (trace r)) = Some data
              /\ hd_error (pick offset_answered (trace r)) = Some image_base
              /\ wanted d image_base data offset label)
         (trace r) created
    /\ created = List.length (filter label_created (trace r))
    /\ (pick fault_reported (trace r) = [] -> n = Z.of_nat created)
    /\ (pick fault_reported (trace r) <> [] -> n = 0)
    /\ (file_exists rt SCRIPT_JSON_PATH w = false \/ pick load_fault (trace r) <> [] ->
        n = 0 /\ created = 0%nat).
Proof.
  cbn zeta. remember (exec rt (apply_il2cpp_symbols program) d w) as r eqn:Er.
  unfold apply_il2cpp_symbols, def, with_, attempt in Er. cbn in Er.
  destruct (file_exists rt SCRIPT_JSON_PATH w) eqn:Hex; cbn in Er; [|quit].
  destruct (respond rt (codecs_open SCRIPT_JSON_PATH "r" "utf-8") w) as [[f|e] w1];
    cbn in Er; [|quit].
  destruct (respond rt (json_load f) w1) as [[data|e] w2]; cbn in Er.
  2: { destruct (respond rt (file_close f) w2) as [[[]|e'] w3]; cbn in Er; quit. }
  destruct (respond rt (file_close f) w2) as [[[]|e] w3]; cbn in Er; [|quit].
  destruct (respond rt (getSymbolTable program) w3) as [[st|e] w4]; cbn in Er; [|quit].
  destruct (respond rt (getAddressFactory program) w4) as [[af|e] w5]; cbn in Er; [|quit].
  destruct (respond rt (getImageBase program) w5) as [[base|e] w6]; cbn in Er; [|quit].
  destruct (respond rt (getOffset base) w6) as [[ib|e] w7]; cbn in Er; [|quit].
  destruct (PyVal.contains "ScriptMethod" data) as [[|]|e] eqn:Hin; cbn in Er;
    [|quit|quit].
  destruct (PyVal.getitem data "ScriptMethod") as [listed|e] eqn:Hget; cbn in Er; [|quit].
  destruct (PyVal.iterate listed) as [methods|e] eqn:Hit; cbn in Er; [|quit].
  rewrite exec_try, exec_bind, exec_try, exec_bind in Er.
  assert (HP : forall method addr s target offset,
            In method methods ->
            PyVal.get method "Address" = Ok addr -> PyVal.get method "Name" = Ok (JStr s) ->
            PyVal.truthy addr = true -> PyStr.truthy s = true ->
            In target (map snd d) ->
            s = target \/ PyStr.replace "." "$$" s = target ->
            PyVal.add ib addr = Ok offset -> wanted d ib data offset (clean s)).
  { intros method addr s target offset H1 H2 H3 H4 H5 H6 H7 H8.
    exists method, addr, s, target. unfold methods_of. rewrite Hin, Hget, Hit.
    repeat split; assumption. }
  destruct (@label_methods_log rt d (wanted d ib data) st af ib methods methods
              (fun m H => H) HP 0 w7) as (created & Hlog & Hval).
  pose proof (label_log_count Hlog) as Hcount.
  pose proof (@emits_only_trace rt label_event _ (label_methods st af ib methods 0) d w7
                (label_methods_events st af ib methods 0)) as Hev.
  assert (Hq1 : pick load_fault (trace (exec rt (label_methods st af ib methods 0) d w7)) = []).
  { apply pick_none; revert Hev; apply Forall_impl;
      intros [X c r'| | | | |]; cbn; intros E; try reflexivity; try discriminate;
      destruct c; try discriminate; destruct r'; reflexivity. }
  pose proof (label_event_unreported Hev) as Hq3. clear Hev HP.
  destruct (exec rt (label_methods st af ib methods 0) d w7) as [v tr tb w8].
  cbn in Hlog, Hval, Hq1, Hq3, Hcount.
  destruct v as [n|e]; unfold then_, rescue, prepend in Er; cbn in Er; subst r; cbn;
    rewrite <- ?app_assoc; cbn; [exists n, created | exists 0, created].
  - split; [reflexivity|]. split.
    + repeat (apply log_other; [reflexivity|]).
      replace created with (created + 0)%nat by lia. apply label_log_app.
      * revert Hlog. apply label_log_impl. intros offset label Hw.
        exists data, ib. split; [reflexivity|]. split; [reflexivity | exact Hw].
      * repeat (apply log_other; [reflexivity|]). constructor.
    + split; [rewrite filter_app, length_app; cbn; lia|].
      split; [intros _; specialize (Hval n eq_refl); lia|].
      split.
      * rewrite pick_app, Hq3. cbn. intros H. contradiction.
      * intros [H|H]; [discriminate|]. rewrite pick_app, Hq1 in H. contradiction.
  - split; [reflexivity|]. split.
    + repeat (apply log_other; [reflexivity|]).
      replace created with (created + 0)%nat by lia. apply label_log_app.
      * revert Hlog. apply label_log_impl. intros offset label Hw.
        exists data, ib. split; [reflexivity|]. split; [reflexivity | exact Hw].
      * repeat (apply log_other; [reflexivity|]). constructor.
    + split; [rewrite filter_app, length_app; cbn; lia|].
      split.
      * rewrite pick_app. cbn. rewrite prefix_empty. cbn.
        intros H. apply app_eq_nil in H. destruct H as [_ H]. discriminate.
      * split; [intros _; reflexivity|].
        intros [H|H]; [discriminate|]. rewrite pick_app, Hq1 in H. contradiction.
Qed.

(** * Further properties of the scripts *)

(** ** What [decompile_function_at_address] asks for, and what it reports *)

(** X1.  What [decompile_function_at_address] asks of the host.  The
    function is looked for at the very address [getAddress] gave.
    [createFunction] is called only after [getFunctionAt] answered [None],
    and always then; it is called on that same address, with the entry's
    name in which every ["$$"] is replaced by ["_"].  At most one
    decompilation is requested: it is for the decompiler passed in, with a
    timeout of 120 seconds, on the function that was found or, if none
    was, on the one that was created. *)
Theorem decompile_function_at_address_requests (rt : runtime) (d : dict) (w : world rt)
    (decompiler program : obj) (rva : Z) (name : string) :
  let tr := trace (exec rt (decompile_function_at_address decompiler program rva name) d w) in
  pick function_sought tr = pick address_given tr
  /\ (pick creation_asked tr = []
      \/ exists addr,
           pick address_given tr = [addr]
           /\ pick function_found tr = [None]
           /\ pick creation_asked tr = [(addr, PyStr.replace "$$" "_" name)])
  /\ (pick function_found tr = [None] -> pick creation_asked tr <> [])
  /\ (pick decompilation_asked tr = []
      \/ exists func,
           pick decompilation_asked tr = [(decompiler, func, 120)]
           /\ (pick function_found tr = [Some func]
               \/ pick function_found tr = [None] /\ pick function_made tr = [Some func])).
Proof.
  cbn zeta. unfold decompile_function_at_address, def. cbn.
  symex; (split; [reflexivity|]); (split; [first [left; reflexivity | right; eauto]|]);
    (split; [intros; discriminate|]); first [left; reflexivity | right; eauto 6].
Qed.






(** ** What the console says of the output file *)

(** X3.  The output stage of [run] always returns, and what it prints
    last tells what happened to the output file.  It prints exactly one of
    three verdicts.  "Decompilation complete!" (followed by the two
    counters) means that no call raised: the file at [OUTPUT_PATH] was
    opened once, through [codecs.open] in mode ["w"] with encoding
    ["utf-8"], the text was written once and the file was closed.
    "Output written (fallback mode)" means that the first attempt raised
    and the second, through the built-in [open] on the same path, did not:
    there the text was written once and the file was closed.  "FALLBACK
    ALSO FAILED" means that both attempts raised.  The second attempt is
    made only in the last two cases. *)
Theorem write_output_verdict (s : script) (rt : runtime) (d : dict) (w : world rt)
    (t : tally) :
  let r := exec rt (write_output s t) d w in
  let text := PyStr.join newline (results t) in
  value r = Ok tt
  /\ match pick verdict_of (trace r) with
     | [Complete] =>
         filter raised (trace r) = []
         /\ pick open_request (trace r) = [(OUTPUT_PATH s, "w"%string, Some "utf-8"%string)]
         /\ pick written (trace r) = [text]
         /\ List.length (filter closed_well (trace r)) = 1%nat
         /\ In (Console ("  Success: " ++ PyStr.str_int (success_count t))%string) (trace r)
         /\ In (Console ("  Failed:  " ++ PyStr.str_int (fail_count t))%string) (trace r)
     | [Fallback] =>
         filter raised (first_attempt (trace r)) <> []
         /\ filter raised (second_attempt (trace r)) = []
         /\ pick open_request (trace r)
            = [(OUTPUT_PATH s, "w"%string, Some "utf-8"%string);
               (OUTPUT_PATH s, "w"%string, None)]
         /\ pick written (second_attempt (trace r)) = [text]
         /\ List.length (filter closed_well (second_attempt (trace r))) = 1%nat
     | [Failed] =>
         filter raised (first_attempt (trace r)) <> []
         /\ filter raised (second_attempt (trace r)) <> []
         /\ pick open_request (trace r)
            = [(OUTPUT_PATH s, "w"%string, Some "utf-8"%string);
               (OUTPUT_PATH s, "w"%string, None)]
     | _ => False
     end.
Proof.
  cbn zeta. unfold write_output. cbn.
  repeat (answer; cbn); (split; [reflexivity|]); rewrite ?prefix_empty;
    repeat split; try reflexivity; try discriminate; cbn; auto 12.
Qed.

(** ** Files are opened one at a time and always closed *)

Lemma off_files_step (st : handles) (e : event) : off_files e = true -> file_step st e = st.
Proof.
  destruct e as [X c r| | | | |]; try reflexivity. destruct c; try reflexivity; discriminate.
Qed.

(** A part of the script that touches no file leaves the files as they are. *)
Lemma off_files_closed {A : Type} (p : prog A) :
  emits_only off_files p -> obeys file_step (@files_closed A) (Holding None) p.
Proof.
  intros H. apply (obeys_invariant file_step off_files (fun st => st = Holding None)).
  - exact H.
  - intros st e He ->. apply off_files_step, He.
  - reflexivity.
Qed.

Ltac file_walk := repeat (cbn; rewrite ?obj_eqb_refl; try reflexivity; branch).

Lemma parse_il2cpp_header_files program :
  obeys file_step (@files_closed bool) (Holding None) (parse_il2cpp_header program).
Proof.
  unfold parse_il2cpp_header, count_data_types, files_closed. file_walk.
Qed.

Lemma label_event_off_files e : label_event e = true -> off_files e = true.
Proof.
  destruct e as [X c r| | | | |]; try reflexivity. destruct c; try reflexivity; discriminate.
Qed.

Lemma label_methods_off_files st af ib methods applied :
  emits_only off_files (label_methods st af ib methods applied).
Proof.
  apply (emits_only_impl label_event off_files); [exact label_event_off_files|].
  apply label_methods_events.
Qed.

Lemma apply_il2cpp_symbols_files program :
  obeys file_step (@files_closed Z) (Holding None) (apply_il2cpp_symbols program).
Proof.
  unfold apply_il2cpp_symbols, files_closed.
  cbn. intros [|]; cbn; [|reflexivity].
  repeat (cbn; rewrite ?obj_eqb_refl; try reflexivity;
          match goal with
          | |- forall _ : outcome _, _ => intros [?|?]
          end).
  apply (@off_files_closed Z).
  emits_only_walk ltac:(apply label_methods_off_files).
Qed.

Lemma decompile_function_at_address_off_files decompiler program rva name :
  emits_only off_files (decompile_function_at_address decompiler program rva name).
Proof. unfold decompile_function_at_address. emits_only_walk idtac. Qed.

Lemma decompile_entry_off_files decompiler program ib t rva name :
  emits_only off_files (decompile_entry decompiler program ib t rva name).
Proof.
  unfold decompile_entry.
  emits_only_walk ltac:(apply decompile_function_at_address_off_files).
Qed.

Lemma decompile_all_off_files s decompiler program ib t :
  emits_only off_files (decompile_all s decompiler program ib t).
Proof.
  unfold decompile_all. cbn. intros d.
  destruct s; apply emits_only_for_each; intros; apply decompile_entry_off_files.
Qed.

Lemma decompile_all_files s decompiler program ib t :
  obeys file_step (@files_closed tally) (Holding None)
    (decompile_all s decompiler program ib t).
Proof. apply off_files_closed, decompile_all_off_files. Qed.

Lemma write_output_files s t :
  obeys file_step (@files_closed unit) (Holding None) (write_output s t).
Proof. unfold write_output, files_closed. file_walk. Qed.

Ltac through spec :=
  subst; eapply obeys_bind;
    [apply spec | intros ? ? -> | intros ? ? H; exact H]; call_walk.

(** Whatever the host answers, and however [run] ends. *)
Lemma run_files s : obeys file_step (@files_closed unit) (Holding None) (run s).
Proof.
  unfold run. call_walk.
  through parse_il2cpp_header_files;
    through apply_il2cpp_symbols_files;
    through decompile_all_files;
    through write_output_files.
Qed.

Lemma misused_stays (tr : list event) : watch file_step Misused tr = Misused.
Proof.
  induction tr as [|e tr IH]; [reflexivity|].
  cbn [watch fold_left]. fold (watch file_step (file_step Misused e) tr).
  replace (file_step Misused e) with Misused; [exact IH|].
  destruct e as [X c r| | | | |]; try reflexivity. destruct c; reflexivity.
Qed.

(** X4.  Files are used one at a time and always closed.  Along any run
    of either script, whatever the host answers and however the run ends,
    a file is opened only while none is open; [read], [write],
    [json.load] and [close] go to the file that is open; and when the run
    ends, every file that was opened has had its [close] called, once. *)
Theorem files_one_at_a_time (s : script) (rt : runtime) (d : dict) (w : world rt) :
  let tr := trace (exec rt (run s) d w) in
  watch file_step (Holding None) tr = Holding None
  /\ forall k, watch file_step (Holding None) (firstn k tr) <> Misused.
Proof.
  intros tr.
  assert (H : watch file_step (Holding None) tr = Holding None)
    by apply (obeys_run file_step rt (@files_closed unit) (run s) (Holding None) d w),
             run_files.
  split; [exact H|]. intros k Hk.
  rewrite <- (firstn_skipn k tr), watch_app, Hk, misused_stays in H. discriminate.
Qed.

(** ** Symbol application on a [script.json] of the expected shape *)

Lemma label_targets_returns st af ib addr s targets applied :
  never_raises (label_targets st af ib addr (JStr s) targets applied).
Proof.
  revert applied. induction targets as [|[rva target] rest IH]; intros applied.
  - exact I.
  - cbn [label_targets]. never_raises_walk; apply IH.
Qed.

Lemma label_methods_returns st af ib methods applied :
  forallb well_formed_method methods = true ->
  never_raises (label_methods st af ib methods applied).
Proof.
  revert applied. induction methods as [|method rest IH]; intros applied H.
  - exact I.
  - cbn [forallb] in H. apply andb_prop in H as [Hm Hrest].
    cbn [label_methods]. destruct method as [| | | | |fields]; try discriminate Hm.
    cbn. cbn in Hm.
    destruct (PyVal.lookup "Address" fields) as [addr|]; cbn;
      [|apply IH, Hrest].
    destruct (PyVal.lookup "Name" fields) as [name|]; cbn;
      [|rewrite andb_false_r; cbn; apply IH, Hrest].
    destruct (PyVal.truthy addr && PyVal.truthy name) eqn:E; cbn; [|apply IH, Hrest].
    apply andb_prop in E as [_ E].
    destruct name as [| | |s| |]; try (rewrite E in Hm; discriminate Hm).
    intros d. apply never_raises_bind; [apply label_targets_returns|].
    intros a. apply IH, Hrest.
Qed.

Lemma label_event_quiet (tr : list event) :
  Forall (fun e => label_event e = true) tr ->
  pick loaded tr = [] /\ pick setup_fault tr = [] /\ pick fault_reported tr = [].
Proof.
  intros H. repeat split; apply pick_none; revert H; apply Forall_impl;
    intros [X c r'| | | | |]; cbn; intros E; try reflexivity; try discriminate;
    destruct c; try discriminate; destruct r'; reflexivity.
Qed.

(** X5.  Symbol application on a [script.json] of the expected shape.
    When the file loads as an object whose [ScriptMethod], if it has one,
    is a list of objects, each with a [Name] that is a string (or falsy,
    or missing), and when loading it and asking the program for its
    symbol table, address factory and image base do not raise, then
    [apply_il2cpp_symbols] does not reach its outer handler: it returns,
    and prints in the "Applied ... IL2CPP symbols" line, the number of
    [createLabel] calls that returned, even when some of those calls, or
    the address computations before them, raised. *)
Theorem apply_il2cpp_symbols_counts (rt : runtime) (d : dict) (w : world rt)
    (program : obj) (data : json) :
  let r := exec rt (apply_il2cpp_symbols program) d w in
  let n := Z.of_nat (List.length (filter label_created (trace r))) in
  pick loaded (trace r) = [data] ->
  well_formed data = true ->
  pick setup_fault (trace r) = [] ->
  value r = Ok n
  /\ pick fault_reported (trace r) = []
  /\ In (applied_line n) (trace r).
Proof.
  cbn zeta. remember (exec rt (apply_il2cpp_symbols program) d w) as r eqn:Er.
  unfold apply_il2cpp_symbols, def, with_, attempt in Er. cbn in Er.
  destruct (file_exists rt SCRIPT_JSON_PATH w) eqn:Hex; cbn in Er;
    [|subst r; cbn; intros H1; discriminate H1].
  destruct (respond rt (codecs_open SCRIPT_JSON_PATH "r" "utf-8") w) as [[f|e] w1];
    cbn in Er; [|subst r; cbn; intros H1; discriminate H1].
  destruct (respond rt (json_load f) w1) as [[data0|e] w2]; cbn in Er.
  2: { destruct (respond rt (file_close f) w2) as [[[]|e'] w3]; cbn in Er;
         subst r; cbn; intros H1; discriminate H1. }
  destruct (respond rt (file_close f) w2) as [[[]|e] w3]; cbn in Er;
    [|subst r; cbn; intros _ _ H3; discriminate H3].
  destruct (respond rt (getSymbolTable program) w3) as [[st|e] w4]; cbn in Er;
    [|subst r; cbn; intros _ _ H3; discriminate H3].
  destruct (respond rt (getAddressFactory program) w4) as [[af|e] w5]; cbn in Er;
    [|subst r; cbn; intros _ _ H3; discriminate H3].
  destruct (respond rt (getImageBase program) w5) as [[base|e] w6]; cbn in Er;
    [|subst r; cbn; intros _ _ H3; discriminate H3].
  destruct (respond rt (getOffset base) w6) as [[ib|e] w7]; cbn in Er;
    [|subst r; cbn; intros _ _ H3; discriminate H3].
  match type of Er with
  | context [exec rt ?p d w7] => set (rest := exec rt p d w7) in Er
  end.
  assert (Hd : pick loaded (trace r) = [data] -> data0 = data).
  { subst r. cbn. intros H1. injection H1 as H1. exact H1. }
  intros H1 H2 _. apply Hd in H1. subst data0. clear Hd.
  destruct data as [| | | | |fields]; try discriminate H2. cbn in H2.
  destruct (PyVal.lookup "ScriptMethod" fields) as [listed|] eqn:Hl.
  2: { subst r rest. cbn. rewrite Hl. cbn. repeat split; auto 20. }
  destruct listed as [| | | |methods|]; try discriminate H2.
  subst rest. cbn in Er. rewrite Hl in Er. cbn in Er.
  rewrite exec_try, exec_bind, exec_try, exec_bind in Er.
  destruct (never_raises_value rt _ d w7
              (label_methods_returns st af ib methods 0 H2)) as [n0 Hv].
  destruct (@label_methods_log rt d (fun _ _ => True) st af ib methods methods
              (fun m H => H) ltac:(intros; exact I) 0 w7) as (created & Hlog & Hval).
  apply label_log_count in Hlog.
  destruct (label_event_quiet
              (@emits_only_trace rt label_event _ (label_methods st af ib methods 0) d w7
                 (label_methods_events st af ib methods 0))) as (_ & _ & Hq).
  destruct (exec rt (label_methods st af ib methods 0) d w7) as [v tr tb w8].
  cbn in Hv, Hlog, Hval, Hq. subst v. specialize (Hval n0 eq_refl).
  unfold then_, rescue, prepend in Er; cbn in Er. subst r. cbn.
  rewrite !filter_app, !pick_app, !length_app, Hq. cbn. rewrite !Nat.add_0_r, <- Hlog.
  subst n0. repeat split.
  repeat right. apply in_or_app. left. apply in_or_app. right. left. reflexivity.
Qed.

Lemma apply_il2cpp_symbols_counts_witness :
  let r := exec calm (apply_il2cpp_symbols (Obj 1)) (TARGET_FUNCTIONS_RVA Pathfinding) tt in
  pick loaded (trace r) = [sample_json]
  /\ well_formed sample_json = true
  /\ pick setup_fault (trace r) = []
  /\ value r = Ok 2.
Proof.
  split; [reflexivity|]. split; [reflexivity|]. split; [reflexivity|].
  apply (@apply_il2cpp_symbols_counts calm (TARGET_FUNCTIONS_RVA Pathfinding) tt (Obj 1)
           sample_json); reflexivity.
Defined.

(** ** The names of the labels *)

Lemma prefix_step (b : ascii) (sub : string) (a : ascii) (s : string) :
  String.prefix (String b sub) (String a s)
  = if Ascii.ascii_dec b a then String.prefix sub s else false.
Proof. reflexivity. Qed.

Lemma contains_step (sub : string) (a : ascii) (s : string) :
  PyStr.contains sub (String a s)
  = if String.prefix sub (String a s) then true else PyStr.contains sub s.
Proof. reflexivity. Qed.

Section Replace_char.

Variable c : ascii.
Hypothesis c_no_underscore : c <> "_"%char.

Let swap (s : string) : string := PyStr.replace (String c EmptyString) "_" s.

Lemma replace_char_step (a : ascii) (s : string) :
  swap (String a s) = String (if Ascii.eqb a c then "_"%char else a) (swap s).
Proof.
  unfold swap, PyStr.replace. cbn [PyStr.replace_from String.length Nat.sub].
  rewrite prefix_step, prefix_empty.
  destruct (Ascii.ascii_dec c a) as [<-|Hne].
  - rewrite Ascii.eqb_refl. reflexivity.
  - destruct (Ascii.eqb a c) eqn:E; [|reflexivity].
    apply Ascii.eqb_eq in E. congruence.
Qed.

(** Replacing a character leaves none of it. *)
Lemma replace_char_removes (s : string) :
  PyStr.contains (String c EmptyString) (swap s) = false.
Proof.
  induction s as [|a s IH]; [reflexivity|].
  rewrite replace_char_step, contains_step, prefix_step, prefix_empty, IH.
  destruct (Ascii.eqb a c) eqn:E.
  - destruct (Ascii.ascii_dec c "_") as [H|_]; [contradiction | reflexivity].
  - destruct (Ascii.ascii_dec c a) as [<-|_]; [|reflexivity].
    rewrite Ascii.eqb_refl in E. discriminate.
Qed.

(** Replacing a character by an underscore brings in no occurrence of a
    text that has no underscore. *)
Lemma replace_char_prefix (sub s : string) :
  has_char "_" sub = false ->
  String.prefix sub (swap s) = true -> String.prefix sub s = true.
Proof.
  revert s. induction sub as [|b sub IH]; intros s Hsub H.
  - apply prefix_empty.
  - cbn [has_char] in Hsub. apply orb_false_elim in Hsub as [Hb Hsub].
    destruct s as [|a s]; [discriminate H|].
    rewrite replace_char_step, prefix_step in H. rewrite prefix_step.
    destruct (Ascii.eqb a c) eqn:E.
    + destruct (Ascii.ascii_dec b "_") as [->|_]; [|discriminate H].
      rewrite Ascii.eqb_refl in Hb. discriminate.
    + destruct (Ascii.ascii_dec b a) as [_|_]; [|discriminate H].
      apply IH; assumption.
Qed.

Lemma replace_char_keeps (sub s : string) :
  has_char "_" sub = false ->
  PyStr.contains sub s = false -> PyStr.contains sub (swap s) = false.
Proof.
  intros Hsub. induction s as [|a s IH]; intros H.
  - exact H.
  - rewrite contains_step in H.
    destruct (String.prefix sub (String a s)) eqn:E; [discriminate H|].
    rewrite replace_char_step, contains_step, <- replace_char_step.
    destruct (String.prefix sub (swap (String a s))) eqn:E2.
    + apply replace_char_prefix in E2; [congruence | exact Hsub].
    + apply IH, H.
Qed.

End Replace_char.

(** Replacing every ["$$"] leaves none. *)
Lemma replace_dollars_shape (n : nat) :
  forall s, (String.length s <= n)%nat ->
    PyStr.contains "$$" (PyStr.replace "$$" "__" s) = false
    /\ (String.prefix "$" (PyStr.replace "$$" "__" s) = true -> String.prefix "$" s = true).
Proof.
  induction n as [|n IH]; intros s Hlen.
  - destruct s; [split; [reflexivity | intros H; exact H] | cbn in Hlen; lia].
  - destruct s as [|a s]; [split; [reflexivity | intros H; exact H]|].
    cbn [String.length] in Hlen.
    unfold PyStr.replace. cbn [PyStr.replace_from String.length Nat.sub].
    destruct (String.prefix "$$" (String a s)) eqn:E.
    + rewrite prefix_step in E. destruct (Ascii.ascii_dec "$" a) as [<-|]; [|discriminate E].
      destruct s as [|b s]; [discriminate E|].
      rewrite prefix_step in E. destruct (Ascii.ascii_dec "$" b) as [<-|]; [|discriminate E].
      cbn [PyStr.replace_from].
      destruct (IH s ltac:(cbn [String.length] in Hlen; lia)) as [H1 H2].
      unfold PyStr.replace in H1, H2. split.
      * change (PyStr.contains "$$" (String "_" (String "_" (PyStr.replace_from 0 "$$" "__" s)))
                = false).
        rewrite !contains_step, !prefix_step. cbn. exact H1.
      * intros H. reflexivity.
    + destruct (IH s ltac:(lia)) as [H1 H2]. unfold PyStr.replace in H1, H2.
      split.
      * rewrite contains_step, H1.
        destruct (String.prefix "$$" (String a (PyStr.replace_from 0 "$$" "__" s))) eqn:E2;
          [|reflexivity].
        rewrite prefix_step in E2, E.
        destruct (Ascii.ascii_dec "$" a) as [<-|]; [|discriminate E2].
        rewrite (H2 E2) in E. discriminate.
      * intros H. rewrite prefix_step in H |- *. rewrite prefix_empty in H |- *. exact H.
Qed.

Lemma replace_dollars_removes (s : string) :
  PyStr.contains "$$" (PyStr.replace "$$" "__" s) = false.
Proof. apply (@replace_dollars_shape (String.length s) s), Nat.le_refl. Qed.

(** The name a label gets is plain. *)
Lemma clean_plain (s : string) : plain (clean s) = true.
Proof.
  unfold plain, clean.
  assert (Hc : ","%char <> "_"%char) by discriminate.
  assert (Hg : ">"%char <> "_"%char) by discriminate.
  assert (Hl : "<"%char <> "_"%char) by discriminate.
  set (s1 := PyStr.replace "$$" "__" s).
  set (s2 := PyStr.replace "<" "_" s1).
  set (s3 := PyStr.replace ">" "_" s2).
  assert (D1 : PyStr.contains "$$" s1 = false) by apply replace_dollars_removes.
  assert (D2 : PyStr.contains "$$" s2 = false)
    by (apply (@replace_char_keeps "<"%char "$$" s1); [reflexivity | exact D1]).
  assert (D3 : PyStr.contains "$$" s3 = false)
    by (apply (@replace_char_keeps ">"%char "$$" s2); [reflexivity | exact D2]).
  assert (L2 : PyStr.contains "<" s2 = false) by apply (@replace_char_removes "<"%char Hl s1).
  assert (L3 : PyStr.contains "<" s3 = false)
    by (apply (@replace_char_keeps ">"%char "<" s2); [reflexivity | exact L2]).
  assert (G3 : PyStr.contains ">" s3 = false) by apply (@replace_char_removes ">"%char Hg s2).
  rewrite (@replace_char_keeps ","%char "$$" s3 eq_refl D3).
  rewrite (@replace_char_keeps ","%char "<" s3 eq_refl L3).
  rewrite (@replace_char_keeps ","%char ">" s3 eq_refl G3).
  rewrite (@replace_char_removes ","%char Hc s3).
  reflexivity.
Qed.

Lemma label_targets_plain st af ib addr name targets applied :
  emits_only plainly_labelled (label_targets st af ib addr name targets applied).
Proof.
  revert applied. induction targets as [|[rva target] rest IH]; intros applied.
  - exact I.
  - cbn [label_targets]. destruct name as [| | |s| |];
      emits_only_walk ltac:(first [apply IH | apply clean_plain]).
Qed.

Lemma label_methods_plain st af ib methods applied :
  emits_only plainly_labelled (label_methods st af ib methods applied).
Proof.
  revert applied. induction methods as [|method rest IH]; intros applied.
  - exact I.
  - cbn [label_methods].
    emits_only_walk ltac:(first [apply IH | apply label_targets_plain]).
Qed.

Lemma apply_il2cpp_symbols_plain program :
  emits_only plainly_labelled (apply_il2cpp_symbols program).
Proof.
  unfold apply_il2cpp_symbols. emits_only_walk ltac:(apply label_methods_plain).
Qed.

Lemma run_plain s : emits_only plainly_labelled (run s).
Proof.
  assert (H3 : forall decompiler program ib t,
             emits_only plainly_labelled (decompile_all s decompiler program ib t)).
  { intros. unfold decompile_all. cbn. intros d.
    assert (He : forall t rva name,
               emits_only plainly_labelled (decompile_entry decompiler program ib t rva name)).
    { intros. unfold decompile_entry, decompile_function_at_address.
      emits_only_walk idtac. }
    destruct s; apply emits_only_for_each; intros; apply He. }
  unfold run.
  emits_only_walk ltac:(first
    [ apply apply_il2cpp_symbols_plain | apply H3
    | unfold parse_il2cpp_header, count_data_types; emits_only_walk idtac
    | unfold write_output; emits_only_walk idtac ]).
Qed.

Lemma plainly_labelled_names (tr : list event) (label : string) :
  Forall (fun e => plainly_labelled e = true) tr ->
  In label (pick label_name tr) -> plain label = true.
Proof.
  induction 1 as [|e tr He _ IH]; cbn; [contradiction|].
  unfold plainly_labelled in He. destruct (label_name e) as [name|]; [|exact IH].
  intros [<-|Hin]; [exact He | apply IH, Hin].
Qed.

(** X6.  The names of the labels.  Every name that
    [apply_il2cpp_symbols], and so every name that a run of either script,
    passes to [createLabel] is free of ["$$"], ["<"], [">"] and [","],
    whatever [script.json] holds. *)
Theorem labels_are_plain (s : script) (rt : runtime) (d : dict) (w : world rt)
    (program : obj) (label : string) :
  In label (pick label_name (trace (exec rt (apply_il2cpp_symbols program) d w)))
  \/ In label (pick label_name (trace (exec rt (run s) d w))) ->
  PyStr.contains "$$" label = false
  /\ PyStr.contains "<" label = false
  /\ PyStr.contains ">" label = false
  /\ PyStr.contains "," label = false.
Proof.
  intros H.
  assert (Hp : plain label = true).
  { destruct H as [H|H]; revert H; apply plainly_labelled_names, emits_only_trace.
    - apply apply_il2cpp_symbols_plain.
    - apply run_plain. }
  unfold plain in Hp.
  apply andb_prop in Hp as [Hp H4]. apply andb_prop in Hp as [Hp H3].
  apply andb_prop in Hp as [H1 H2].
  repeat split; apply negb_true_iff; assumption.
Qed.

Lemma labels_are_plain_witness :
  In "MapRouteSearcher__Search"%string
    (pick label_name
       (trace (exec calm (apply_il2cpp_symbols (Obj 1)) (TARGET_FUNCTIONS_RVA Pathfinding) tt)))
  /\ PyStr.contains "$$" "MapRouteSearcher__Search" = false.
Proof.
  split; [left; reflexivity|].
  apply (@labels_are_plain Pathfinding calm (TARGET_FUNCTIONS_RVA Pathfinding) tt (Obj 1)
           "MapRouteSearcher__Search").
  left. left. reflexivity.
Defined.

(** ** The order in which the entries are decompiled *)

Lemma firstn_strongly_sorted {B : Type} (R : B -> B -> Prop) (k : nat) (l : list B) :
  StronglySorted R l -> StronglySorted R (firstn k l).
Proof.
  intros H. revert k. induction H as [|x l Hs IH Hx]; intros [|k]; cbn; try constructor.
  - apply IH.
  - rewrite Forall_forall in Hx |- *. intros y Hy. apply Hx.
    rewrite <- (firstn_skipn k l). apply in_or_app. left; exact Hy.
Qed.

Lemma strongly_sorted_impl {B : Type} (R R' : B -> B -> Prop) (l : list B) :
  (forall a b, In a l -> In b l -> R a b -> a <> b -> R' a b) ->
  NoDup l -> StronglySorted R l -> StronglySorted R' l.
Proof.
  intros H Hn Hs. induction Hs as [|x l Hs IH Hx]; [constructor|].
  inversion Hn as [|? ? Hnx Hnl]; subst. constructor.
  - apply IH; [|exact Hnl]. intros a b Ha Hb. apply H; right; assumption.
  - rewrite Forall_forall in Hx |- *. intros y Hy. apply H.
    + left; reflexivity.
    + right; exact Hy.
    + apply Hx, Hy.
    + intros ->. contradiction.
Qed.

Lemma report_order_sorted (s : script) :
  StronglySorted (fun a b => item_order s a b = true) (report_order s).
Proof.
  apply (sorted_strongly (item_order s) (item_order_orders s)).
  intros z Hz; exact Hz.
Qed.

Lemma NoDup_map_eq {B C : Type} (f : B -> C) (l : list B) (a b : B) :
  NoDup (map f l) -> In a l -> In b l -> f a = f b -> a = b.
Proof.
  induction l as [|x l IH]; cbn; intros Hn Ha Hb E; [contradiction|].
  inversion Hn as [|? ? Hx Hl]; subst.
  destruct Ha as [->|Ha], Hb as [->|Hb].
  - reflexivity.
  - exfalso. apply Hx. rewrite E. apply in_map, Hb.
  - exfalso. apply Hx. rewrite <- E. apply in_map, Ha.
  - apply IH; assumption.
Qed.

Lemma report_order_distinct (s : script) :
  NoDup (map fst (report_order s)) /\ NoDup (map snd (report_order s)).
Proof.
  destruct (target_functions_distinct s) as [H1 H2]. split.
  - apply (Permutation_NoDup (l := map fst (TARGET_FUNCTIONS_RVA s))); [|exact H1].
    apply Permutation_map, Permutation_sym, report_order_perm.
  - apply (Permutation_NoDup (l := map snd (TARGET_FUNCTIONS_RVA s))); [|exact H2].
    apply Permutation_map, Permutation_sym, report_order_perm.
Qed.

(** X7.  The order of the decompilations.  Whatever the order in which
    the dict hands out its items, [decompile_pathfinding.py] calls
    [decompile_function_at_address] by strictly increasing RVA, and
    [decompile_magic.py] by strictly increasing name (compared byte by
    byte); this holds of every run, also of one that stops early. *)
Theorem entries_decompiled_in_order (s : script) (rt : runtime) (d : dict) (w : world rt) :
  Permutation d (TARGET_FUNCTIONS_RVA s) ->
  let entries := pick entered (trace (exec rt (run s) d w)) in
  match s with
  | Magic => StronglySorted (fun a b => String.compare (snd a) (snd b) = Lt) entries
  | Pathfinding => StronglySorted (fun a b => fst a < fst b) entries
  end.
Proof.
  intros Hd entries.
  assert (Hk : exists k, entries = firstn k (report_order s)).
  { destruct (@run_anatomy s rt d w Hd) as [(_ & Htr & _)|(_ & _ & Hk & _)].
    - exists 0%nat. unfold entries. rewrite Htr. reflexivity.
    - exact Hk. }
  destruct Hk as [k ->].
  destruct (report_order_distinct s) as [Hrva Hname].
  assert (Hn : NoDup (report_order s)) by (apply (NoDup_map_inv fst), Hrva).
  pose proof (report_order_sorted s) as Hs.
  destruct s; apply firstn_strongly_sorted; revert Hs; apply strongly_sorted_impl; try exact Hn.
  - intros a b Ha Hb Hle Hab. unfold item_order, by_name, PyStr.le in Hle.
    destruct (String.compare (snd a) (snd b)) eqn:E; [|reflexivity|discriminate].
    exfalso. apply Hab. apply (NoDup_map_eq snd _ a b Hname Ha Hb).
    apply String.compare_eq_iff, E.
  - intros a b Ha Hb Hle Hab. unfold item_order, by_item in Hle.
    apply orb_prop in Hle as [Hlt|Heq]; [apply Z.ltb_lt, Hlt|].
    apply andb_prop in Heq as [Heq _]. apply Z.eqb_eq in Heq.
    exfalso. apply Hab. apply (NoDup_map_eq fst _ a b Hrva Ha Hb Heq).
Qed.

Lemma entries_decompiled_in_order_witness :
  Permutation (rev (TARGET_FUNCTIONS_RVA Pathfinding)) (TARGET_FUNCTIONS_RVA Pathfinding)
  /\ StronglySorted (fun a b => fst a < fst b)
       (pick entered
          (trace (exec calm (run Pathfinding) (rev (TARGET_FUNCTIONS_RVA Pathfinding)) tt))).
Proof.
  split; [apply Permutation_sym, Permutation_rev|].
  apply (@entries_decompiled_in_order Pathfinding calm
           (rev (TARGET_FUNCTIONS_RVA Pathfinding)) tt
           (Permutation_sym (Permutation_rev _))).
Defined.

(** ** How a run ends, and what a run that raises leaves behind *)

(** X8.  How a run ends.  The last event of a run that reaches the host
    tells how it ended.  When [run] raises, it raises the exception of
    that last call, which is one of the calls made outside every [try]:
    [getCurrentProgram], [getImageBase], [getOffset], [getName],
    [DecompInterface], [openProgram], [getAddressFactory] or [dispose];
    nothing reaches the host afterwards.  When [run] returns, its last
    call is either [getCurrentProgram()] answering [None], or
    [decompiler.dispose()] returning.  So a run in which none of those
    calls raises returns, whatever else fails. *)
Theorem how_a_run_ends (s : script) (rt : runtime) (d : dict) (w : world rt) :
  let r := exec rt (run s) d w in
  (exists before ev after,
     trace r = before ++ ev :: after
     /\ filter reaches_host after = []
     /\ match value r with
        | Err e => unguarded_fault ev = Some e
        | Ok _ => no_program ev = true \/ (disposing ev = true /\ raised ev = false)
        end)
  /\ (pick unguarded_fault (trace r) = [] -> value r = Ok tt).
Proof.
  intros r. pose proof (run_ending s rt d w) as H. cbn zeta in H. fold r in H.
  assert (Hlast : exists before ev after,
     trace r = before ++ ev :: after
     /\ filter reaches_host after = []
     /\ match value r with
        | Err e => unguarded_fault ev = Some e
        | Ok _ => no_program ev = true \/ (disposing ev = true /\ raised ev = false)
        end).
  { unfold run_ends, on_last in H.
    destruct (last_call (watch ending_step nothing_yet (trace r))) as [ev|] eqn:E.
    - destruct (last_host_call_split _ E) as (before & after & Htr & Ha).
      exists before, ev, after. split; [exact Htr|]. split; [exact Ha|].
      destruct (value r) as [[]|e]; [exact H | apply H].
    - destruct (value r) as [[]|e]; [destruct H as [H|[H _]]; discriminate|].
      destruct H as [H _]; discriminate. }
  split; [exact Hlast|].
  destruct Hlast as (before & ev & after & Htr & _ & Hv). intros Hnone.
  destruct (value r) as [[]|e]; [reflexivity|].
  rewrite Htr, pick_app in Hnone. cbn in Hnone. rewrite Hv in Hnone.
  apply app_eq_nil in Hnone as [_ Hnone]. discriminate.
Qed.

(** X9.  A run that raises leaves no output.  When [run] raises, either
    no file has been opened for writing, nothing has been written and the
    decompiler has not been disposed of; or the exception is that of
    [decompiler.dispose()], the last call of the run. *)
Theorem failed_run_leaves_no_output (s : script) (rt : runtime) (d : dict) (w : world rt)
    (e : exn) :
  let r := exec rt (run s) d w in
  value r = Err e ->
  (pick opened_for_writing (trace r) = []
   /\ pick written (trace r) = []
   /\ filter disposing (trace r) = [])
  \/ (exists before decompiler after,
        trace r = before ++ Called (dispose decompiler) (Err e) :: after
        /\ filter reaches_host after = []).
Proof.
  intros r Hv. pose proof (run_ending s rt d w) as H. cbn zeta in H. fold r in H.
  rewrite Hv in H. destruct H as [Hf Hc]. unfold on_last in Hf, Hc.
  destruct (closing_seen (watch ending_step nothing_yet (trace r))) eqn:Hseen.
  - right. specialize (Hc eq_refl).
    destruct (last_call (watch ending_step nothing_yet (trace r))) as [ev|] eqn:E;
      [|discriminate].
    destruct (last_host_call_split _ E) as (before & after & Htr & Ha).
    destruct ev as [X c r'| | | | |]; try discriminate.
    destruct c; try discriminate. destruct r' as [u|x]; [discriminate|].
    cbn in Hf. injection Hf as ->. eauto.
  - left. rewrite closing_seen_watch in Hseen. apply orb_false_elim in Hseen as [Hseen _].
    apply no_closing, Hseen.
Qed.

Lemma failed_run_leaves_no_output_witness :
  let r := exec closed (run Pathfinding) (TARGET_FUNCTIONS_RVA Pathfinding) tt in
  value r = Err (HostError "program is closed")
  /\ ((pick opened_for_writing (trace r) = []
       /\ pick written (trace r) = []
       /\ filter disposing (trace r) = [])
      \/ (exists before decompiler after,
            trace r = before ++ Called (dispose decompiler) (Err (HostError "program is closed"))
                                :: after
            /\ filter reaches_host after = [])).
Proof.
  split; [vm_compute; reflexivity|].
  apply (@failed_run_leaves_no_output Pathfinding closed (TARGET_FUNCTIONS_RVA Pathfinding) tt
           (HostError "program is closed")).
  vm_compute. reflexivity.
Defined.

(** ** What [parse_il2cpp_header] hands to the parsers *)

Ltac flows :=
  repeat split; intros; cbn in *;
  repeat match goal with
  | H : False |- _ => destruct H
  | H : _ \/ _ |- _ => destruct H
  | H : (_, _) = (_, _) |- _ => injection H as ? ?; subst
  | H : ?a = ?b |- _ => is_var b; subst b
  | H : ?a = ?b |- _ => is_var a; subst a
  end;
  try solve [ reflexivity | discriminate | contradiction | congruence | auto | eauto 10
            | left; reflexivity | right; reflexivity
            | left; discriminate | right; discriminate ].

(** X10.  What [parse_il2cpp_header] hands to the parsers.  The only
    file it opens is the header, for reading, and not at all when the
    header does not exist.  The [CParser] is built on the data type
    manager the program gave, and is asked to parse exactly the text read
    from the header.  The alternative [CParserUtils.parseHeaderFiles] is
    called on that same data type manager, with the header's path as the
    only file, no include path, and the log and the monitor created just
    before; and it is called only after the primary parse, or the count of
    the data types that follows it, has raised. *)
Theorem parse_il2cpp_header_dataflow (rt : runtime) (d : dict) (w : world rt)
    (program : obj) :
  let tr := trace (exec rt (parse_il2cpp_header program) d w) in
  (pick open_request tr = []
   \/ pick open_request tr = [(IL2CPP_HEADER_PATH, "r"%string, None)])
  /\ (file_exists rt IL2CPP_HEADER_PATH w = false -> pick open_request tr = [])
  /\ (forall dtm, In dtm (pick parser_built_on tr) -> pick manager_given tr = [dtm])
  /\ (forall parser source,
        In (parser, source) (pick parse_asked tr) ->
        pick parser_given tr = [parser] /\ pick text_read tr = [source])
  /\ (forall request,
        In request (pick alternative_asked tr) ->
        exists dtm log monitor,
          request = (dtm, [IL2CPP_HEADER_PATH], [], log, monitor)
          /\ pick manager_given tr = [dtm]
          /\ pick log_given tr = [log]
          /\ pick monitor_given tr = [monitor])
  /\ (pick alternative_asked tr <> [] ->
      pick parse_fault tr <> [] \/ pick count_fault tr <> []).
Proof.
  cbn zeta. unfold parse_il2cpp_header, def, count_data_types. cbn.
  destruct (file_exists rt IL2CPP_HEADER_PATH w) eqn:Hex; cbn; symex; flows.
Qed.

(** ** Numerals read back as the number they were printed from *)

Lemma digit_value_char (d : Z) : 0 <= d < 16 -> digit_value (PyStr.digit_char d) = d.
Proof.
  intros H.
  assert (E : d = 0 \/ d = 1 \/ d = 2 \/ d = 3 \/ d = 4 \/ d = 5 \/ d = 6 \/ d = 7
              \/ d = 8 \/ d = 9 \/ d = 10 \/ d = 11 \/ d = 12 \/ d = 13 \/ d = 14 \/ d = 15)
    by lia.
  repeat (destruct E as [->|E]; [reflexivity|]). subst d. reflexivity.
Qed.

Lemma digits_read_back (base : Z) (fuel : nat) :
  2 <= base <= 16 ->
  forall n acc,
    0 <= n < 2 ^ Z.of_nat fuel ->
    digits_value base (PyStr.digits fuel base n acc) 0 = digits_value base acc n.
Proof.
  intros Hb. induction fuel as [|fuel IH]; intros n acc Hn.
  - cbn in Hn. replace n with 0 by lia. reflexivity.
  - cbn [PyStr.digits].
    assert (Hmod : 0 <= n mod base < base) by (apply Z.mod_pos_bound; lia).
    assert (Hdiv : n = base * (n / base) + n mod base) by (apply Z.div_mod; lia).
    assert (Hq : 0 <= n / base) by (apply Z.div_pos; lia).
    destruct (n / base =? 0) eqn:E.
    + apply Z.eqb_eq in E. cbn [digits_value].
      rewrite digit_value_char by lia. f_equal. lia.
    + apply Z.eqb_neq in E. rewrite IH.
      * cbn [digits_value]. rewrite digit_value_char by lia. f_equal. lia.
      * split; [exact Hq|].
        rewrite Nat2Z.inj_succ, Z.pow_succ_r in Hn by lia.
        apply Z.div_lt_upper_bound; [lia|].
        assert (2 * 2 ^ Z.of_nat fuel <= base * 2 ^ Z.of_nat fuel)
          by (apply Z.mul_le_mono_nonneg_r; lia).
        lia.
Qed.

Lemma numeral_value (base n : Z) :
  2 <= base <= 16 -> 0 <= n ->
  digits_value base (PyStr.numeral base n) 0 = n
  /\ PyStr.numeral base (- n - 1) = ("-" ++ PyStr.numeral base (n + 1))%string.
Proof.
  intros Hb Hn. split.
  - unfold PyStr.numeral. destruct (n <? 0) eqn:E; [apply Z.ltb_lt in E; lia|].
    rewrite digits_read_back; [reflexivity | exact Hb |].
    split; [exact Hn|].
    rewrite Nat2Z.inj_succ, Z2Nat.id by apply Z.log2_nonneg.
    destruct (Z.eq_dec n 0) as [->|Hne]; [reflexivity|].
    apply Z.log2_spec. lia.
  - unfold PyStr.numeral.
    destruct (- n - 1 <? 0) eqn:E1; [|apply Z.ltb_ge in E1; lia].
    destruct (n + 1 <? 0) eqn:E2; [apply Z.ltb_lt in E2; lia|].
    replace (- (- n - 1)) with (n + 1) by lia. reflexivity.
Qed.

(** X11.  The numbers in the report and on the console read back.  For a
    number that is not negative, such as an RVA or an address, the
    hexadecimal text ["{:X}".format] gives and the decimal text [str]
    gives denote that number, so two different addresses never print
    alike; a negative number prints as ["-"] followed by the text of its
    absolute value. *)
Theorem numerals_read_back (n : Z) :
  0 <= n ->
  digits_value 16 (PyStr.format_X n) 0 = n
  /\ digits_value 10 (PyStr.str_int n) 0 = n
  /\ (forall m, 0 <= m -> PyStr.format_X m = PyStr.format_X n -> m = n)
  /\ PyStr.format_X (- n - 1) = ("-" ++ PyStr.format_X (n + 1))%string
  /\ PyStr.str_int (- n - 1) = ("-" ++ PyStr.str_int (n + 1))%string.
Proof.
  intros Hn.
  destruct (@numeral_value 16 n ltac:(lia) Hn) as [H16 S16].
  destruct (@numeral_value 10 n ltac:(lia) Hn) as [H10 S10].
  repeat split; try assumption.
  intros m Hm E. destruct (@numeral_value 16 m ltac:(lia) Hm) as [Hm16 _].
  unfold PyStr.format_X in E. rewrite E in Hm16. congruence.
Qed.

Lemma numerals_read_back_witness :
  0 <= 0x685930 /\ digits_value 16 (PyStr.format_X 0x685930) 0 = 0x685930.
Proof.
  split; [lia|].
  destruct (@numerals_read_back 0x685930 ltac:(lia)) as [H _]. exact H.
Defined.

(** ** One program, one decompiler *)

Lemma on_program_known (st : wiring) (p : obj) :
  the_program st = Some p -> on_program st p = st.
Proof. intros H. unfold on_program, is_obj. rewrite H, obj_eqb_refl. reflexivity. Qed.

Lemma on_decompiler_known (st : wiring) (dec : obj) :
  the_decompiler st = Some dec -> on_decompiler st dec = st.
Proof. intros H. unfold on_decompiler, is_obj. rewrite H, obj_eqb_refl. reflexivity. Qed.

Lemma keeps_bind {A B : Type} (st : wiring) (p : prog A) (k : A -> prog B) :
  obeys wiring_step (@keeps_wiring A st) st p ->
  (forall a, obeys wiring_step (@keeps_wiring B st) st (k a)) ->
  obeys wiring_step (@keeps_wiring B st) st (bind p k).
Proof.
  intros H K. eapply obeys_bind; [exact H | |].
  - intros st' a ->. apply K.
  - intros st' e E. exact E.
Qed.

Lemma keeps_try {A : Type} (st : wiring) (p : prog A) (h : exn -> prog A) :
  obeys wiring_step (@keeps_wiring A st) st p ->
  (forall e, obeys wiring_step (@keeps_wiring A st) st (h e)) ->
  obeys wiring_step (@keeps_wiring A st) st (try_ p h).
Proof.
  intros H K. eapply obeys_try; [exact H | |].
  - intros st' a E. exact E.
  - intros st' e ->. apply K.
Qed.

Lemma keeps_eval {X : Type} (st : wiring) (r : outcome X) :
  obeys wiring_step (@keeps_wiring X st) st (eval r).
Proof. destruct r; reflexivity. Qed.

Lemma keeps_for_each {S E : Type} (st : wiring) (body : S -> E -> prog S) (l : list E) (s : S) :
  (forall s x, obeys wiring_step (@keeps_wiring S st) st (body s x)) ->
  obeys wiring_step (@keeps_wiring S st) st (for_each body l s).
Proof.
  intros H. revert s. induction l as [|x l IH]; intros s; cbn; [reflexivity|].
  apply keeps_bind; [apply H | intros; apply IH].
Qed.

Ltac wire known :=
  repeat first
    [ reflexivity
    | solve [known]
    | match goal with
      | H : the_program ?st = Some ?p |- context [on_program ?st ?p] =>
          rewrite (@on_program_known st p H)
      | H : the_decompiler ?st = Some ?dec |- context [on_decompiler ?st ?dec] =>
          rewrite (@on_decompiler_known st dec H)
      | |- context [on_program ?st ?p] => rewrite (@on_program_known st p eq_refl)
      | |- context [on_decompiler ?st ?dec] => rewrite (@on_decompiler_known st dec eq_refl)
      end
    | apply keeps_bind | apply keeps_try | apply keeps_eval
    | intro
    | case_split
    | progress cbn -[on_program on_decompiler] ].

Lemma parse_il2cpp_header_wiring program st :
  the_program st = Some program ->
  obeys wiring_step (@keeps_wiring bool st) st (parse_il2cpp_header program).
Proof.
  intros Hp. unfold parse_il2cpp_header, count_data_types. wire idtac.
Qed.

Lemma label_event_wiring (st : wiring) (e : event) :
  label_event e = true -> wiring_step st e = st.
Proof.
  destruct e as [X c r| | | | |]; try discriminate. destruct c; try discriminate; reflexivity.
Qed.

Lemma label_methods_wiring sym af ib methods applied st :
  obeys wiring_step (@keeps_wiring Z st) st (label_methods sym af ib methods applied).
Proof.
  apply (obeys_invariant wiring_step label_event (fun st' => st' = st)).
  - apply label_methods_events.
  - intros st' e He ->. apply label_event_wiring, He.
  - reflexivity.
Qed.

Lemma apply_il2cpp_symbols_wiring program st :
  the_program st = Some program ->
  obeys wiring_step (@keeps_wiring Z st) st (apply_il2cpp_symbols program).
Proof.
  intros Hp. unfold apply_il2cpp_symbols. wire ltac:(apply label_methods_wiring).
Qed.

Lemma decompile_function_at_address_wiring decompiler program rva name st :
  the_program st = Some program -> the_decompiler st = Some decompiler ->
  obeys wiring_step (@keeps_wiring (option string * option string) st) st
    (decompile_function_at_address decompiler program rva name).
Proof.
  intros Hp Hd. unfold decompile_function_at_address. wire idtac.
Qed.

Lemma decompile_all_wiring s decompiler program ib t st :
  the_program st = Some program -> the_decompiler st = Some decompiler ->
  obeys wiring_step (@keeps_wiring tally st) st (decompile_all s decompiler program ib t).
Proof.
  intros Hp Hd.
  assert (He : forall t rva name,
             obeys wiring_step (@keeps_wiring tally st) st
               (decompile_entry decompiler program ib t rva name)).
  { intros. unfold decompile_entry.
    wire ltac:(apply decompile_function_at_address_wiring; assumption). }
  unfold decompile_all. cbn. intros d.
  destruct s; apply keeps_for_each; intros; apply He.
Qed.

Lemma write_output_wiring s t st :
  obeys wiring_step (@keeps_wiring unit st) st (write_output s t).
Proof. unfold write_output. wire idtac. Qed.

Ltac settle_wiring :=
  repeat match goal with
  | |- context [on_program ?st ?p] => rewrite (@on_program_known st p eq_refl)
  | |- context [on_decompiler ?st ?dec] => rewrite (@on_decompiler_known st dec eq_refl)
  end.

Ltac run_wire :=
  repeat first
    [ reflexivity
    | progress settle_wiring
    | match goal with
      | |- forall _ : outcome _, _ => intros [?|?]
      | |- context [match ?x with _ => _ end] => is_var x; destruct x
      end
    | progress (freeze; cbn -[on_program on_decompiler]) ].

Ltac through_wired spec :=
  subst; eapply obeys_bind;
    [ apply spec; reflexivity | intros ? ? -> | intros ? ? -> ];
  run_wire.

Lemma run_wiring s :
  obeys wiring_step (fun st (_ : outcome unit) => wired st = true) unwired (run s).
Proof.
  unfold run. run_wire.
  through_wired parse_il2cpp_header_wiring;
    through_wired apply_il2cpp_symbols_wiring;
    through_wired decompile_all_wiring;
    through_wired write_output_wiring.
Qed.

(** X12.  One program, one decompiler.  Along any run, the program is
    asked for once and the decompiler is created at most once; every call
    of [parse_il2cpp_header], [apply_il2cpp_symbols] and
    [decompile_function_at_address], and every call of [getName],
    [getImageBase], [getDataTypeManager], [getSymbolTable],
    [getAddressFactory] and [openProgram], is for the program
    [getCurrentProgram()] gave; and [openProgram], every
    [decompileFunction] and [dispose] are calls on the decompiler
    [DecompInterface()] gave. *)
Theorem one_program_one_decompiler (s : script) (rt : runtime) (d : dict) (w : world rt) :
  wired (watch wiring_step unwired (trace (exec rt (run s) d w))) = true.
Proof.
  apply (obeys_run wiring_step rt (fun st (_ : outcome unit) => wired st = true)
           (run s) unwired d w), run_wiring.
Qed.
